(** * ShaderGenerator: the shader-source normalizer, the geometry generator
      and the WebGL resource pipeline of [src/components/ShaderGenerator.tsx]

    The development is a shallow embedding of the TypeScript component:

    - [JsString]: the JavaScript string primitives the component calls
      ([trim], [indexOf], [includes], [substring], [replace], [split],
      [join], [match] with the two regular expressions of the file);
    - [Normalizer]: [extractVertexShader], [extractFragmentShader],
      [extractGeometryType] and [fixShaderIssues];
    - [Geometry]: [getGeometryVertices], [getGeometryNormals] and the
      sphere, cylinder and torus generators, over an abstract number type;
    - [Pipeline]: [createShader], [createProgram], [setupGeometry],
      [animate] and [renderShader] as a state-and-exception monad over the
      WebGL object table and the React refs of the component;
    - [Generator]: [generateShader], from the description to the rendered
      bundle or the error shown, and the heading of the error panel. *)

From Stdlib Require Import Strings.Ascii Strings.String.
From Stdlib Require Import ZArith QArith Lia.
From stdpp Require Import base list gmap strings.

Local Open Scope Z_scope.

(** ** JavaScript strings

    A string is the list of its code units.  The model covers the code
    units below 256 (ASCII and Latin-1), which is where every character
    tested by the component lies. *)

Module JsString.

Abbreviation jsstring := (list ascii).

(** A literal of the source, as a list of code units. *)
Definition str (s : string) : jsstring := list_ascii_of_string s.

Definition LF : ascii := ascii_of_nat 10.
Definition nl : jsstring := [LF].

Definition code (c : ascii) : N := N_of_ascii c.

(** ECMAScript [WhiteSpace] and [LineTerminator] below 256: TAB, LF, VT, FF,
    CR, SP and NBSP.  [trim] strips them and [\s] matches them. *)
Definition isSpace (c : ascii) : bool :=
  let n := code c in
  (((9 <=? n) && (n <=? 13)) || (n =? 32) || (n =? 160))%N.

(** [\w] is [[A-Za-z0-9_]]. *)
Definition isWord (c : ascii) : bool :=
  let n := code c in
  (((48 <=? n) && (n <=? 57)) || ((65 <=? n) && (n <=? 90))
   || ((97 <=? n) && (n <=? 122)) || (n =? 95))%N.

Definition ascii_eqb (a b : ascii) : bool := Ascii.eqb a b.

Fixpoint dropWhile (p : ascii -> bool) (s : jsstring) : jsstring :=
  match s with
  | [] => []
  | c :: s' => if p c then dropWhile p s' else s
  end.

Fixpoint takeWhile (p : ascii -> bool) (s : jsstring) : jsstring :=
  match s with
  | [] => []
  | c :: s' => if p c then c :: takeWhile p s' else []
  end.

Definition trimStart (s : jsstring) : jsstring := dropWhile isSpace s.
Definition trimEnd (s : jsstring) : jsstring :=
  rev (dropWhile isSpace (rev s)).

(** [String.prototype.trim]. *)
Definition trim (s : jsstring) : jsstring := trimEnd (trimStart s).

(** [s.startsWith(p)], the test behind [indexOf]. *)
Fixpoint startsWith (p s : jsstring) : bool :=
  match p, s with
  | [], _ => true
  | _ :: _, [] => false
  | a :: p', b :: s' => ascii_eqb a b && startsWith p' s'
  end.

(** [indexOfFrom p s i]: the first position of [p] in [s], counted from
    [i], or [-1]. *)
Fixpoint indexOfFrom (p s : jsstring) (i : Z) : Z :=
  if startsWith p s then i
  else match s with
       | [] => -1
       | _ :: s' => indexOfFrom p s' (i + 1)
       end.

(** [s.indexOf(p)]. *)
Definition indexOf (s p : jsstring) : Z := indexOfFrom p s 0.

(** [s.includes(p)]. *)
Definition includes (s p : jsstring) : bool := negb (indexOf s p =? -1).

Definition clamp (s : jsstring) (i : Z) : nat :=
  Z.to_nat (Z.min (Z.max i 0) (Z.of_nat (length s))).

(** [s.substring(a, b)]: both indices are clamped to [0 .. length], and
    swapped when [a > b]. *)
Definition substring (s : jsstring) (a b : Z) : jsstring :=
  let a' := clamp s a in
  let b' := clamp s b in
  let lo := Nat.min a' b' in
  let hi := Nat.max a' b' in
  take (hi - lo) (drop lo s).

(** [s.substring(a)]. *)
Definition substringFrom (s : jsstring) (a : Z) : jsstring :=
  substring s a (Z.of_nat (length s)).

(** [s.replace(pat, rep)] with a string pattern: only the first occurrence
    is replaced.  The component only calls it with the replacement [""],
    in which no [$] pattern occurs, so [rep] is inserted as it is. *)
Definition replace (s pat rep : jsstring) : jsstring :=
  let i := indexOf s pat in
  if i =? -1 then s
  else take (Z.to_nat i) s ++ rep ++ drop (Z.to_nat i + length pat) s.

(** [s.split("\n")]. *)
Fixpoint splitLines (s : jsstring) : list jsstring :=
  match s with
  | [] => [[]]
  | c :: s' =>
      if ascii_eqb c LF then [] :: splitLines s'
      else match splitLines s' with
           | [] => [[c]]
           | l :: ls => (c :: l) :: ls
           end
  end.

(** [lines.join("\n")]. *)
Fixpoint joinLines (ls : list jsstring) : jsstring :=
  match ls with
  | [] => []
  | [l] => l
  | l :: ls' => l ++ nl ++ joinLines ls'
  end.

(** [lines.findIndex(f)], [-1] when no element passes. *)
Fixpoint findIndexFrom {A} (f : A -> bool) (l : list A) (i : Z) : Z :=
  match l with
  | [] => -1
  | x :: l' => if f x then i else findIndexFrom f l' (i + 1)
  end.

Definition findIndex {A} (f : A -> bool) (l : list A) : Z :=
  findIndexFrom f l 0.

(** [lines.splice(i, 0, x)] for [0 <= i]: insertion before position [i]
    (at the end when [i] exceeds the length). *)
Definition spliceInsert {A} (l : list A) (i : Z) (x : A) : list A :=
  take (Z.to_nat i) l ++ x :: drop (Z.to_nat i) l.

(** *** Regular expressions

    The two patterns of the component are sequences of literals and of
    greedy repetitions of a character class.  [matchAtoms] is the
    backtracking matcher: a repetition first takes as many characters as
    it can and gives them back one at a time while the rest of the
    pattern fails. *)

Inductive atom : Type :=
| ALit (l : jsstring)
| AStar (p : ascii -> bool)
| APlus (p : ascii -> bool).

Fixpoint starK {R} (p : ascii -> bool) (k : jsstring -> option R)
    (s : jsstring) : option R :=
  match s with
  | [] => k []
  | c :: s' =>
      if p c then
        match starK p k s' with
        | Some r => Some r
        | None => k s
        end
      else k s
  end.

(** [matchAtoms r s] is the text left after the match of [r] at the start
    of [s]. *)
Fixpoint matchAtoms (r : list atom) (s : jsstring) : option jsstring :=
  match r with
  | [] => Some s
  | ALit l :: r' =>
      if startsWith l s then matchAtoms r' (drop (length l) s) else None
  | AStar p :: r' => starK p (matchAtoms r') s
  | APlus p :: r' =>
      match s with
      | c :: s' => if p c then starK p (matchAtoms r') s' else None
      | [] => None
      end
  end.

(** The matched text at the start of [s]. *)
Definition matchAt (r : list atom) (s : jsstring) : option jsstring :=
  match matchAtoms r s with
  | Some rest => Some (take (length s - length rest) s)
  | None => None
  end.

(** [s.match(r)] without the [g] flag: element [0] of the result, the
    leftmost match. *)
Fixpoint regexMatch (r : list atom) (s : jsstring) : option jsstring :=
  match matchAt r s with
  | Some m => Some m
  | None => match s with
            | [] => None
            | _ :: s' => regexMatch r s'
            end
  end.

(** [/precision\s+\w+\s+float\s*;/] *)
Definition precisionRe : list atom :=
  [ALit (str "precision"); APlus isSpace; APlus isWord; APlus isSpace;
   ALit (str "float"); AStar isSpace; ALit (str ";")].

(** [/\/\/ GEOMETRY:\s*(\w+)/] *)
Definition geometryRe : list atom :=
  [ALit (str "// GEOMETRY:"); AStar isSpace; APlus isWord].

(** Group 1 of a match of [geometryRe]: what is left of the match after
    the literal and the white space. *)
Definition geometryGroup (m : jsstring) : jsstring :=
  dropWhile isSpace (drop (length (str "// GEOMETRY:")) m).

(** [s.toLowerCase()] on code units below 256: [A-Z] and the Latin-1
    capitals (all of 192..222 but the multiplication sign 215). *)
Definition lowerChar (c : ascii) : ascii :=
  let n := code c in
  if (((65 <=? n) && (n <=? 90))
      || ((192 <=? n) && (n <=? 222) && negb (n =? 215)))%N
  then ascii_of_N (n + 32) else c.

Definition toLowerCase (s : jsstring) : jsstring := map lowerChar s.

End JsString.

Import JsString.

(** ** Errors and results

    A JavaScript call either returns or throws [new Error(msg)]. *)

Inductive result (A : Type) : Type :=
| Ok (a : A)
| Throw (msg : jsstring).
Arguments Ok {A} a.
Arguments Throw {A} msg.

(** ** The shader-source normalizer *)

Module Normalizer.

Definition vertexMarker : jsstring := str "// Vertex Shader".
Definition fragmentMarker : jsstring := str "// Fragment Shader".

Definition markersError : jsstring :=
  str "Could not find vertex or fragment shader markers".
Definition fragmentMarkerError : jsstring :=
  str "Could not find fragment shader marker".

Definition extractVertexShader (code : jsstring) : result jsstring :=
  let vertexStart := indexOf code vertexMarker in
  let fragmentStart := indexOf code fragmentMarker in
  if (vertexStart =? -1) || (fragmentStart =? -1) then Throw markersError
  else Ok (trim (replace (substring code vertexStart fragmentStart)
                         vertexMarker [])).

Definition extractFragmentShader (code : jsstring) : result jsstring :=
  let fragmentStart := indexOf code fragmentMarker in
  if fragmentStart =? -1 then Throw fragmentMarkerError
  else Ok (trim (replace (substringFrom code fragmentStart)
                         fragmentMarker [])).

Definition extractGeometryType (code : jsstring) : jsstring :=
  match regexMatch geometryRe code with
  | Some geometryMatch => geometryGroup geometryMatch
  | None => str "cube"
  end.

(** Lines 88-90 of [renderShader]: the three extractions, in the order in
    which they run. *)
Definition parseBundle (shaderCodeText : jsstring)
  : result (jsstring * jsstring * jsstring) :=
  match extractVertexShader shaderCodeText with
  | Throw msg => Throw msg
  | Ok vertexShaderCode =>
      match extractFragmentShader shaderCodeText with
      | Throw msg => Throw msg
      | Ok fragmentShaderCode =>
          Ok (extractGeometryType shaderCodeText, vertexShaderCode,
              fragmentShaderCode)
      end
  end.

Definition defaultPrecision : jsstring := str "precision mediump float;".

Definition timeDecl : jsstring := str "uniform float time;".
Definition resolutionDecl : jsstring := str "uniform vec2 resolution;".
Definition vNormalDecl : jsstring := str "varying vec3 vNormal;".
Definition vPositionDecl : jsstring := str "varying vec3 vPosition;".

(** Lines 165-178: the precision step, on the trimmed text. *)
Definition ensurePrecision (fixedCode : jsstring) : jsstring :=
  if negb (includes fixedCode (str "precision")) then
    defaultPrecision ++ nl ++ fixedCode
  else
    match regexMatch precisionRe fixedCode with
    | Some precisionStatement =>
        let fixedCode := replace fixedCode precisionStatement [] in
        precisionStatement ++ nl ++ trim fixedCode
    | None => fixedCode
    end.

Definition needsTimeUniform (fixedCode : jsstring) : bool :=
  includes fixedCode (str "time")
  && negb (includes fixedCode (str "uniform float time")).
Definition needsResolutionUniform (fixedCode : jsstring) : bool :=
  includes fixedCode (str "resolution")
  && negb (includes fixedCode (str "uniform vec2 resolution")).
Definition needsVNormalVarying (fixedCode : jsstring) : bool :=
  includes fixedCode (str "vNormal")
  && negb (includes fixedCode (str "varying vec3 vNormal")).
Definition needsVPositionVarying (fixedCode : jsstring) : bool :=
  includes fixedCode (str "vPosition")
  && negb (includes fixedCode (str "varying vec3 vPosition")).

(** Lines 187-208: the text of the queued declarations, each followed by a
    line feed. *)
Definition uniformDeclarations (fixedCode : jsstring) : jsstring :=
  (if needsTimeUniform fixedCode then timeDecl ++ nl else [])
  ++ (if needsResolutionUniform fixedCode then resolutionDecl ++ nl else [])
  ++ (if needsVNormalVarying fixedCode then vNormalDecl ++ nl else [])
  ++ (if needsVPositionVarying fixedCode then vPositionDecl ++ nl else []).

(** Lines 210-227: the declarations go after the first line in which
    ["precision"] occurs. *)
Definition insertDeclarations (fixedCode : jsstring) : jsstring :=
  let decls := uniformDeclarations fixedCode in
  match decls with
  | [] => fixedCode
  | _ :: _ =>
      let lines := splitLines fixedCode in
      let precisionLineIndex :=
        findIndex (fun line => includes line (str "precision")) lines in
      if negb (precisionLineIndex =? -1) then
        joinLines (spliceInsert lines (precisionLineIndex + 1) (trim decls))
      else decls ++ fixedCode
  end.

Definition fixShaderIssues (fragmentShaderCode : jsstring) : jsstring :=
  insertDeclarations (ensurePrecision (trim fragmentShaderCode)).

End Normalizer.

Import Normalizer.

(** ** The geometry generator

    JavaScript numbers are IEEE doubles and [Math.cos], [Math.sin] are
    implementation-approximated; the generator is written over an abstract
    number type with the operations it uses, so that what is proved about
    the shape of the buffers holds for every interpretation. *)

Class JsNumber (F : Type) : Type := {
  lit : Q -> F;              (* a numeric literal, an integer loop counter *)
  Math_PI : F;
  Math_cos : F -> F;
  Math_sin : F -> F;
  Math_tan : F -> F;
  neg : F -> F;
  add : F -> F -> F;
  sub : F -> F -> F;
  mul : F -> F -> F;
  div : F -> F -> F;
  undefined : F              (* an array read out of range *)
}.

Module Geometry.

Section Generators.
Context {F : Type} `{JsNumber F}.

Definition num (n : nat) : F := lit (inject_Z (Z.of_nat n)).
Definition int (z : Z) : F := lit (inject_Z z).

(** [arr[k]] *)
Definition at_ (arr : list F) (k : nat) : F := nth k arr undefined.

(** [out.push(arr[a * 3], arr[a * 3 + 1], arr[a * 3 + 2])] *)
Definition pushVertex (arr : list F) (a : nat) : list F :=
  [at_ arr (a * 3); at_ arr (a * 3 + 1); at_ arr (a * 3 + 2)].

(** [for (let i = 0; i < n; i++) body], collecting what the body pushes. *)
Definition forUpTo (n : nat) (body : nat -> list F) : list F :=
  flat_map body (seq 0 n).

Definition cubeVerticesLit : list Z :=
  [
     -1; -1; 1; 1; -1; 1; 1; 1; 1; -1; -1; 1; 1; 1; 1; -1; 1; 1;
     -1; -1; -1; -1; 1; -1; 1; 1; -1; -1; -1; -1; 1; 1; -1; 1; -1; -1;
     -1; 1; -1; -1; 1; 1; 1; 1; 1; -1; 1; -1; 1; 1; 1; 1; 1; -1;
     -1; -1; -1; 1; -1; -1; 1; -1; 1; -1; -1; -1; 1; -1; 1; -1; -1; 1;
     1; -1; -1; 1; 1; -1; 1; 1; 1; 1; -1; -1; 1; 1; 1; 1; -1; 1;
     -1; -1; -1; -1; -1; 1; -1; 1; 1; -1; -1; -1; -1; 1; 1; -1; 1; -1
  ].

Definition defaultVerticesLit : list Z :=
  [
     -1; -1; 1; 1; -1; 1; 1; 1; 1; -1; -1; 1; 1; 1; 1; -1; 1; 1; -1; -1;
     -1; -1; 1; -1; 1; 1; -1; -1; -1; -1; 1; 1; -1; 1; -1; -1; -1; 1; -1;
     -1; 1; 1; 1; 1; 1; -1; 1; -1; 1; 1; 1; 1; 1; -1; -1; -1; -1; 1; -1;
     -1; 1; -1; 1; -1; -1; -1; 1; -1; 1; -1; -1; 1; 1; -1; -1; 1; 1; -1; 1;
     1; 1; 1; -1; -1; 1; 1; 1; 1; -1; 1; -1; -1; -1; -1; -1; 1; -1; 1; 1;
     -1; -1; -1; -1; 1; 1; -1; 1; -1
  ].

Definition planeVerticesLit : list Z :=
  [-2; 0; -2; 2; 0; -2; 2; 0; 2; -2; 0; -2; 2; 0; 2; -2; 0; 2].

Definition cubeNormalsLit : list Z :=
  [
     0; 0; 1; 0; 0; 1; 0; 0; 1; 0; 0; 1; 0; 0; 1; 0; 0; 1;
     0; 0; -1; 0; 0; -1; 0; 0; -1; 0; 0; -1; 0; 0; -1; 0; 0; -1;
     0; 1; 0; 0; 1; 0; 0; 1; 0; 0; 1; 0; 0; 1; 0; 0; 1; 0;
     0; -1; 0; 0; -1; 0; 0; -1; 0; 0; -1; 0; 0; -1; 0; 0; -1; 0;
     1; 0; 0; 1; 0; 0; 1; 0; 0; 1; 0; 0; 1; 0; 0; 1; 0; 0;
     -1; 0; 0; -1; 0; 0; -1; 0; 0; -1; 0; 0; -1; 0; 0; -1; 0; 0
  ].

Definition defaultNormalsLit : list Z :=
  [
     0; 0; 1; 0; 0; 1; 0; 0; 1; 0; 0; 1; 0; 0; 1; 0; 0; 1; 0; 0; -1; 0; 0;
     -1; 0; 0; -1; 0; 0; -1; 0; 0; -1; 0; 0; -1; 0; 1; 0; 0; 1; 0; 0; 1; 0;
     0; 1; 0; 0; 1; 0; 0; 1; 0; 0; -1; 0; 0; -1; 0; 0; -1; 0; 0; -1; 0; 0;
     -1; 0; 0; -1; 0; 1; 0; 0; 1; 0; 0; 1; 0; 0; 1; 0; 0; 1; 0; 0; 1; 0; 0;
     -1; 0; 0; -1; 0; 0; -1; 0; 0; -1; 0; 0; -1; 0; 0; -1; 0; 0
  ].

Definition planeNormalsLit : list Z :=
  [0; 1; 0; 0; 1; 0; 0; 1; 0; 0; 1; 0; 0; 1; 0; 0; 1; 0].

(** Lines 389-403 *)
Definition sphereGrid (radius : F) (widthSegments heightSegments : nat)
  : list F :=
  forUpTo (heightSegments + 1) (fun i =>
    let v := div (num i) (num heightSegments) in
    let phi := mul v Math_PI in
    forUpTo (widthSegments + 1) (fun j =>
      let u := div (num j) (num widthSegments) in
      let theta := mul (mul u Math_PI) (int 2) in
      let x := mul (mul (neg radius) (Math_cos theta)) (Math_sin phi) in
      let y := mul radius (Math_cos phi) in
      let z := mul (mul radius (Math_sin theta)) (Math_sin phi) in
      [x; y; z])).

(** Lines 405-448 and 476-519: the walk over the cells of the grid, the
    same in [generateSphere] and [generateSphereNormals]. *)
Definition sphereTriangles (vertices : list F)
    (widthSegments heightSegments : nat) : list F :=
  forUpTo heightSegments (fun i =>
    forUpTo widthSegments (fun j =>
      let a := (i * (widthSegments + 1) + j)%nat in
      let b := (a + widthSegments + 1)%nat in
      let c := (a + 1)%nat in
      let d := (b + 1)%nat in
      (if negb (Z.of_nat i =? 0)
       then pushVertex vertices a ++ pushVertex vertices b
            ++ pushVertex vertices c
       else [])
      ++ (if negb (Z.of_nat i =? Z.of_nat heightSegments - 1)
          then pushVertex vertices b ++ pushVertex vertices d
               ++ pushVertex vertices c
          else []))).

Definition generateSphere (radius : F) (widthSegments heightSegments : nat)
  : list F :=
  let vertices := sphereGrid radius widthSegments heightSegments in
  sphereTriangles vertices widthSegments heightSegments.

(** Lines 460-474 *)
Definition sphereNormalGrid (widthSegments heightSegments : nat) : list F :=
  forUpTo (heightSegments + 1) (fun i =>
    let v := div (num i) (num heightSegments) in
    let phi := mul v Math_PI in
    forUpTo (widthSegments + 1) (fun j =>
      let u := div (num j) (num widthSegments) in
      let theta := mul (mul u Math_PI) (int 2) in
      let x := mul (neg (Math_cos theta)) (Math_sin phi) in
      let y := Math_cos phi in
      let z := mul (Math_sin theta) (Math_sin phi) in
      [x; y; z])).

Definition generateSphereNormals (radius : F)
    (widthSegments heightSegments : nat) : list F :=
  let normals := sphereNormalGrid widthSegments heightSegments in
  sphereTriangles normals widthSegments heightSegments.

(** Lines 533-542 *)
Definition cylinderGrid (radius height : F) (segments : nat) : list F :=
  let halfHeight := div height (int 2) in
  forUpTo (segments + 1) (fun i =>
    let theta := mul (mul (div (num i) (num segments)) Math_PI) (int 2) in
    let x := mul radius (Math_cos theta) in
    let z := mul radius (Math_sin theta) in
    [x; neg halfHeight; z] ++ [x; halfHeight; z]).

(** Lines 545-560 and 582-620 *)
Definition cylinderTriangles (vertices : list F) (segments : nat) : list F :=
  forUpTo segments (fun i =>
    let a := (i * 2)%nat in
    let b := (a + 1)%nat in
    let c := (((i + 1) mod segments) * 2)%nat in
    let d := (c + 1)%nat in
    pushVertex vertices a ++ pushVertex vertices c ++ pushVertex vertices b
    ++ pushVertex vertices b ++ pushVertex vertices c
    ++ pushVertex vertices d).

Definition generateCylinder (radius height : F) (segments : nat) : list F :=
  cylinderTriangles (cylinderGrid radius height segments) segments.

(** Lines 572-580 *)
Definition cylinderNormalGrid (segments : nat) : list F :=
  forUpTo (segments + 1) (fun i =>
    let theta := mul (mul (div (num i) (num segments)) Math_PI) (int 2) in
    let x := Math_cos theta in
    let z := Math_sin theta in
    [x; int 0; z] ++ [x; int 0; z]).

Definition generateCylinderNormals (radius height : F) (segments : nat)
  : list F :=
  cylinderTriangles (cylinderNormalGrid segments) segments.

(** Lines 633-645 *)
Definition torusGrid (majorRadius minorRadius : F)
    (majorSegments minorSegments : nat) : list F :=
  forUpTo (majorSegments + 1) (fun i =>
    let u := mul (mul (div (num i) (num majorSegments)) Math_PI) (int 2) in
    forUpTo (minorSegments + 1) (fun j =>
      let v := mul (mul (div (num j) (num minorSegments)) Math_PI) (int 2) in
      let x := mul (add majorRadius (mul minorRadius (Math_cos v)))
                   (Math_cos u) in
      let y := mul minorRadius (Math_sin v) in
      let z := mul (add majorRadius (mul minorRadius (Math_cos v)))
                   (Math_sin u) in
      [x; y; z])).

(** Lines 647-687 and 721-761 *)
Definition torusTriangles (vertices : list F)
    (majorSegments minorSegments : nat) : list F :=
  forUpTo majorSegments (fun i =>
    forUpTo minorSegments (fun j =>
      let a := (i * (minorSegments + 1) + j)%nat in
      let b := (a + minorSegments + 1)%nat in
      let c := (a + 1)%nat in
      let d := (b + 1)%nat in
      pushVertex vertices a ++ pushVertex vertices b ++ pushVertex vertices c
      ++ pushVertex vertices b ++ pushVertex vertices d
      ++ pushVertex vertices c)).

Definition generateTorus (majorRadius minorRadius : F)
    (majorSegments minorSegments : nat) : list F :=
  torusTriangles (torusGrid majorRadius minorRadius majorSegments
                            minorSegments) majorSegments minorSegments.

(** Lines 700-719 *)
Definition torusNormalGrid (majorRadius minorRadius : F)
    (majorSegments minorSegments : nat) : list F :=
  forUpTo (majorSegments + 1) (fun i =>
    let u := mul (mul (div (num i) (num majorSegments)) Math_PI) (int 2) in
    forUpTo (minorSegments + 1) (fun j =>
      let v := mul (mul (div (num j) (num minorSegments)) Math_PI) (int 2) in
      let centerX := mul majorRadius (Math_cos u) in
      let centerZ := mul majorRadius (Math_sin u) in
      let x := mul (add majorRadius (mul minorRadius (Math_cos v)))
                   (Math_cos u) in
      let y := mul minorRadius (Math_sin v) in
      let z := mul (add majorRadius (mul minorRadius (Math_cos v)))
                   (Math_sin u) in
      let nx := div (sub x centerX) minorRadius in
      let ny := div y minorRadius in
      let nz := div (sub z centerZ) minorRadius in
      [nx; ny; nz])).

Definition generateTorusNormals (majorRadius minorRadius : F)
    (majorSegments minorSegments : nat) : list F :=
  torusTriangles (torusNormalGrid majorRadius minorRadius majorSegments
                                  minorSegments) majorSegments minorSegments.

Definition streq (a b : jsstring) : bool := bool_decide (a = b).

(** The [switch] of lines 307-341: the first [case] whose label is strictly
    equal to [type.toLowerCase()], else [default]. *)
Definition getGeometryVertices (type : jsstring) : list F :=
  let t := toLowerCase type in
  if streq t (str "cube") then map int cubeVerticesLit
  else if streq t (str "sphere") then generateSphere (int 1) 20 20
  else if streq t (str "plane") then map int planeVerticesLit
  else if streq t (str "cylinder") then generateCylinder (int 1) (int 2) 16
  else if streq t (str "torus")
       then generateTorus (lit (6 # 10)%Q) (lit (3 # 10)%Q) 16 16
  else map int defaultVerticesLit.

Definition getGeometryNormals (type : jsstring) : list F :=
  let t := toLowerCase type in
  if streq t (str "cube") then map int cubeNormalsLit
  else if streq t (str "sphere") then generateSphereNormals (int 1) 20 20
  else if streq t (str "plane") then map int planeNormalsLit
  else if streq t (str "cylinder")
       then generateCylinderNormals (int 1) (int 2) 16
  else if streq t (str "torus")
       then generateTorusNormals (lit (6 # 10)%Q) (lit (3 # 10)%Q) 16 16
  else map int defaultNormalsLit.

End Generators.

End Geometry.

(** ** The WebGL pipeline

    The component keeps its state in React refs and in the WebGL context.
    [World] holds both: the table of the live WebGL objects, the pending
    [requestAnimationFrame] registrations, and the refs.  [Host] is what
    the browser decides: whether an object can be allocated, whether a
    source compiles, whether two stages link. *)

Module Pipeline.

Inductive shaderType : Type := VERTEX_SHADER | FRAGMENT_SHADER.

Record Host : Type := {
  canvasMounted : bool;                    (* [canvasRef.current] *)
  webglSupported : bool;                   (* [canvas.getContext("webgl")] *)
  canvasWidth : Z;
  canvasHeight : Z;
  allocates : nat -> bool;                 (* [gl.create*] is not [null] *)
  compiles : shaderType -> jsstring -> bool;            (* COMPILE_STATUS *)
  shaderInfoLog : shaderType -> jsstring -> jsstring;
  links : jsstring -> jsstring -> bool;                 (* LINK_STATUS *)
  programInfoLog : jsstring -> jsstring -> jsstring;
  attribLocation : jsstring -> jsstring -> jsstring -> Z;
  uniformDeclared : jsstring -> jsstring -> jsstring -> bool
}.

Section Component.
Context {F : Type} `{JsNumber F}.
Variable host : Host.

Inductive glObject : Type :=
| ShaderObject (type : shaderType) (source : jsstring) (compiled : bool)
| ProgramObject (attached : list nat) (linked : option (jsstring * jsstring))
| BufferObject (data : list F).

(** The calls that create or delete no object. *)
Inductive glCall : Type :=
| Viewport (x y w h : Z)
| ClearColor
| Clear
| EnableDepthTest
| UseProgram (program : nat)
| Uniform1f (name : jsstring) (x : F)
| Uniform2f (name : jsstring) (x y : F)
| UniformMatrix4fv (name : jsstring) (m : list F)
| EnableVertexAttribArray (location : Z)
| VertexAttribPointer (location : Z) (size : nat)
| DrawArrays (first count : nat).

Record World : Type := {
  objects : gmap nat glObject;     (* the live WebGL objects, by handle *)
  nextHandle : nat;
  arrayBuffer : option nat;        (* the ARRAY_BUFFER binding *)
  calls : list glCall;             (* newest first *)
  frameRequests : list nat;        (* pending [requestAnimationFrame] ids *)
  nextRequest : nat;
  clock : Z;                       (* [Date.now()] *)
  errorState : jsstring;           (* [setError] *)
  glRef : bool;
  programRef : option nat;
  animationRef : nat;
  startTimeRef : Z;
  vertexCountRef : nat
}.

Definition setObjects (f : gmap nat glObject -> gmap nat glObject)
    (w : World) : World :=
  {| objects := f (objects w); nextHandle := nextHandle w;
     arrayBuffer := arrayBuffer w; calls := calls w;
     frameRequests := frameRequests w; nextRequest := nextRequest w;
     clock := clock w; errorState := errorState w; glRef := glRef w;
     programRef := programRef w; animationRef := animationRef w;
     startTimeRef := startTimeRef w; vertexCountRef := vertexCountRef w |}.

(** The state before the component has rendered anything: the refs hold
    the initial values of lines 15-19. *)
Definition initialWorld (now : Z) : World :=
  {| objects := ∅; nextHandle := 1; arrayBuffer := None; calls := [];
     frameRequests := []; nextRequest := 1; clock := now; errorState := [];
     glRef := false; programRef := None; animationRef := 0;
     startTimeRef := now; vertexCountRef := 36 |}.

(** *** The monad: state, and exceptions that keep the state *)

Definition M (A : Type) : Type := World -> result A * World.

Definition ret {A} (a : A) : M A := fun w => (Ok a, w).
Definition throw {A} (msg : jsstring) : M A := fun w => (Throw msg, w).
Definition bind {A B} (m : M A) (k : A -> M B) : M B :=
  fun w => match m w with
           | (Ok a, w') => k a w'
           | (Throw msg, w') => (Throw msg, w')
           end.
Definition get : M World := fun w => (Ok w, w).
Definition modify (f : World -> World) : M unit := fun w => (Ok tt, f w).
Definition liftResult {A} (r : result A) : M A := fun w => (r, w).

Notation "x <- m ;; k" := (bind m (fun x => k))
  (at level 100, m at level 99, k at level 100, right associativity).
Notation "m ;;; k" := (bind m (fun _ => k))
  (at level 100, k at level 100, right associativity).

(** *** The WebGL calls *)

Definition allocate (o : glObject) : M (option nat) :=
  fun w =>
    let h := nextHandle w in
    if allocates host h then
      (Ok (Some h),
       {| objects := <[h := o]> (objects w); nextHandle := S h;
          arrayBuffer := arrayBuffer w; calls := calls w;
          frameRequests := frameRequests w; nextRequest := nextRequest w;
          clock := clock w; errorState := errorState w; glRef := glRef w;
          programRef := programRef w; animationRef := animationRef w;
          startTimeRef := startTimeRef w;
          vertexCountRef := vertexCountRef w |})
    else (Ok None, w).

Definition gl_createShader (type : shaderType) : M (option nat) :=
  allocate (ShaderObject type [] false).

Definition gl_shaderSource (shader : nat) (source : jsstring) : M unit :=
  modify (setObjects (alter (fun o =>
    match o with
    | ShaderObject type _ c => ShaderObject type source c
    | _ => o
    end) shader)).

Definition gl_compileShader (shader : nat) : M unit :=
  modify (setObjects (alter (fun o =>
    match o with
    | ShaderObject type source _ =>
        ShaderObject type source (compiles host type source)
    | _ => o
    end) shader)).

Definition gl_getShaderCompileStatus (shader : nat) : M bool :=
  w <- get ;;
  ret match objects w !! shader with
      | Some (ShaderObject _ _ c) => c
      | _ => false
      end.

Definition gl_getShaderInfoLog (shader : nat) : M jsstring :=
  w <- get ;;
  ret match objects w !! shader with
      | Some (ShaderObject type source _) => shaderInfoLog host type source
      | _ => []
      end.

(** [gl.deleteShader] and [gl.deleteProgram] free the object; a shader
    attached to a program would only be flagged, but the component deletes
    a shader only before it attaches it. *)
Definition gl_delete (handle : nat) : M unit :=
  modify (setObjects (delete handle)).

Definition gl_createProgram : M (option nat) :=
  allocate (ProgramObject [] None).

Definition gl_attachShader (program shader : nat) : M unit :=
  modify (setObjects (alter (fun o =>
    match o with
    | ProgramObject attached l => ProgramObject (attached ++ [shader]) l
    | _ => o
    end) program)).

Definition sourceOf (objs : gmap nat glObject) (type : shaderType)
    (attached : list nat) : jsstring :=
  match
    omap (fun h => match objs !! h with
                   | Some (ShaderObject ty src _) =>
                       match ty, type with
                       | VERTEX_SHADER, VERTEX_SHADER
                       | FRAGMENT_SHADER, FRAGMENT_SHADER => Some src
                       | _, _ => None
                       end
                   | _ => None
                   end) attached
  with
  | src :: _ => src
  | [] => []
  end.

Definition gl_linkProgram (program : nat) : M unit :=
  modify (fun w => setObjects (alter (fun o =>
    match o with
    | ProgramObject attached _ =>
        let vs := sourceOf (objects w) VERTEX_SHADER attached in
        let fs := sourceOf (objects w) FRAGMENT_SHADER attached in
        ProgramObject attached
          (if links host vs fs then Some (vs, fs) else None)
    | _ => o
    end) program) w).

Definition programSources (w : World) (program : nat)
  : jsstring * jsstring :=
  match objects w !! program with
  | Some (ProgramObject attached _) =>
      (sourceOf (objects w) VERTEX_SHADER attached,
       sourceOf (objects w) FRAGMENT_SHADER attached)
  | _ => ([], [])
  end.

Definition gl_getProgramLinkStatus (program : nat) : M bool :=
  w <- get ;;
  ret match objects w !! program with
      | Some (ProgramObject _ (Some _)) => true
      | _ => false
      end.

Definition gl_getProgramInfoLog (program : nat) : M jsstring :=
  w <- get ;;
  let sources := programSources w program in
  ret (programInfoLog host sources.1 sources.2).

Definition gl_createBuffer : M (option nat) :=
  allocate (BufferObject []).

Definition gl_bindBuffer (buffer : option nat) : M unit :=
  modify (fun w =>
    {| objects := objects w; nextHandle := nextHandle w;
       arrayBuffer := buffer; calls := calls w;
       frameRequests := frameRequests w; nextRequest := nextRequest w;
       clock := clock w; errorState := errorState w; glRef := glRef w;
       programRef := programRef w; animationRef := animationRef w;
       startTimeRef := startTimeRef w; vertexCountRef := vertexCountRef w |}).

(** [gl.bufferData(gl.ARRAY_BUFFER, data, gl.STATIC_DRAW)]: the data go to
    the bound buffer, and nowhere when none is bound. *)
Definition gl_bufferData (data : list F) : M unit :=
  modify (fun w =>
    match arrayBuffer w with
    | Some b => setObjects (alter (fun o =>
                  match o with
                  | BufferObject _ => BufferObject data
                  | _ => o
                  end) b) w
    | None => w
    end).

Definition gl_call (c : glCall) : M unit :=
  modify (fun w =>
    {| objects := objects w; nextHandle := nextHandle w;
       arrayBuffer := arrayBuffer w; calls := c :: calls w;
       frameRequests := frameRequests w; nextRequest := nextRequest w;
       clock := clock w; errorState := errorState w; glRef := glRef w;
       programRef := programRef w; animationRef := animationRef w;
       startTimeRef := startTimeRef w; vertexCountRef := vertexCountRef w |}).

Definition gl_getAttribLocation (program : nat) (name : jsstring) : M Z :=
  w <- get ;;
  let sources := programSources w program in
  ret (attribLocation host sources.1 sources.2 name).

(** [gl.getUniformLocation(program, name)] is [null] for a uniform the
    program does not declare; the result is only tested for truthiness. *)
Definition gl_getUniformLocation (program : nat) (name : jsstring) : M bool :=
  w <- get ;;
  let sources := programSources w program in
  ret (uniformDeclared host sources.1 sources.2 name).

(** *** The refs and the browser *)

Definition setRefs (gl : bool) (program : option nat) (animation : nat)
    (startTime : Z) (vertexCount : nat) : M unit :=
  modify (fun w =>
    {| objects := objects w; nextHandle := nextHandle w;
       arrayBuffer := arrayBuffer w; calls := calls w;
       frameRequests := frameRequests w; nextRequest := nextRequest w;
       clock := clock w; errorState := errorState w; glRef := gl;
       programRef := program; animationRef := animation;
       startTimeRef := startTime; vertexCountRef := vertexCount |}).

Definition setGlRef : M unit :=
  w <- get ;;
  setRefs true (programRef w) (animationRef w) (startTimeRef w)
          (vertexCountRef w).
Definition setProgramRef (program : nat) : M unit :=
  w <- get ;;
  setRefs (glRef w) (Some program) (animationRef w) (startTimeRef w)
          (vertexCountRef w).
Definition setAnimationRef (id : nat) : M unit :=
  w <- get ;;
  setRefs (glRef w) (programRef w) id (startTimeRef w) (vertexCountRef w).
Definition setStartTimeRef (t : Z) : M unit :=
  w <- get ;;
  setRefs (glRef w) (programRef w) (animationRef w) t (vertexCountRef w).
Definition setVertexCountRef (n : nat) : M unit :=
  w <- get ;;
  setRefs (glRef w) (programRef w) (animationRef w) (startTimeRef w) n.

Definition setError (msg : jsstring) : M unit :=
  modify (fun w =>
    {| objects := objects w; nextHandle := nextHandle w;
       arrayBuffer := arrayBuffer w; calls := calls w;
       frameRequests := frameRequests w; nextRequest := nextRequest w;
       clock := clock w; errorState := msg; glRef := glRef w;
       programRef := programRef w; animationRef := animationRef w;
       startTimeRef := startTimeRef w; vertexCountRef := vertexCountRef w |}).

Definition setFrameRequests (reqs : list nat) (next : nat) (w : World)
  : World :=
  {| objects := objects w; nextHandle := nextHandle w;
     arrayBuffer := arrayBuffer w; calls := calls w;
     frameRequests := reqs; nextRequest := next;
     clock := clock w; errorState := errorState w; glRef := glRef w;
     programRef := programRef w; animationRef := animationRef w;
     startTimeRef := startTimeRef w; vertexCountRef := vertexCountRef w |}.

(** [requestAnimationFrame(animate)]: one more pending registration of
    [animate]; the id is returned. *)
Definition requestAnimationFrame : M nat :=
  fun w =>
    let id := nextRequest w in
    (Ok id, setFrameRequests (frameRequests w ++ [id]) (S id) w).

Definition cancelAnimationFrame (id : nat) : M unit :=
  modify (fun w =>
    setFrameRequests (filter (fun r => r ≠ id) (frameRequests w))
                     (nextRequest w) w).

Definition Date_now : M Z := w <- get ;; ret (clock w).

(** *** The component *)

(** Lines 230-248 *)
Definition createShader (type : shaderType) (source : jsstring)
  : M (option nat) :=
  s <- gl_createShader type ;;
  match s with
  | None => ret None
  | Some shader =>
      gl_shaderSource shader source ;;;
      gl_compileShader shader ;;;
      ok <- gl_getShaderCompileStatus shader ;;
      if negb ok then
        error <- gl_getShaderInfoLog shader ;;
        gl_delete shader ;;;
        throw (str "Shader compilation error: " ++ error)
      else ret (Some shader)
  end.

(** Lines 250-269 *)
Definition createProgram (vertexShader fragmentShader : nat)
  : M (option nat) :=
  p <- gl_createProgram ;;
  match p with
  | None => ret None
  | Some program =>
      gl_attachShader program vertexShader ;;;
      gl_attachShader program fragmentShader ;;;
      gl_linkProgram program ;;;
      ok <- gl_getProgramLinkStatus program ;;
      if negb ok then
        error <- gl_getProgramInfoLog program ;;
        gl_delete program ;;;
        throw (str "Program linking error: " ++ error)
      else ret (Some program)
  end.

(** Lines 271-304.  [vertices.length / 3] is exact: the length is a
    multiple of 3 for every geometry type. *)
Definition setupGeometry (program : nat) (geometryType : jsstring)
  : M unit :=
  let vertices := Geometry.getGeometryVertices geometryType in
  let normals := Geometry.getGeometryNormals geometryType in
  setVertexCountRef (length vertices / 3)%nat ;;;
  positionBuffer <- gl_createBuffer ;;
  gl_bindBuffer positionBuffer ;;;
  gl_bufferData vertices ;;;
  normalBuffer <- gl_createBuffer ;;
  gl_bindBuffer normalBuffer ;;;
  gl_bufferData normals ;;;
  positionLocation <- gl_getAttribLocation program (str "position") ;;
  normalLocation <- gl_getAttribLocation program (str "normal") ;;
  gl_bindBuffer positionBuffer ;;;
  gl_call (EnableVertexAttribArray positionLocation) ;;;
  gl_call (VertexAttribPointer positionLocation 3) ;;;
  gl_bindBuffer normalBuffer ;;;
  gl_call (EnableVertexAttribArray normalLocation) ;;;
  gl_call (VertexAttribPointer normalLocation 3).

(** Lines 822-855 *)
Definition createRotationMatrix (angle : F) : list F :=
  let c := Math_cos angle in
  let s := Math_sin angle in
  [c; Geometry.int 0; s; Geometry.int 0;
   Geometry.int 0; Geometry.int 1; Geometry.int 0; Geometry.int 0;
   neg s; Geometry.int 0; c; Geometry.int 0;
   Geometry.int 0; Geometry.int 0; Geometry.int 0; Geometry.int 1].

Definition createViewMatrix : list F :=
  map Geometry.int [1; 0; 0; 0; 0; 1; 0; 0; 0; 0; 1; 0; 0; 0; -5; 1].

Definition createProjectionMatrix (aspect : F) : list F :=
  let zero := Geometry.int 0 in
  let fov := div Math_PI (Geometry.int 4) in
  let near := lit (1 # 10)%Q in
  let far := Geometry.int 100 in
  let f := div (Geometry.int 1) (Math_tan (div fov (Geometry.int 2))) in
  [div f aspect; zero; zero; zero;
   zero; f; zero; zero;
   zero; zero; div (add far near) (sub near far); Geometry.int (-1);
   zero; zero; div (mul (mul (Geometry.int 2) far) near) (sub near far);
   zero].

Definition whenM (b : bool) (m : M unit) : M unit :=
  if b then m else ret tt.

(** Lines 766-820: one frame, and the registration of the next one. *)
Definition animate : M unit :=
  w <- get ;;
  match glRef w, programRef w with
  | true, Some program =>
      if negb (canvasMounted host) then ret tt
      else
        let width := canvasWidth host in
        let height := canvasHeight host in
        gl_call (Viewport 0 0 width height) ;;;
        gl_call ClearColor ;;;
        gl_call Clear ;;;
        gl_call EnableDepthTest ;;;
        gl_call (UseProgram program) ;;;
        now <- Date_now ;;
        let time := div (Geometry.int (now - startTimeRef w))
                        (Geometry.int 1000) in
        timeLocation <- gl_getUniformLocation program (str "time") ;;
        whenM timeLocation (gl_call (Uniform1f (str "time") time)) ;;;
        resolutionLocation <-
          gl_getUniformLocation program (str "resolution") ;;
        whenM resolutionLocation
          (gl_call (Uniform2f (str "resolution") (Geometry.int width)
                              (Geometry.int height))) ;;;
        let modelMatrix := createRotationMatrix time in
        let viewMatrix := createViewMatrix in
        let projectionMatrix :=
          createProjectionMatrix
            (div (Geometry.int width) (Geometry.int height)) in
        modelLocation <- gl_getUniformLocation program (str "modelMatrix") ;;
        viewLocation <- gl_getUniformLocation program (str "viewMatrix") ;;
        projectionLocation <-
          gl_getUniformLocation program (str "projectionMatrix") ;;
        whenM modelLocation
          (gl_call (UniformMatrix4fv (str "modelMatrix") modelMatrix)) ;;;
        whenM viewLocation
          (gl_call (UniformMatrix4fv (str "viewMatrix") viewMatrix)) ;;;
        whenM projectionLocation
          (gl_call (UniformMatrix4fv (str "projectionMatrix")
                                     projectionMatrix)) ;;;
        gl_call (DrawArrays 0 (vertexCountRef w)) ;;;
        id <- requestAnimationFrame ;;
        setAnimationRef id
  | _, _ => ret tt
  end.

(** Lines 74-134.  The [catch] of lines 129-133 logs and rethrows, so the
    [try] block is its body. *)
Definition renderShader (shaderCodeText : jsstring) : M unit :=
  if negb (canvasMounted host) then ret tt
  else if negb (webglSupported host) then
    setError (str "WebGL not supported in this browser")
  else
    setGlRef ;;;
    vertexShaderCode <- liftResult (extractVertexShader shaderCodeText) ;;
    fragmentShaderCode <- liftResult (extractFragmentShader shaderCodeText) ;;
    let geometryType := extractGeometryType shaderCodeText in
    let fragmentShaderCode := fixShaderIssues fragmentShaderCode in
    vertexShader <- createShader VERTEX_SHADER vertexShaderCode ;;
    fragmentShader <- createShader FRAGMENT_SHADER fragmentShaderCode ;;
    match vertexShader, fragmentShader with
    | Some vertexShader, Some fragmentShader =>
        program <- createProgram vertexShader fragmentShader ;;
        match program with
        | None => throw (str "Failed to create shader program")
        | Some program =>
            setProgramRef program ;;;
            setupGeometry program geometryType ;;;
            now <- Date_now ;;
            setStartTimeRef now ;;;
            animate
        end
    | _, _ => throw (str "Failed to compile shaders")
    end.

(** The browser runs the callbacks registered for a frame: every pending
    registration of [animate] is taken off the list and called, at the
    time [now]. *)
Definition runFrame (now : Z) : M unit :=
  fun w =>
    let pending := frameRequests w in
    let w0 :=
      {| objects := objects w; nextHandle := nextHandle w;
         arrayBuffer := arrayBuffer w; calls := calls w;
         frameRequests := []; nextRequest := nextRequest w;
         clock := now; errorState := errorState w; glRef := glRef w;
         programRef := programRef w; animationRef := animationRef w;
         startTimeRef := startTimeRef w;
         vertexCountRef := vertexCountRef w |} in
    fold_left (fun acc _ => acc ;;; animate) pending (ret tt) w0.

(** Lines 857-863: the cleanup of the effect, run when the component is
    unmounted. *)
Definition unmount : M unit :=
  w <- get ;;
  if negb (animationRef w =? 0)%nat
  then cancelAnimationFrame (animationRef w)
  else ret tt.

End Component.

End Pipeline.

(** ** Symbolic numbers

    The free interpretation of [JsNumber]: a number is the expression that
    computes it.  It is the interpretation used to run the component on
    concrete inputs. *)

Inductive expr : Type :=
| ELit (q : Q)
| EPi
| ECos (e : expr)
| ESin (e : expr)
| ETan (e : expr)
| ENeg (e : expr)
| EAdd (a b : expr)
| ESub (a b : expr)
| EMul (a b : expr)
| EDiv (a b : expr)
| EUndefined.

#[export] Instance expr_number : JsNumber expr := {|
  lit := ELit; Math_PI := EPi; Math_cos := ECos; Math_sin := ESin;
  Math_tan := ETan; neg := ENeg; add := EAdd; sub := ESub; mul := EMul;
  div := EDiv; undefined := EUndefined |}.

(** ** Specification vocabulary *)

(** [p] occurs in [s]. *)
Definition present (p s : jsstring) : Prop :=
  exists pre post, s = pre ++ p ++ post.

(** The failure the specification calls [MissingMarker]: one of the two
    errors of the extractors. *)
Definition missingMarker {A} (r : result A) : Prop :=
  r = Throw markersError \/ r = Throw fragmentMarkerError.

(** The five recognized geometry types, with the name that selects each. *)
Inductive GeometrySpec : Type := Cube | Sphere | Plane | Cylinder | Torus.

Definition geometryName (g : GeometrySpec) : jsstring :=
  match g with
  | Cube => str "cube"
  | Sphere => str "sphere"
  | Plane => str "plane"
  | Cylinder => str "cylinder"
  | Torus => str "torus"
  end.

(** The number of vertices of each type, at its default parameters. *)
Definition vertexCount (g : GeometrySpec) : nat :=
  match g with
  | Cube => 36
  | Sphere => 2280
  | Plane => 6
  | Cylinder => 96
  | Torus => 1536
  end.

(** A row of the sphere walk pushes one triangle for each cell of the
    first and of the last row, two for each cell of the others. *)
Definition sphereRowTriangles (heightSegments i : nat) : nat :=
  ((if negb (Z.of_nat i =? 0)%Z then 1 else 0)
   + (if negb (Z.of_nat i =? Z.of_nat heightSegments - 1)%Z then 1 else 0))%nat.

(** The length of the array the sphere walk returns: nine numbers for
    each triangle. *)
Definition sphereNumberCount (widthSegments heightSegments : nat) : nat :=
  fold_right (fun i acc =>
                widthSegments * (9 * sphereRowTriangles heightSegments i)
                + acc)%nat
             0%nat (seq 0 heightSegments).

(** A name that selects one of the five types, whatever its case. *)
Definition recognized (type : jsstring) : Prop :=
  exists g, toLowerCase type = geometryName g.

(** *** The object table across a call

    [keeps w0 w]: every handle that [w0] had given out still denotes in
    [w] the object it denoted in [w0], and [w] has given out no handle
    that it does not know. *)
Definition keeps {F : Type} (w0 w : Pipeline.World (F:=F)) : Prop :=
  (Pipeline.nextHandle w0 <= Pipeline.nextHandle w)%nat
  /\ (forall h : nat, (h < Pipeline.nextHandle w0)%nat ->
        Pipeline.objects w !! h = Pipeline.objects w0 !! h)
  /\ (forall h : nat, (Pipeline.nextHandle w <= h)%nat ->
        Pipeline.objects w !! h = None).

(** The handles of a world are the ones it has given out. *)
Definition wellFormed {F : Type} (w : Pipeline.World (F:=F)) : Prop :=
  forall h : nat, (Pipeline.nextHandle w <= h)%nat ->
    Pipeline.objects w !! h = None.

Definition isProgram {F : Type} (o : option (Pipeline.glObject (F:=F)))
  : Prop :=
  exists attached linked, o = Some (Pipeline.ProgramObject attached linked).

(** A call preserves the table when it keeps every world it is run in. *)
Definition preserves {F A : Type} (m : Pipeline.M (F:=F) A) : Prop :=
  forall w : Pipeline.World (F:=F), wellFormed w -> keeps w (m w).2.

(** A call that leaves [programRef] as it is. *)
Definition keepsProgramRef {F A : Type} (m : Pipeline.M (F:=F) A) : Prop :=
  forall w : Pipeline.World (F:=F),
    Pipeline.programRef (m w).2 = Pipeline.programRef w.

(** [wp m w Q]: the result and the world that [m] gives in [w] satisfy
    [Q]. *)
Definition wp {F A : Type} (m : Pipeline.M (F:=F) A)
    (w : Pipeline.World (F:=F))
    (Q : result A -> Pipeline.World (F:=F) -> Prop) : Prop :=
  Q (m w).1 (m w).2.

(** The computable form of [wellFormed]. *)
Definition wellFormedb {F : Type} (w : Pipeline.World (F:=F)) : bool :=
  forallb (fun ho : nat * Pipeline.glObject =>
             (ho.1 <? Pipeline.nextHandle w)%nat)
          (map_to_list (Pipeline.objects w)).

(** The handles of the live program objects. *)
Definition livePrograms {F : Type} (w : Pipeline.World (F:=F)) : list nat :=
  omap (fun ho : nat * Pipeline.glObject =>
          match ho.2 with
          | Pipeline.ProgramObject _ _ => Some ho.1
          | _ => None
          end)
       (map_to_list (Pipeline.objects w)).

(** What the specification asks of a second start, after a first start
    from [w0]: the objects of the first pipeline are released, its frame
    callback is cancelled, and one program and one frame callback are
    live. *)
Definition tearsDownPrevious {F : Type} `{JsNumber F} (host : Pipeline.Host)
    (first second : jsstring) (w0 : Pipeline.World (F:=F)) : Prop :=
  let w1 := (Pipeline.renderShader host first w0).2 in
  let w2 := (Pipeline.renderShader host second w1).2 in
  (forall h : nat, is_Some (Pipeline.objects w1 !! h) ->
     Pipeline.objects w2 !! h = None)
  /\ (forall id : nat, In id (Pipeline.frameRequests w1) ->
        ~ In id (Pipeline.frameRequests w2))
  /\ (length (livePrograms w2) <= 1)%nat
  /\ (length (Pipeline.frameRequests w2) <= 1)%nat.

(** ** Concrete inputs *)

(** A browser in which everything can be allocated, a source compiles
    unless it holds the text [bad], and two stages link unless the
    fragment stage holds the text [unlinked]. *)
Definition okHost : Pipeline.Host :=
  {| Pipeline.canvasMounted := true;
     Pipeline.webglSupported := true;
     Pipeline.canvasWidth := 400;
     Pipeline.canvasHeight := 400;
     Pipeline.allocates := fun _ => true;
     Pipeline.compiles := fun _ source => negb (includes source (str "bad"));
     Pipeline.shaderInfoLog := fun _ _ => str "ERROR: syntax error";
     Pipeline.links := fun _ fs => negb (includes fs (str "unlinked"));
     Pipeline.programInfoLog := fun _ _ => str "ERROR: link error";
     Pipeline.attribLocation := fun vs _ name =>
       if includes vs name then 0 else -1;
     Pipeline.uniformDeclared := fun vs fs name =>
       includes vs name || includes fs name |}.

Definition vertexSource : jsstring :=
  str "attribute vec3 position; void main() { gl_Position = vec4(position, 1.0); }".

Definition fragmentSource : jsstring :=
  str "precision mediump float;" ++ nl
  ++ str "void main() { gl_FragColor = vec4(1.0); }".

Definition makeBundle (vertex fragment : jsstring) : jsstring :=
  vertexMarker ++ nl ++ vertex ++ nl ++ fragmentMarker ++ nl ++ fragment.

Definition goodBundle : jsstring := makeBundle vertexSource fragmentSource.

Definition badFragment : jsstring :=
  str "precision mediump float;" ++ nl ++ str "void main() { bad }".

Definition badFragmentBundle : jsstring := makeBundle vertexSource badFragment.

Definition unlinkedFragment : jsstring :=
  str "precision mediump float;" ++ nl ++ str "void main() { unlinked(); }".

Definition unlinkedBundle : jsstring :=
  makeBundle vertexSource unlinkedFragment.

Definition swappedBundle : jsstring :=
  fragmentMarker ++ nl ++ str "void main() {}" ++ nl
  ++ vertexMarker ++ nl ++ str "void main() {}".

Definition startWorld : Pipeline.World (F:=expr) := Pipeline.initialWorld 0.

(** The world after an allocation: the table [objs], and one more handle
    given out. *)
Definition allocated {F : Type} (w : Pipeline.World (F:=F))
    (objs : gmap nat (Pipeline.glObject (F:=F))) : Pipeline.World (F:=F) :=
  {| Pipeline.objects := objs;
     Pipeline.nextHandle := S (Pipeline.nextHandle w);
     Pipeline.arrayBuffer := Pipeline.arrayBuffer w;
     Pipeline.calls := Pipeline.calls w;
     Pipeline.frameRequests := Pipeline.frameRequests w;
     Pipeline.nextRequest := Pipeline.nextRequest w;
     Pipeline.clock := Pipeline.clock w;
     Pipeline.errorState := Pipeline.errorState w;
     Pipeline.glRef := Pipeline.glRef w;
     Pipeline.programRef := Pipeline.programRef w;
     Pipeline.animationRef := Pipeline.animationRef w;
     Pipeline.startTimeRef := Pipeline.startTimeRef w;
     Pipeline.vertexCountRef := Pipeline.vertexCountRef w |}.

(** The world after a first start, and after a second one. *)
Definition firstWorld : Pipeline.World (F:=expr) :=
  (Pipeline.renderShader okHost goodBundle startWorld).2.

Definition secondWorld : Pipeline.World (F:=expr) :=
  (Pipeline.renderShader okHost goodBundle firstWorld).2.

(** *** Shapes of texts *)

(** [s] is empty or starts with a character outside the class [p]. *)
Definition stops (p : ascii -> bool) (s : jsstring) : bool :=
  match s with
  | [] => true
  | c :: _ => negb (p c)
  end.

(** [s] has no white space at either end: [trim] leaves it as it is. *)
Definition trimmed (s : jsstring) : bool :=
  stops isSpace s && stops isSpace (rev s).

(** A precision statement, as [precisionRe] reads it: the word
    [precision], white space, a word, white space, the word [float],
    optional white space and a semicolon. *)
Definition isStatement (m : jsstring) : Prop :=
  exists ws1 w ws2 ws3 : jsstring,
    m = str "precision" ++ ws1 ++ w ++ ws2 ++ str "float" ++ ws3 ++ str ";"
    /\ ws1 <> [] /\ forallb isSpace ws1 = true
    /\ w <> [] /\ forallb isWord w = true
    /\ ws2 <> [] /\ forallb isSpace ws2 = true
    /\ forallb isSpace ws3 = true.

(** The rest of a pattern cannot start with a character of the class [p]. *)
Definition rejects (r : list atom) (p : ascii -> bool) : Prop :=
  forall (c : ascii) (s : jsstring), p c = true -> matchAtoms r (c :: s) = None.

(** No line feed occurs in [s]. *)
Definition singleLine (s : jsstring) : bool :=
  forallb (fun c => negb (ascii_eqb c LF)) s.

(** The text of [uniformDeclarations], from the four tests. *)
Definition declsOf (needsTime needsResolution needsVNormal needsVPosition
                    : bool) : jsstring :=
  (if needsTime then timeDecl ++ nl else [])
  ++ (if needsResolution then resolutionDecl ++ nl else [])
  ++ (if needsVNormal then vNormalDecl ++ nl else [])
  ++ (if needsVPosition then vPositionDecl ++ nl else []).

Definition isEmpty (s : jsstring) : bool :=
  match s with
  | [] => true
  | _ :: _ => false
  end.

(** The sources on which a second run of [fixShaderIssues] changes
    nothing (see the theorem): the sources in which no precision statement
    occurs, and those whose first precision statement stands on one line
    and either is not the whole trimmed text or queues no declaration. *)
Definition regularSource (x : jsstring) : bool :=
  let t := trim x in
  match regexMatch precisionRe t with
  | Some precisionStatement =>
      singleLine precisionStatement
      && (negb (isEmpty (trim (replace t precisionStatement [])))
          || isEmpty (uniformDeclarations (ensurePrecision t)))
  | None => true
  end.

(** A source that already is what the normalizer produces, as the
    specification words it: a precision statement at the top, and no
    declaration to queue. *)
Definition alreadyNormalized (x : jsstring) : Prop :=
  (exists precisionStatement,
      matchAt precisionRe x = Some precisionStatement)
  /\ uniformDeclarations x = [].

(** *** Sources for the normalizer *)

Definition statementOnlySource : jsstring := str "precision time float;".

Definition blankLineSource : jsstring :=
  str "precision mediump float;" ++ nl ++ nl ++ str "void main() {}".

Definition commentSource : jsstring :=
  str "// full precision noise" ++ nl
  ++ str "void main() { gl_FragColor = vec4(1.0); }".

Definition twoLineStatementSource : jsstring :=
  str "precision" ++ nl ++ str "mediump float;" ++ nl
  ++ str "void main() { gl_FragColor = vec4(time); }".

Definition plainSource : jsstring :=
  str "void main() { gl_FragColor = vec4(vNormal * time, 1.0); }".

Definition movedStatementSource : jsstring :=
  str "uniform float time;" ++ nl ++ str "precision highp float;" ++ nl
  ++ str "void main() { gl_FragColor = vec4(time); }".

(** A precision statement occurs in [s]. *)
Definition hasStatement (s : jsstring) : Prop :=
  exists pre m post, s = pre ++ m ++ post /\ isStatement m.

(** What is left of [precisionRe] after a line feed met in its first, its
    second and its third run of white space. *)
Definition afterFirstSpace : list atom :=
  [AStar isSpace; APlus isWord; APlus isSpace; ALit (str "float");
   AStar isSpace; ALit (str ";")].
Definition afterSecondSpace : list atom :=
  [AStar isSpace; ALit (str "float"); AStar isSpace; ALit (str ";")].
Definition afterThirdSpace : list atom :=
  [AStar isSpace; ALit (str ";")].

Definition twoStatementsSource : jsstring :=
  str "precision" ++ nl ++ str "mediump float;" ++ nl
  ++ str "precision highp float;" ++ nl
  ++ str "void main() { gl_FragColor = vec4(resolution, 0.0, 1.0); }".

(** ** The request for a shader and the error panel

    [generateShader] (lines 21-72) asks the backend for a bundle and hands
    it to [renderShader]; the error panel (lines 964-980) shows what it
    left in the [error] state.  The React state [error] is the field
    [errorState] of [World]; [ViewState] holds the three other states of
    lines 10-13. *)

Module Generator.
Import Pipeline.

(** [ShaderResponse], lines 3-7: a missing field is [None]. *)
Module Response.
Record ShaderResponse : Type := {
  success : bool;
  shaderCode : option jsstring;
  error : option jsstring
}.
End Response.

Record ViewState : Type := {
  description : jsstring;
  shaderCode : jsstring;
  isLoading : bool
}.

(** A string or [undefined] as a condition: [undefined] and the empty
    string are falsy. *)
Definition truthy (s : option jsstring) : option jsstring :=
  match s with
  | Some (c :: s') => Some (c :: s')
  | _ => None
  end.

Definition descriptionError : jsstring := str "Please enter a description".
Definition generationError : jsstring := str "Failed to generate shader".
Definition backendError : jsstring :=
  str "Failed to connect to backend. Make sure the Elixir server is running on port 4000.".

(** The template string of lines 54-58; every error the component throws
    is an [Error], so the message is always the one of the error. *)
Definition renderErrorMessage (message : jsstring) : jsstring :=
  str "Shader compilation failed: " ++ message
  ++ str ". The raw shader code is displayed below.".

Section Component.
Context {F : Type} `{JsNumber F}.
Variable host : Host.

(** What [fetch] and [response.json()] give for a request body with the
    description [d]: the parsed response, or [None] when either of them
    rejects. *)
Variable backend : jsstring -> option Response.ShaderResponse.

(** Lines 22-29: up to the request.  The first component is the
    description sent, [None] when no request is made. *)
Definition beginRequest (v : ViewState) (w : World (F:=F))
  : option jsstring * ViewState * World (F:=F) :=
  if isEmpty (trim (description v)) then
    (None, v, (setError descriptionError w).2)
  else
    (Some (trim (description v)),
     {| description := description v; shaderCode := []; isLoading := true |},
     (setError [] w).2).

(** Lines 44-71: from the response to the end of the [finally] block. *)
Definition completeRequest (fetched : option Response.ShaderResponse)
    (v : ViewState) (w : World (F:=F)) : ViewState * World (F:=F) :=
  let finished code :=
    {| description := description v; shaderCode := code;
       isLoading := false |} in
  match fetched with
  | None => (finished (shaderCode v), (setError backendError w).2)
  | Some data =>
      match Response.success data, truthy (Response.shaderCode data) with
      | true, Some code =>
          match renderShader host code w with
          | (Ok _, w') => (finished code, w')
          | (Throw message, w') =>
              (finished code, (setError (renderErrorMessage message) w').2)
          end
      | _, _ =>
          (finished (shaderCode v),
           (setError (match truthy (Response.error data) with
                      | Some e => e
                      | None => generationError
                      end) w).2)
      end
  end.

Definition generateShader (v : ViewState) (w : World (F:=F))
  : ViewState * World (F:=F) :=
  match beginRequest v w with
  | (None, v', w') => (v', w')
  | (Some d, v', w') => completeRequest (backend d) v' w'
  end.

End Component.

(** Lines 964-980: the heading of the error panel, [None] when the panel
    is not rendered. *)
Definition errorHeading (error : jsstring) : option jsstring :=
  if isEmpty error then None
  else if includes error (str "compilation failed")
       then Some (str "Shader Compilation Error:")
       else Some (str "Error:").

End Generator.

(** ** More vocabulary *)

(** No proper suffix of [p] is a prefix of [p]: an occurrence of [p]
    cannot overlap another one. *)
Definition unbordered (p : jsstring) : bool :=
  forallb (fun k => negb (startsWith (drop k p) p)) (seq 1 (length p - 1)).

Definition geometryTag : jsstring := str "// GEOMETRY:".

(** The frames the browser runs one after the other, at the given times. *)
Fixpoint runFrames {F : Type} `{JsNumber F} (host : Pipeline.Host)
    (times : list Z) : Pipeline.M (F:=F) unit :=
  match times with
  | [] => Pipeline.ret tt
  | now :: times' =>
      Pipeline.bind (Pipeline.runFrame host now)
                    (fun _ => runFrames host times')
  end.

Definition isDraw {F : Type} (c : Pipeline.glCall (F:=F)) : bool :=
  match c with
  | Pipeline.DrawArrays _ _ => true
  | _ => false
  end.

(** A backend that answers every request with the bundle [code]. *)
Definition answers (code : jsstring)
  : jsstring -> option Generator.Response.ShaderResponse :=
  fun _ => Some {| Generator.Response.success := true;
                   Generator.Response.shaderCode := Some code;
                   Generator.Response.error := None |}.

Definition startView : Generator.ViewState :=
  {| Generator.description := str "  a glowing sphere ";
     Generator.shaderCode := [];
     Generator.isLoading := false |}.

(** The shape of the world after a frame callback has run in [w] with the
    program [p]: the calls [cs] and one draw call are issued, and one more
    registration of [animate] is pending, its id in [animationRef]. *)
Definition afterFrame {F : Type} (w : Pipeline.World (F:=F)) (p : nat)
    (cs : list (Pipeline.glCall (F:=F))) : Pipeline.World (F:=F) :=
  {| Pipeline.objects := Pipeline.objects w;
     Pipeline.nextHandle := Pipeline.nextHandle w;
     Pipeline.arrayBuffer := Pipeline.arrayBuffer w;
     Pipeline.calls :=
       Pipeline.DrawArrays 0 (Pipeline.vertexCountRef w)
       :: cs ++ Pipeline.calls w;
     Pipeline.frameRequests :=
       Pipeline.frameRequests w ++ [Pipeline.nextRequest w];
     Pipeline.nextRequest := S (Pipeline.nextRequest w);
     Pipeline.clock := Pipeline.clock w;
     Pipeline.errorState := Pipeline.errorState w;
     Pipeline.glRef := true;
     Pipeline.programRef := Some p;
     Pipeline.animationRef := Pipeline.nextRequest w;
     Pipeline.startTimeRef := Pipeline.startTimeRef w;
     Pipeline.vertexCountRef := Pipeline.vertexCountRef w |}.

(** The number of draw calls issued so far. *)
Definition drawCount {F : Type} (w : Pipeline.World (F:=F)) : nat :=
  length (List.filter isDraw (Pipeline.calls w)).

(** A world in which [animate] draws: both refs are set. *)
Definition active {F : Type} (w : Pipeline.World (F:=F)) (p : nat) : Prop :=
  Pipeline.glRef w = true /\ Pipeline.programRef w = Some p.

(** The world after [setupGeometry] has run in [w]: two buffers hold the
    two arrays, the second one is bound, and [vertexCountRef] holds the
    number of vertices. *)
Definition afterSetup {F : Type} (w : Pipeline.World (F:=F))
    (vertices normals : list F) (cs : list (Pipeline.glCall (F:=F)))
  : Pipeline.World (F:=F) :=
  {| Pipeline.objects :=
       <[S (Pipeline.nextHandle w) := Pipeline.BufferObject normals]>
         (<[Pipeline.nextHandle w := Pipeline.BufferObject vertices]>
            (Pipeline.objects w));
     Pipeline.nextHandle := S (S (Pipeline.nextHandle w));
     Pipeline.arrayBuffer := Some (S (Pipeline.nextHandle w));
     Pipeline.calls := cs ++ Pipeline.calls w;
     Pipeline.frameRequests := Pipeline.frameRequests w;
     Pipeline.nextRequest := Pipeline.nextRequest w;
     Pipeline.clock := Pipeline.clock w;
     Pipeline.errorState := Pipeline.errorState w;
     Pipeline.glRef := Pipeline.glRef w;
     Pipeline.programRef := Pipeline.programRef w;
     Pipeline.animationRef := Pipeline.animationRef w;
     Pipeline.startTimeRef := Pipeline.startTimeRef w;
     Pipeline.vertexCountRef := (length vertices / 3)%nat |}.

(** The table after a pipeline has been built from the handle [h] on: two
    shaders, their program, and the two buffers. *)
Definition pipelineObjects {F : Type}
    (objs : gmap nat (Pipeline.glObject (F:=F))) (h : nat)
    (v f : jsstring) (vertices normals : list F)
  : gmap nat (Pipeline.glObject (F:=F)) :=
  <[S (S (S (S h))) := Pipeline.BufferObject normals]>
    (<[S (S (S h)) := Pipeline.BufferObject vertices]>
       (<[S (S h) := Pipeline.ProgramObject [h; S h] (Some (v, f))]>
          (<[S h := Pipeline.ShaderObject Pipeline.FRAGMENT_SHADER f true]>
             (<[h := Pipeline.ShaderObject Pipeline.VERTEX_SHADER v true]>
                objs)))).

(** A browser that cannot allocate any WebGL object. *)
Definition exhaustedHost : Pipeline.Host :=
  {| Pipeline.canvasMounted := true;
     Pipeline.webglSupported := true;
     Pipeline.canvasWidth := 400;
     Pipeline.canvasHeight := 400;
     Pipeline.allocates := fun _ => false;
     Pipeline.compiles := fun _ _ => true;
     Pipeline.shaderInfoLog := fun _ _ => [];
     Pipeline.links := fun _ _ => true;
     Pipeline.programInfoLog := fun _ _ => [];
     Pipeline.attribLocation := fun _ _ _ => 0;
     Pipeline.uniformDeclared := fun _ _ _ => false |}.

(** The world in which the two stages of [goodBundle] are compiled, and
    the one in which the fragment stage is [unlinkedFragment]. *)
Definition compiledWorld (fragment : jsstring) : Pipeline.World (F:=expr) :=
  (Pipeline.bind
     (Pipeline.createShader okHost Pipeline.VERTEX_SHADER vertexSource)
     (fun _ => Pipeline.createShader okHost Pipeline.FRAGMENT_SHADER fragment)
     startWorld).2.

(** A call that returns in every world. *)
Definition returns {F A : Type} (m : Pipeline.M (F:=F) A) : Prop :=
  forall w : Pipeline.World (F:=F), exists a, (m w).1 = Ok a.

(** The world after a successful [renderShader] in [w]: the five objects
    of the pipeline from the handle [nextHandle w] on, the first frame
    drawn, and one registration of [animate] pending. *)
Definition afterRender {F : Type} (w : Pipeline.World (F:=F))
    (v f : jsstring) (vertices normals : list F)
    (cs : list (Pipeline.glCall (F:=F))) : Pipeline.World (F:=F) :=
  {| Pipeline.objects :=
       pipelineObjects (Pipeline.objects w) (Pipeline.nextHandle w) v f
                       vertices normals;
     Pipeline.nextHandle := S (S (S (S (S (Pipeline.nextHandle w)))));
     Pipeline.arrayBuffer := Some (S (S (S (S (Pipeline.nextHandle w)))));
     Pipeline.calls :=
       Pipeline.DrawArrays 0 (length vertices / 3)
       :: cs ++ Pipeline.calls w;
     Pipeline.frameRequests :=
       Pipeline.frameRequests w ++ [Pipeline.nextRequest w];
     Pipeline.nextRequest := S (Pipeline.nextRequest w);
     Pipeline.clock := Pipeline.clock w;
     Pipeline.errorState := Pipeline.errorState w;
     Pipeline.glRef := true;
     Pipeline.programRef := Some (S (S (Pipeline.nextHandle w)));
     Pipeline.animationRef := Pipeline.nextRequest w;
     Pipeline.startTimeRef := Pipeline.clock w;
     Pipeline.vertexCountRef := (length vertices / 3)%nat |}.

(** The host can allocate the five objects of a pipeline from [h] on. *)
Definition allocatesFive (host : Pipeline.Host) (h : nat) : bool :=
  Pipeline.allocates host h && Pipeline.allocates host (S h)
  && Pipeline.allocates host (S (S h))
  && Pipeline.allocates host (S (S (S h)))
  && Pipeline.allocates host (S (S (S (S h)))).

(** A browser in which the canvas is gone: the component is unmounted,
    or the canvas ref is empty. *)
Definition unmountedHost : Pipeline.Host :=
  {| Pipeline.canvasMounted := false;
     Pipeline.webglSupported := true;
     Pipeline.canvasWidth := 400;
     Pipeline.canvasHeight := 400;
     Pipeline.allocates := fun _ => true;
     Pipeline.compiles := fun _ _ => true;
     Pipeline.shaderInfoLog := fun _ _ => [];
     Pipeline.links := fun _ _ => true;
     Pipeline.programInfoLog := fun _ _ => [];
     Pipeline.attribLocation := fun _ _ _ => 0;
     Pipeline.uniformDeclared := fun _ _ _ => false |}.

(** A browser without WebGL. *)
Definition noWebglHost : Pipeline.Host :=
  {| Pipeline.canvasMounted := true;
     Pipeline.webglSupported := false;
     Pipeline.canvasWidth := 400;
     Pipeline.canvasHeight := 400;
     Pipeline.allocates := fun _ => true;
     Pipeline.compiles := fun _ _ => true;
     Pipeline.shaderInfoLog := fun _ _ => [];
     Pipeline.links := fun _ _ => true;
     Pipeline.programInfoLog := fun _ _ => [];
     Pipeline.attribLocation := fun _ _ _ => 0;
     Pipeline.uniformDeclared := fun _ _ _ => false |}.

(** A backend that cannot be reached, and one that answers with a failure
    and the error text [e]. *)
Definition unreachable : jsstring -> option Generator.Response.ShaderResponse :=
  fun _ => None.

Definition refuses (e : option jsstring)
  : jsstring -> option Generator.Response.ShaderResponse :=
  fun _ => Some {| Generator.Response.success := false;
                   Generator.Response.shaderCode := None;
                   Generator.Response.error := e |}.

Definition blankView : Generator.ViewState :=
  {| Generator.description := str "   ";
     Generator.shaderCode := str "// old code";
     Generator.isLoading := false |}.

(** The response carries no code to render: the request failed, the
    backend reports a failure, or the code is missing or empty. *)
Definition carriesNoCode (fetched : option Generator.Response.ShaderResponse)
  : bool :=
  match fetched with
  | None => true
  | Some data =>
      negb (Generator.Response.success data)
      || isEmpty (match Generator.Response.shaderCode data with
                  | Some code => code
                  | None => []
                  end)
  end.

(** The error text shown for a response that carries no code. *)
Definition failureText (fetched : option Generator.Response.ShaderResponse)
  : jsstring :=
  match fetched with
  | None => Generator.backendError
  | Some data =>
      match Generator.Response.error data with
      | Some (c :: e) => c :: e
      | _ => Generator.generationError
      end
  end.

(** A browser that can allocate the handles up to [n] and no more. *)
Definition limitedHost (n : nat) : Pipeline.Host :=
  {| Pipeline.canvasMounted := true;
     Pipeline.webglSupported := true;
     Pipeline.canvasWidth := 400;
     Pipeline.canvasHeight := 400;
     Pipeline.allocates := fun h => (h <=? n)%nat;
     Pipeline.compiles := fun _ _ => true;
     Pipeline.shaderInfoLog := fun _ _ => [];
     Pipeline.links := fun _ _ => true;
     Pipeline.programInfoLog := fun _ _ => [];
     Pipeline.attribLocation := fun _ _ _ => 0;
     Pipeline.uniformDeclared := fun _ _ _ => false |}.
(** ** Facts about the string primitives *)

Section StringFacts.

Lemma ascii_eqb_true (a b : ascii) : ascii_eqb a b = true <-> a = b.
Proof. apply Ascii.eqb_eq. Qed.

Lemma startsWith_spec (p s : jsstring) :
  startsWith p s = true <-> exists r, s = p ++ r.
Proof.
  revert s. induction p as [|a p IH]; intros s; simpl.
  - split; eauto.
  - destruct s as [|b s]; simpl.
    + split; [discriminate | intros [r Hr]; discriminate].
    + rewrite andb_true_iff, ascii_eqb_true, IH. split.
      * intros [-> [r ->]]. eauto.
      * intros [r Hr]. injection Hr as -> ->. eauto.
Qed.

Lemma startsWith_app (p r : jsstring) : startsWith p (p ++ r) = true.
Proof. apply startsWith_spec. eauto. Qed.

(** The result of [indexOf] is [-1] or a position of the string. *)
Lemma indexOfFrom_range (p s : jsstring) (i : Z) :
  0 <= i ->
  indexOfFrom p s i = -1
  \/ i <= indexOfFrom p s i <= i + Z.of_nat (length s).
Proof.
  revert i. induction s as [|c s IH]; intros i Hi; simpl.
  - destruct (startsWith p []); [right; lia | left; reflexivity].
  - destruct (startsWith p (c :: s)); [right; lia |].
    destruct (IH (i + 1)) as [E | E]; [lia | left; exact E | right; lia].
Qed.

(** A position returned by [indexOf] is the first occurrence. *)
Lemma indexOfFrom_found (p s : jsstring) (i k : Z) :
  0 <= i -> indexOfFrom p s i = k -> k <> -1 ->
  exists n : nat,
    k = i + Z.of_nat n /\ (n <= length s)%nat
    /\ startsWith p (drop n s) = true
    /\ forall m : nat, (m < n)%nat -> startsWith p (drop m s) = false.
Proof.
  revert i. induction s as [|c s IH]; intros i Hi E Hk; simpl in E.
  - destruct (startsWith p []) eqn:Hp; [| congruence].
    exists 0%nat. simpl. repeat split; [lia | lia | exact Hp | lia].
  - destruct (startsWith p (c :: s)) eqn:Hp.
    + exists 0%nat. simpl. repeat split; [lia | lia | exact Hp | lia].
    + destruct (IH (i + 1)) as (n & -> & Hn & Hs & Hmin); [lia | exact E | exact Hk |].
      exists (S n). simpl. repeat split; [lia | lia | exact Hs |].
      intros [|m] Hm; simpl; [exact Hp | apply Hmin; lia].
Qed.

Lemma indexOfFrom_absent (p s : jsstring) (i : Z) :
  indexOfFrom p s i = -1 -> 0 <= i -> ~ present p s.
Proof.
  revert i. induction s as [|c s IH]; intros i E Hi (pre & post & Hs); simpl in E.
  - destruct (startsWith p []) eqn:Hp; [lia |].
    destruct pre; [| discriminate]. simpl in Hs.
    rewrite Hs, startsWith_app in Hp. discriminate.
  - destruct (startsWith p (c :: s)) eqn:Hp; [lia |].
    destruct pre as [|a pre]; simpl in Hs.
    + rewrite Hs, startsWith_app in Hp. discriminate.
    + injection Hs as -> ->. apply (IH (i + 1)); [exact E | lia |].
      exists pre, post. reflexivity.
Qed.

Lemma indexOf_absent (s p : jsstring) :
  indexOf s p = -1 <-> ~ present p s.
Proof.
  split.
  - intros E. apply (indexOfFrom_absent p s 0); [exact E | lia].
  - intros Hn. unfold indexOf.
    destruct (Z.eq_dec (indexOfFrom p s 0) (-1)) as [E | E]; [exact E |].
    exfalso. apply Hn.
    destruct (indexOfFrom_found p s 0 _ ltac:(lia) eq_refl E)
      as (n & _ & Hn' & Hs & _).
    apply startsWith_spec in Hs as [r Hr].
    exists (take n s), r. rewrite <- Hr. symmetry. apply take_drop.
Qed.

Lemma includes_present (s p : jsstring) :
  includes s p = true <-> present p s.
Proof.
  unfold includes. rewrite negb_true_iff, Z.eqb_neq, indexOf_absent.
  split; [| tauto]. intros H.
  destruct (Z.eq_dec (indexOf s p) (-1)) as [E | E].
  - apply indexOf_absent in E. tauto.
  - destruct (indexOfFrom_found p s 0 _ ltac:(lia) eq_refl E)
      as (n & _ & Hn' & Hs & _).
    apply startsWith_spec in Hs as [r Hr].
    exists (take n s), r. rewrite <- Hr. symmetry. apply take_drop.
Qed.

Lemma includes_absent (s p : jsstring) :
  includes s p = false <-> ~ present p s.
Proof.
  rewrite <- includes_present. destruct (includes s p); split; congruence.
Qed.

(** What [indexOf] returns when it finds the pattern. *)
Lemma indexOf_found (s p : jsstring) (k : Z) :
  indexOf s p = k -> k <> -1 ->
  exists n : nat,
    k = Z.of_nat n /\ (n <= length s)%nat
    /\ (exists r, drop n s = p ++ r)
    /\ forall m : nat, (m < n)%nat -> startsWith p (drop m s) = false.
Proof.
  intros E Hk.
  destruct (indexOfFrom_found p s 0 k ltac:(lia) E Hk) as (n & -> & Hn & Hs & Hmin).
  exists n. repeat split; [lia | | exact Hmin].
  apply startsWith_spec. exact Hs.
Qed.

End StringFacts.
(** ** The extractors *)

Section ExtractFacts.

Lemma indexOf_eqb_includes (s p : jsstring) :
  (indexOf s p =? -1) = negb (includes s p).
Proof. unfold includes. rewrite negb_involutive. reflexivity. Qed.

Lemma extractVertexShader_ok (code : jsstring) :
  (exists v, extractVertexShader code = Ok v)
  <-> present vertexMarker code /\ present fragmentMarker code.
Proof.
  unfold extractVertexShader. rewrite <- !includes_present.
  rewrite !indexOf_eqb_includes.
  destruct (includes code vertexMarker), (includes code fragmentMarker);
    simpl; split; try (intros [v Hv]; discriminate);
    try (intros [? ?]; discriminate); eauto.
Qed.

Lemma extractFragmentShader_ok (code : jsstring) :
  (exists f, extractFragmentShader code = Ok f)
  <-> present fragmentMarker code.
Proof.
  unfold extractFragmentShader. rewrite <- includes_present.
  rewrite indexOf_eqb_includes.
  destruct (includes code fragmentMarker); simpl; split;
    try (intros [v Hv]; discriminate); try discriminate; eauto.
Qed.

(** C6. [parseBundle] (the [split] of the specification) fails with
    [MissingMarker] if and only if one of the two section markers does not
    occur in the bundle, and it returns the two sources if and only if both
    markers occur. *)
Theorem split_fails_iff_marker_absent (code : jsstring) :
  (missingMarker (parseBundle code)
   <-> ~ present vertexMarker code \/ ~ present fragmentMarker code)
  /\ ((exists g v f, parseBundle code = Ok (g, v, f)
                     /\ extractVertexShader code = Ok v
                     /\ extractFragmentShader code = Ok f)
      <-> present vertexMarker code /\ present fragmentMarker code).
Proof.
  pose proof (extractVertexShader_ok code) as Hv.
  pose proof (extractFragmentShader_ok code) as Hf.
  unfold parseBundle, missingMarker.
  destruct (extractVertexShader code) as [v | msg] eqn:Ev.
  - assert (Hp : present vertexMarker code /\ present fragmentMarker code)
      by (apply Hv; eauto).
    destruct (extractFragmentShader code) as [f | msg] eqn:Ef.
    + split; split.
      * intros [? | ?]; discriminate.
      * tauto.
      * intros _. exact Hp.
      * intros _. eauto 10.
    + exfalso. destruct Hf as [_ Hf]. destruct (Hf (proj2 Hp)). discriminate.
  - assert (Hn : ~ (present vertexMarker code /\ present fragmentMarker code)).
    { intros Hp. apply Hv in Hp as [v ?]. discriminate. }
    assert (Hmsg : msg = markersError).
    { unfold extractVertexShader in Ev.
      destruct (_ || _); congruence. }
    subst msg. split; split.
    + intros _.
      destruct (includes code vertexMarker) eqn:E1.
      * right. intros H2. apply Hn. split; [| exact H2].
        apply includes_present. exact E1.
      * left. apply includes_absent. exact E1.
    + intros _. left. reflexivity.
    + intros (g & v & f & ? & ?). discriminate.
    + tauto.
Qed.

(** The text between two positions of a string holds no occurrence of a
    pattern that does not occur before the second position. *)
Lemma substring_before_first (code p : jsstring) (f v : nat) :
  p <> [] -> (f <= v <= length code)%nat ->
  (forall m : nat, (m < v)%nat -> startsWith p (drop m code) = false) ->
  ~ present p (take (v - f) (drop f code)).
Proof.
  intros Hp Hfv Hmin (pre & post & E).
  assert (Hlen : (length pre + length p + length post = v - f)%nat).
  { rewrite <- !length_app, <- app_assoc, <- E.
    rewrite length_take, length_drop. lia. }
  assert (Hpos : (0 < length p)%nat) by (destruct p; simpl; [congruence | lia]).
  specialize (Hmin (f + length pre)%nat ltac:(lia)).
  assert (Hs : startsWith p (drop (f + length pre) code) = true).
  { apply startsWith_spec.
    exists (post ++ drop (v - f) (drop f code)).
    rewrite <- drop_drop.
    rewrite <- (take_drop (v - f) (drop f code)) at 1.
    rewrite E. rewrite <- !app_assoc.
    rewrite drop_app_length. reflexivity. }
  congruence.
Qed.

Lemma replace_absent (s p r : jsstring) :
  ~ present p s -> replace s p r = s.
Proof.
  intros H. apply indexOf_absent in H. unfold replace. rewrite H. reflexivity.
Qed.

Lemma substring_swapped (code : jsstring) (f v : nat) :
  (f <= v <= length code)%nat ->
  substring code (Z.of_nat v) (Z.of_nat f) = take (v - f) (drop f code).
Proof.
  intros H. unfold substring, clamp.
  replace (Z.to_nat (Z.min (Z.max (Z.of_nat v) 0) (Z.of_nat (length code))))
    with v by lia.
  replace (Z.to_nat (Z.min (Z.max (Z.of_nat f) 0) (Z.of_nat (length code))))
    with f by lia.
  rewrite Nat.min_r, Nat.max_l by lia. reflexivity.
Qed.

(** C10. When both markers occur and the first ["// Fragment Shader"] lies
    before the first ["// Vertex Shader"], no extractor throws:
    [extractVertexShader] returns the trimmed text that lies between the
    two marker positions ([substring] swaps its arguments), from which
    [replace] has nothing to remove, and [extractFragmentShader] returns
    too. *)
Theorem out_of_order_bundle_accepted (code : jsstring) (f v : nat) :
  indexOf code fragmentMarker = Z.of_nat f ->
  indexOf code vertexMarker = Z.of_nat v ->
  (f < v)%nat ->
  extractVertexShader code
  = Ok (trim (replace (take (v - f) (drop f code)) vertexMarker []))
  /\ extractVertexShader code = Ok (trim (take (v - f) (drop f code)))
  /\ (exists fs, extractFragmentShader code = Ok fs)
  /\ (exists g vs fs, parseBundle code = Ok (g, vs, fs)).
Proof.
  intros Hf Hv Hlt.
  destruct (indexOf_found code vertexMarker _ Hv ltac:(lia))
    as (n & Hn & Hlen & _ & Hmin).
  assert (n = v) by lia. subst n.
  assert (Hsub : extractVertexShader code
                 = Ok (trim (replace (take (v - f) (drop f code))
                                     vertexMarker []))).
  { unfold extractVertexShader. rewrite Hf, Hv.
    replace (Z.of_nat v =? -1) with false by (symmetry; apply Z.eqb_neq; lia).
    replace (Z.of_nat f =? -1) with false by (symmetry; apply Z.eqb_neq; lia).
    simpl. rewrite substring_swapped by lia. reflexivity. }
  assert (Hfs : exists fs, extractFragmentShader code = Ok fs).
  { unfold extractFragmentShader. rewrite Hf.
    replace (Z.of_nat f =? -1) with false by (symmetry; apply Z.eqb_neq; lia).
    eauto. }
  split; [exact Hsub |]. split; [| split; [exact Hfs |]].
  - rewrite Hsub, replace_absent; [reflexivity |].
    apply substring_before_first; [discriminate | lia | exact Hmin].
  - destruct Hfs as [fs Hfs]. unfold parseBundle. rewrite Hsub, Hfs. eauto.
Qed.

End ExtractFacts.

Lemma out_of_order_bundle_accepted_witness :
  extractVertexShader swappedBundle
  = Ok (trim (replace (take (34 - 0) (drop 0 swappedBundle)) vertexMarker []))
  /\ extractVertexShader swappedBundle
     = Ok (trim (take (34 - 0) (drop 0 swappedBundle)))
  /\ (exists fs, extractFragmentShader swappedBundle = Ok fs)
  /\ (exists g vs fs, parseBundle swappedBundle = Ok (g, vs, fs)).
Proof.
  apply (out_of_order_bundle_accepted swappedBundle 0 34);
    [vm_compute; reflexivity | vm_compute; reflexivity | lia].
Defined.

(** The vertex source extracted from the out-of-order bundle is the
    fragment section, marker included. *)
Example out_of_order_vertex_source :
  extractVertexShader swappedBundle
  = Ok (fragmentMarker ++ nl ++ str "void main() {}").
Proof. vm_compute. reflexivity. Qed.

(** ** The geometry generator *)

Module GeometryFacts.
Import Geometry.

(** Evaluation of the [switch] on a literal name. *)
Ltac eval_switch :=
  repeat match goal with
         | |- context [toLowerCase ?t] =>
             let v := eval vm_compute in (toLowerCase t) in
             change (toLowerCase t) with v
         end;
  repeat match goal with
         | |- context [streq ?a ?b] =>
             let v := eval vm_compute in (streq a b) in
             change (streq a b) with v
         end;
  cbv iota.

Section Lengths.
Context {F : Type} `{JsNumber F}.

Lemma length_forUpTo (n k : nat) (body : nat -> list F) :
  (forall i, length (body i) = k) ->
  length (forUpTo n body) = (n * k)%nat.
Proof.
  intros Hbody. unfold forUpTo. generalize 0%nat.
  induction n as [|n IH]; intros start; simpl; [reflexivity |].
  rewrite length_app, Hbody, IH. reflexivity.
Qed.

Lemma length_pushVertex (arr : list F) (a : nat) :
  length (pushVertex arr a) = 3%nat.
Proof. reflexivity. Qed.

(** The cylinder walk pushes two triangles for each segment. *)
Lemma length_cylinderTriangles (vertices : list F) (segments : nat) :
  length (cylinderTriangles vertices segments) = (segments * 18)%nat.
Proof.
  unfold cylinderTriangles. apply length_forUpTo. intros i.
  rewrite !length_app, !length_pushVertex. reflexivity.
Qed.

(** The torus walk pushes two triangles for each cell. *)
Lemma length_torusTriangles (vertices : list F)
    (majorSegments minorSegments : nat) :
  length (torusTriangles vertices majorSegments minorSegments)
  = (majorSegments * (minorSegments * 18))%nat.
Proof.
  unfold torusTriangles. apply length_forUpTo. intros i.
  apply length_forUpTo. intros j.
  rewrite !length_app, !length_pushVertex. reflexivity.
Qed.

Lemma length_flat_map_rows (f : nat -> list F) (g : nat -> nat)
    (rows : list nat) :
  (forall i, length (f i) = g i) ->
  length (flat_map f rows) = fold_right (fun i acc => g i + acc)%nat 0%nat rows.
Proof.
  intros Hf. induction rows as [|i rows IH]; simpl; [reflexivity |].
  rewrite length_app, Hf, IH. reflexivity.
Qed.

Lemma length_sphereTriangles (vertices : list F)
    (widthSegments heightSegments : nat) :
  length (sphereTriangles vertices widthSegments heightSegments)
  = sphereNumberCount widthSegments heightSegments.
Proof.
  unfold sphereTriangles, sphereNumberCount, forUpTo.
  apply length_flat_map_rows. intros i.
  apply (length_forUpTo widthSegments
           (9 * sphereRowTriangles heightSegments i)).
  intros j. unfold sphereRowTriangles.
  destruct (negb (Z.of_nat i =? 0)),
           (negb (Z.of_nat i =? Z.of_nat heightSegments - 1));
    rewrite ?length_app, ?length_pushVertex; reflexivity.
Qed.

Lemma length_generateSphere (radius : F) (w h : nat) :
  length (generateSphere radius w h) = sphereNumberCount w h.
Proof. apply length_sphereTriangles. Qed.

Lemma length_generateSphereNormals (radius : F) (w h : nat) :
  length (generateSphereNormals radius w h)
  = sphereNumberCount w h.
Proof. apply length_sphereTriangles. Qed.

Lemma getGeometryVertices_name (g : GeometrySpec) :
  getGeometryVertices (geometryName g)
  = match g with
    | Cube => map int cubeVerticesLit
    | Sphere => generateSphere (int 1) 20 20
    | Plane => map int planeVerticesLit
    | Cylinder => generateCylinder (int 1) (int 2) 16
    | Torus => generateTorus (lit (6 # 10)%Q) (lit (3 # 10)%Q) 16 16
    end.
Proof.
  destruct g; unfold getGeometryVertices, geometryName; eval_switch;
    reflexivity.
Qed.

Lemma getGeometryNormals_name (g : GeometrySpec) :
  getGeometryNormals (geometryName g)
  = match g with
    | Cube => map int cubeNormalsLit
    | Sphere => generateSphereNormals (int 1) 20 20
    | Plane => map int planeNormalsLit
    | Cylinder => generateCylinderNormals (int 1) (int 2) 16
    | Torus => generateTorusNormals (lit (6 # 10)%Q) (lit (3 # 10)%Q) 16 16
    end.
Proof.
  destruct g; unfold getGeometryNormals, geometryName; eval_switch;
    reflexivity.
Qed.

Lemma length_getGeometryVertices (g : GeometrySpec) :
  length (getGeometryVertices (geometryName g)) = (3 * vertexCount g)%nat.
Proof.
  rewrite getGeometryVertices_name. destruct g.
  - reflexivity.
  - rewrite length_generateSphere. reflexivity.
  - reflexivity.
  - unfold generateCylinder. rewrite length_cylinderTriangles. reflexivity.
  - unfold generateTorus. rewrite length_torusTriangles. reflexivity.
Qed.

Lemma length_getGeometryNormals (g : GeometrySpec) :
  length (getGeometryNormals (geometryName g)) = (3 * vertexCount g)%nat.
Proof.
  rewrite getGeometryNormals_name. destruct g.
  - reflexivity.
  - rewrite length_generateSphereNormals. reflexivity.
  - reflexivity.
  - unfold generateCylinderNormals. rewrite length_cylinderTriangles.
    reflexivity.
  - unfold generateTorusNormals. rewrite length_torusTriangles. reflexivity.
Qed.

(** C7. For each of the five geometry types the vertices list and the
    normals list have the same length, three numbers for each vertex, and
    the number of vertices is a non-zero multiple of 3. *)
Theorem buffers_equal_length_triangle_list (g : GeometrySpec) :
  length (getGeometryVertices (geometryName g))
  = length (getGeometryNormals (geometryName g))
  /\ length (getGeometryVertices (geometryName g)) = (3 * vertexCount g)%nat
  /\ (vertexCount g mod 3 = 0)%nat
  /\ (0 < vertexCount g)%nat.
Proof.
  rewrite length_getGeometryVertices, length_getGeometryNormals.
  destruct g; simpl; repeat split; lia.
Qed.

Lemma streq_false (a b : jsstring) : a <> b -> streq a b = false.
Proof. intros Hne. unfold streq. apply bool_decide_eq_false. exact Hne. Qed.

Lemma streq_refl (a : jsstring) : streq a a = true.
Proof. unfold streq. apply bool_decide_eq_true. reflexivity. Qed.

(** C8. A name that is none of the five recognized ones, whatever its
    case, gives the buffers of the cube: the [default] arrays of the two
    switches are the arrays of their ["cube"] case.  The generator is a
    total function, so no name makes it fail. *)
Theorem unrecognized_name_falls_back_to_cube (type : jsstring) :
  ~ recognized type ->
  getGeometryVertices type = getGeometryVertices (geometryName Cube)
  /\ getGeometryNormals type = getGeometryNormals (geometryName Cube).
Proof.
  intros Hn.
  assert (Hne : forall g, toLowerCase type <> geometryName g).
  { intros g E. apply Hn. exists g. exact E. }
  rewrite getGeometryVertices_name, getGeometryNormals_name.
  unfold getGeometryVertices, getGeometryNormals.
  assert (E1 : streq (toLowerCase type) (str "cube") = false)
    by apply streq_false, (Hne Cube).
  assert (E2 : streq (toLowerCase type) (str "sphere") = false)
    by apply streq_false, (Hne Sphere).
  assert (E3 : streq (toLowerCase type) (str "plane") = false)
    by apply streq_false, (Hne Plane).
  assert (E4 : streq (toLowerCase type) (str "cylinder") = false)
    by apply streq_false, (Hne Cylinder).
  assert (E5 : streq (toLowerCase type) (str "torus") = false)
    by apply streq_false, (Hne Torus).
  rewrite E1, E2, E3, E4, E5.
  split; reflexivity.
Qed.

End Lengths.

Lemma unrecognized_name_falls_back_to_cube_witness :
  getGeometryVertices (F:=expr) (str "pyramid")
  = getGeometryVertices (geometryName Cube)
  /\ getGeometryNormals (F:=expr) (str "pyramid")
     = getGeometryNormals (geometryName Cube).
Proof.
  apply (unrecognized_name_falls_back_to_cube (str "pyramid")).
  intros [g E]. destruct g; vm_compute in E; discriminate.
Defined.

(** Matching is case-insensitive: an upper-case name is recognized. *)
Example upper_case_name_recognized :
  recognized (str "SPHERE")
  /\ getGeometryVertices (F:=expr) (str "SPHERE")
     = getGeometryVertices (geometryName Sphere).
Proof.
  split; [exists Sphere; vm_compute; reflexivity |].
  unfold getGeometryVertices, geometryName. eval_switch. reflexivity.
Qed.

End GeometryFacts.
(** ** The WebGL pipeline *)

Module PipelineFacts.
Import Pipeline.

Section Keeps.
Context {F : Type} `{JsNumber F}.
Variable host : Host.

Abbreviation World := (World (F:=F)).
Abbreviation M := (M (F:=F)).
Abbreviation preserves := (preserves (F:=F)).
Abbreviation keepsProgramRef := (keepsProgramRef (F:=F)).
Abbreviation wp := (wp (F:=F)).

Lemma keeps_refl (w : World) : wellFormed w -> keeps w w.
Proof. intros Hwf. split; [lia | split; [reflexivity | exact Hwf]]. Qed.

Lemma keeps_trans (w0 w1 w2 : World) :
  keeps w0 w1 -> keeps w1 w2 -> keeps w0 w2.
Proof.
  intros (Hn1 & Hold1 & Hwf1) (Hn2 & Hold2 & Hwf2).
  split; [lia | split; [| exact Hwf2]].
  intros h Hh. rewrite Hold2 by lia. apply Hold1, Hh.
Qed.

Lemma keeps_wellFormed (w0 w : World) : keeps w0 w -> wellFormed w.
Proof. intros (_ & _ & Hwf). exact Hwf. Qed.

Lemma preserves_bind {A B} (m : M A) (k : A -> M B) :
  preserves m -> (forall a, preserves (k a)) -> preserves (bind m k).
Proof.
  intros Hm Hk w Hwf. unfold bind. specialize (Hm w Hwf).
  destruct (m w) as [[a | msg] w']; simpl in *; [| exact Hm].
  eapply keeps_trans; [exact Hm |]. apply Hk. eapply keeps_wellFormed, Hm.
Qed.

Lemma preserves_ret {A} (a : A) : preserves (ret a).
Proof. intros w Hwf. apply keeps_refl, Hwf. Qed.

Lemma preserves_throw {A} (msg : jsstring) : preserves (throw (A:=A) msg).
Proof. intros w Hwf. apply keeps_refl, Hwf. Qed.

Lemma preserves_liftResult {A} (r : result A) : preserves (liftResult r).
Proof. intros w Hwf. apply keeps_refl, Hwf. Qed.

Lemma preserves_get : preserves get.
Proof. intros w Hwf. apply keeps_refl, Hwf. Qed.

(** A change of the world that leaves the table and the handle counter
    alone. *)
Lemma preserves_modify (f : World -> World) :
  (forall w, objects (f w) = objects w /\ nextHandle (f w) = nextHandle w) ->
  preserves (modify f).
Proof.
  intros Hf w Hwf. unfold modify. simpl. destruct (Hf w) as [Ho Hn].
  split; [lia | split].
  - intros h _. rewrite Ho. reflexivity.
  - intros h Hh. rewrite Ho. apply Hwf. lia.
Qed.

Lemma preserves_gl_call (c : glCall) : preserves (gl_call c).
Proof. apply preserves_modify. intros w. split; reflexivity. Qed.

Lemma preserves_gl_bindBuffer (b : option nat) : preserves (gl_bindBuffer b).
Proof. apply preserves_modify. intros w. split; reflexivity. Qed.

Lemma preserves_setRefs gl p a t n : preserves (setRefs gl p a t n).
Proof. apply preserves_modify. intros w. split; reflexivity. Qed.

Lemma preserves_setError msg : preserves (setError msg).
Proof. apply preserves_modify. intros w. split; reflexivity. Qed.

Lemma preserves_requestAnimationFrame : preserves requestAnimationFrame.
Proof.
  intros w Hwf. split; [simpl; lia | split; [reflexivity | exact Hwf]].
Qed.

Lemma preserves_cancelAnimationFrame id : preserves (cancelAnimationFrame id).
Proof. apply preserves_modify. intros w. split; reflexivity. Qed.

Lemma preserves_whenM (b : bool) (m : M unit) :
  preserves m -> preserves (whenM b m).
Proof. intros Hm. destruct b; [exact Hm | apply preserves_ret]. Qed.

(** The effect on the table of the calls that touch it: the only handles
    at which the table changes are the ones given out since. *)
Ltac table_lookup :=
  repeat first
    [ rewrite lookup_delete_ne by lia
    | rewrite lookup_alter_ne by lia
    | rewrite lookup_insert_ne by lia ].

Ltac fields :=
  cbn beta iota zeta delta
    [setObjects fst snd objects nextHandle arrayBuffer calls frameRequests nextRequest
     clock errorState glRef programRef animationRef startTimeRef
     vertexCountRef].

Ltac keeps_step :=
  unfold setObjects; fields;
  split; [fields; lia | split; fields; intros ? ?; table_lookup; auto with lia].

(** *** Running a call step by step

    [wp m w Q]: the result and the world that [m] gives in [w] satisfy [Q].
    A proof follows the calls in their order and keeps the current world
    as a record of its fields. *)
Lemma wp_bind {A B} (m : M A) (k : A -> M B) (w : World) Q :
  wp m w (fun r w1 => match r with
                      | Ok a => wp (k a) w1 Q
                      | Throw msg => Q (Throw msg) w1
                      end) ->
  wp (bind m k) w Q.
Proof. unfold wp, bind. destruct (m w) as [[a | msg] w1]; auto. Qed.

Lemma wp_value {A} (m : M A) (w w1 : World) (r : result A) Q :
  m w = (r, w1) -> Q r w1 -> wp m w Q.
Proof. unfold wp. intros ->. auto. Qed.

Lemma wp_world {A} (m : M A) (w : World) (P : World -> Prop) :
  wp m w (fun _ w' => P w') -> P (m w).2.
Proof. exact id. Qed.

Lemma wp_allocate (o : glObject) (w : World) Q :
  (allocates host (nextHandle w) = true ->
   Q (Ok (Some (nextHandle w)))
     (Build_World (<[nextHandle w := o]> (objects w)) (S (nextHandle w))
        (arrayBuffer w) (calls w) (frameRequests w) (nextRequest w)
        (clock w) (errorState w) (glRef w) (programRef w) (animationRef w)
        (startTimeRef w) (vertexCountRef w))) ->
  (allocates host (nextHandle w) = false -> Q (Ok None) w) ->
  wp (allocate host o) w Q.
Proof.
  unfold wp, allocate. destruct (allocates host (nextHandle w)); auto.
Qed.

(** One call: a [bind] is entered, an allocation splits the proof, any
    other call is computed. *)
Ltac wp_step :=
  lazymatch goal with
  | |- wp (bind _ _) _ _ => apply wp_bind
  | |- wp (allocate _ _) _ _ => apply wp_allocate; intros ?
  | |- wp (gl_createBuffer _) _ _ =>
      unfold gl_createBuffer; apply wp_allocate; intros ?
  | |- wp (gl_createShader _ _) _ _ =>
      unfold gl_createShader; apply wp_allocate; intros ?
  | |- wp (gl_createProgram _) _ _ =>
      unfold gl_createProgram; apply wp_allocate; intros ?
  | |- wp _ _ _ => eapply wp_value; [reflexivity |]
  end; fields.

Lemma preserves_createShader (type : shaderType) (source : jsstring) :
  preserves (createShader host type source).
Proof.
  intros w Hwf.
  unfold createShader, gl_createShader, allocate, bind.
  destruct (allocates host (nextHandle w)); simpl; [| apply keeps_refl, Hwf].
  rewrite lookup_alter_eq, lookup_alter_eq, lookup_insert_eq. simpl.
  destruct (compiles host type source); simpl; keeps_step.
Qed.

Lemma preserves_createProgram (vertexShader fragmentShader : nat) :
  preserves (createProgram host vertexShader fragmentShader).
Proof.
  intros w Hwf.
  unfold createProgram, gl_createProgram, allocate, gl_attachShader,
    gl_linkProgram, gl_getProgramLinkStatus, gl_getProgramInfoLog, gl_delete,
    programSources, modify, get, ret, throw, bind, setObjects.
  destruct (allocates host (nextHandle w)); simpl; [| apply keeps_refl, Hwf].
  rewrite !lookup_alter_eq, lookup_insert_eq. simpl.
  destruct (links host _ _); simpl.
  - keeps_step.
  - keeps_step.
Qed.

Lemma preserves_gl_createBuffer : preserves (gl_createBuffer host).
Proof.
  intros w Hwf. unfold gl_createBuffer, allocate.
  destruct (allocates host (nextHandle w)); simpl; [| apply keeps_refl, Hwf].
  keeps_step.
Qed.

Lemma preserves_gl_getAttribLocation program name :
  preserves (gl_getAttribLocation host program name).
Proof.
  unfold gl_getAttribLocation. apply preserves_bind; [apply preserves_get |].
  intros w. apply preserves_ret.
Qed.

Lemma preserves_gl_getUniformLocation program name :
  preserves (gl_getUniformLocation host program name).
Proof.
  unfold gl_getUniformLocation. apply preserves_bind; [apply preserves_get |].
  intros w. apply preserves_ret.
Qed.

Lemma preserves_setVertexCountRef n : preserves (setVertexCountRef n).
Proof.
  unfold setVertexCountRef. apply preserves_bind; [apply preserves_get |].
  intros w. apply preserves_setRefs.
Qed.

Lemma preserves_setAnimationRef n : preserves (setAnimationRef n).
Proof.
  unfold setAnimationRef. apply preserves_bind; [apply preserves_get |].
  intros w. apply preserves_setRefs.
Qed.

Lemma preserves_setStartTimeRef t : preserves (setStartTimeRef t).
Proof.
  unfold setStartTimeRef. apply preserves_bind; [apply preserves_get |].
  intros w. apply preserves_setRefs.
Qed.

Lemma preserves_setProgramRef p : preserves (setProgramRef p).
Proof.
  unfold setProgramRef. apply preserves_bind; [apply preserves_get |].
  intros w. apply preserves_setRefs.
Qed.

Lemma preserves_setGlRef : preserves setGlRef.
Proof.
  unfold setGlRef. apply preserves_bind; [apply preserves_get |].
  intros w. apply preserves_setRefs.
Qed.

Lemma preserves_Date_now : preserves Date_now.
Proof.
  unfold Date_now. apply preserves_bind; [apply preserves_get |].
  intros w. apply preserves_ret.
Qed.

(** [bufferData] follows [createBuffer] and [bindBuffer]: the data go to
    the buffer just created, or nowhere when the creation failed. *)
Lemma preserves_setupGeometry (program : nat) (geometryType : jsstring) :
  preserves (setupGeometry host program geometryType).
Proof.
  intros w Hwf. unfold setupGeometry.
  generalize (Geometry.getGeometryVertices (F:=F) geometryType) as vertices.
  generalize (Geometry.getGeometryNormals (F:=F) geometryType) as normals.
  intros normals vertices.
  cbv zeta.
  lazymatch goal with
  | |- keeps w (?m w).2 => apply (wp_world m w (keeps w))
  end.
  repeat wp_step; keeps_step.
Qed.

Create HintDb preserves.

#[local] Hint Resolve preserves_ret preserves_throw preserves_liftResult
  preserves_get preserves_gl_call preserves_gl_bindBuffer preserves_setRefs
  preserves_setError preserves_requestAnimationFrame
  preserves_cancelAnimationFrame preserves_whenM preserves_createShader
  preserves_createProgram preserves_gl_createBuffer preserves_setupGeometry
  preserves_gl_getAttribLocation preserves_gl_getUniformLocation
  preserves_setVertexCountRef preserves_setAnimationRef
  preserves_setStartTimeRef preserves_setProgramRef preserves_setGlRef
  preserves_Date_now : preserves.

Ltac pbind := apply preserves_bind; [solve [auto with preserves] |].

Ltac preserves_steps :=
  repeat first
    [ solve [auto with preserves]
    | lazymatch goal with
      | |- preserves (bind _ _) =>
          apply preserves_bind; [solve [auto with preserves] | intros ?]
      end ].

Lemma preserves_animate : preserves (animate host).
Proof.
  unfold animate. apply preserves_bind; [apply preserves_get | intros w].
  destruct (glRef w); [| apply preserves_ret].
  destruct (programRef w) as [program |]; [| apply preserves_ret].
  destruct (negb (canvasMounted host)); preserves_steps.
Qed.

Lemma preserves_renderShader (shaderCodeText : jsstring) :
  preserves (renderShader host shaderCodeText).
Proof.
  pose proof preserves_animate.
  unfold renderShader.
  destruct (negb (canvasMounted host)); [apply preserves_ret |].
  destruct (negb (webglSupported host)); [apply preserves_setError |].
  pbind; intros _. pbind; intros vertexShaderCode.
  pbind; intros fragmentShaderCode. pbind; intros vertexShader.
  pbind; intros fragmentShader.
  destruct vertexShader as [vertexShader |], fragmentShader as [fragmentShader |];
    try apply preserves_throw.
  pbind; intros program.
  destruct program as [program |]; [| apply preserves_throw].
  preserves_steps.
Qed.

Lemma preserves_unmount : preserves unmount.
Proof.
  unfold unmount. apply preserves_bind; [apply preserves_get | intros w].
  destruct (negb (animationRef w =? 0)%nat); preserves_steps.
Qed.

Lemma preserves_frames (pending : list nat) (acc : M unit) :
  preserves acc ->
  preserves (fold_left (fun acc _ => bind acc (fun _ => animate host))
                       pending acc).
Proof.
  revert acc. induction pending as [|x pending IH]; intros acc Hacc; simpl;
    [exact Hacc |].
  apply IH. apply preserves_bind; [exact Hacc |].
  intros _. apply preserves_animate.
Qed.

Lemma preserves_runFrame (now : Z) : preserves (runFrame host now).
Proof.
  intros w Hwf. unfold runFrame. cbv zeta.
  lazymatch goal with
  | |- keeps w (fold_left _ _ _ ?w0).2 =>
      assert (Hw0 : keeps w w0)
        by (split; [fields; lia | split; [reflexivity | exact Hwf]]);
      eapply keeps_trans; [exact Hw0 |]
  end.
  apply preserves_frames; [apply preserves_ret |].
  eapply keeps_wellFormed, Hw0.
Qed.

(** *** The program ref

    Every call of the component but [setProgramRef] leaves [programRef]
    as it is. *)
Lemma keepsProgramRef_bind {A B} (m : M A) (k : A -> M B) :
  keepsProgramRef m -> (forall a, keepsProgramRef (k a)) ->
  keepsProgramRef (bind m k).
Proof.
  intros Hm Hk w. unfold bind. specialize (Hm w).
  destruct (m w) as [[a | msg] w']; simpl in *; [| exact Hm].
  rewrite Hk. exact Hm.
Qed.

Lemma keepsProgramRef_ret {A} (a : A) : keepsProgramRef (ret a).
Proof. intros w. reflexivity. Qed.

Lemma keepsProgramRef_setupGeometry program geometryType :
  keepsProgramRef (setupGeometry host program geometryType).
Proof.
  intros w. unfold setupGeometry.
  generalize (Geometry.getGeometryVertices (F:=F) geometryType) as vertices.
  generalize (Geometry.getGeometryNormals (F:=F) geometryType) as normals.
  intros normals vertices. cbv zeta.
  lazymatch goal with
  | |- programRef (?m w).2 = _ =>
      apply (wp_world m w (fun w' => programRef w' = programRef w))
  end.
  repeat wp_step; reflexivity.
Qed.

Lemma keepsProgramRef_whenM (b : bool) (c : glCall) :
  keepsProgramRef (whenM b (gl_call c)).
Proof. intros w. destruct b; reflexivity. Qed.

Lemma keepsProgramRef_animate : keepsProgramRef (animate host).
Proof.
  unfold animate. apply keepsProgramRef_bind; [intros w; reflexivity | intros w].
  destruct (glRef w); [| apply keepsProgramRef_ret].
  destruct (programRef w) as [program |]; [| apply keepsProgramRef_ret].
  destruct (negb (canvasMounted host)); [apply keepsProgramRef_ret |].
  repeat (cbv zeta;
          lazymatch goal with
          | |- keepsProgramRef (bind _ _) =>
              apply keepsProgramRef_bind;
              [solve [apply keepsProgramRef_whenM | intros ?; reflexivity]
              | intros ?]
          | |- keepsProgramRef _ => solve [intros ?; reflexivity]
          end).
Qed.

(** *** What a successful call returns *)

Lemma bind_ok_inv {A B} (m : M A) (k : A -> M B) (w w' : World) (b : B) :
  bind m k w = (Ok b, w') ->
  exists a w1, m w = (Ok a, w1) /\ k a w1 = (Ok b, w').
Proof.
  unfold bind. destruct (m w) as [[a | msg] w1]; [eauto | discriminate].
Qed.

Lemma createProgram_ok (vs fs p : nat) (w w1 : World) :
  createProgram host vs fs w = (Ok (Some p), w1) ->
  p = nextHandle w /\ nextHandle w1 = S p /\ isProgram (objects w1 !! p).
Proof.
  unfold createProgram, gl_createProgram, allocate, gl_attachShader,
    gl_linkProgram, gl_getProgramLinkStatus, gl_getProgramInfoLog, gl_delete,
    programSources, modify, get, ret, throw, bind, setObjects.
  destruct (allocates host (nextHandle w)); simpl; [| discriminate].
  rewrite !lookup_alter_eq, lookup_insert_eq. simpl.
  destruct (links host _ _); simpl; [| discriminate].
  intros E. injection E as <- <-. split; [reflexivity |]. simpl.
  split; [reflexivity |].
  rewrite !lookup_alter_eq, lookup_insert_eq. simpl. unfold isProgram. eauto.
Qed.

Lemma keeps_of {A} (m : M A) (w w' : World) (r : result A) :
  preserves m -> wellFormed w -> m w = (r, w') -> keeps w w'.
Proof. intros Hm Hwf E. specialize (Hm w Hwf). rewrite E in Hm. exact Hm. Qed.

Lemma wellFormedb_spec (w : World) : wellFormedb w = true <-> wellFormed w.
Proof.
  unfold wellFormedb, wellFormed. rewrite forallb_forall. split.
  - intros Hall h Hh.
    destruct (objects w !! h) as [o |] eqn:E; [| reflexivity].
    apply elem_of_map_to_list, list_elem_of_In, Hall in E.
    apply Nat.ltb_lt in E. simpl in E. lia.
  - intros Hwf [h o] Hin. simpl. apply Nat.ltb_lt.
    apply list_elem_of_In, elem_of_map_to_list in Hin.
    destruct (Nat.lt_ge_cases h (nextHandle w)) as [Hlt | Hge]; [exact Hlt |].
    rewrite (Hwf h Hge) in Hin. discriminate.
Qed.

(** Nothing that was live before a call of [renderShader] is released or
    changed by it, whatever the call returns. *)
Lemma renderShader_keeps_objects (shaderCodeText : jsstring)
    (w w' : World) (r : result unit) :
  wellFormed w ->
  renderShader host shaderCodeText w = (r, w') ->
  keeps w w'
  /\ forall h o, objects w !! h = Some o -> objects w' !! h = Some o.
Proof.
  intros Hwf E.
  assert (Hk : keeps w w')
    by (eapply keeps_of; [apply preserves_renderShader | exact Hwf | exact E]).
  split; [exact Hk |]. intros h o Ho.
  destruct Hk as (_ & Hold & _).
  destruct (Nat.lt_ge_cases h (nextHandle w)) as [Hlt | Hge].
  - rewrite Hold by exact Hlt. exact Ho.
  - rewrite (Hwf h Hge) in Ho. discriminate.
Qed.

(** The part of [renderShader] that follows [setProgramRef]. *)
Lemma after_setProgramRef (program : nat) (geometryType : jsstring)
    (w w' : World) (r : result unit) :
  wellFormed w ->
  bind (setupGeometry host program geometryType) (fun _ =>
    bind Date_now (fun now =>
      bind (setStartTimeRef now) (fun _ => animate host))) w = (r, w') ->
  keeps w w' /\ programRef w' = programRef w.
Proof.
  pose proof preserves_animate as Ha.
  pose proof keepsProgramRef_animate as Hb.
  intros Hwf E. split.
  - eapply keeps_of; [| exact Hwf | exact E]. preserves_steps.
  - assert (Hp : keepsProgramRef
                   (bind (setupGeometry host program geometryType) (fun _ =>
                      bind Date_now (fun now =>
                        bind (setStartTimeRef now) (fun _ => animate host))))).
    { apply keepsProgramRef_bind;
        [apply keepsProgramRef_setupGeometry | intros _].
      apply keepsProgramRef_bind; [intros ?; reflexivity | intros now].
      apply keepsProgramRef_bind; [intros ?; reflexivity | intros _].
      exact Hb. }
    specialize (Hp w). rewrite E in Hp. exact Hp.
Qed.

(** A successful call leaves in [programRef] a program created by the
    call, live when the call returns. *)
Lemma renderShader_ok (shaderCodeText : jsstring) (w w' : World) :
  canvasMounted host = true -> webglSupported host = true ->
  wellFormed w ->
  renderShader host shaderCodeText w = (Ok tt, w') ->
  exists p, programRef w' = Some p /\ (nextHandle w <= p)%nat
            /\ isProgram (objects w' !! p).
Proof.
  intros Hc Hg Hwf. unfold renderShader. rewrite Hc, Hg. cbn [negb].
  intros E.
  apply bind_ok_inv in E as (? & w1 & E1 & E).
  apply bind_ok_inv in E as (vsrc & w2 & E2 & E).
  apply bind_ok_inv in E as (fsrc & w3 & E3 & E).
  apply bind_ok_inv in E as (vertexShader & w4 & E4 & E).
  apply bind_ok_inv in E as (fragmentShader & w5 & E5 & E).
  destruct vertexShader as [vertexShader |], fragmentShader as [fragmentShader |];
    try discriminate.
  apply bind_ok_inv in E as (program & w6 & E6 & E).
  destruct program as [program |]; [| discriminate].
  apply bind_ok_inv in E as (? & w7 & E7 & E).
  assert (K1 : keeps w w1) by (eapply keeps_of; [apply preserves_setGlRef | exact Hwf | exact E1]).
  assert (K2 : keeps w1 w2) by (eapply keeps_of; [apply preserves_liftResult | eapply keeps_wellFormed, K1 | exact E2]).
  assert (K3 : keeps w2 w3) by (eapply keeps_of; [apply preserves_liftResult | eapply keeps_wellFormed, K2 | exact E3]).
  assert (K4 : keeps w3 w4) by (eapply keeps_of; [apply preserves_createShader | eapply keeps_wellFormed, K3 | exact E4]).
  assert (K5 : keeps w4 w5) by (eapply keeps_of; [apply preserves_createShader | eapply keeps_wellFormed, K4 | exact E5]).
  assert (K6 : keeps w5 w6) by (eapply keeps_of; [apply preserves_createProgram | eapply keeps_wellFormed, K5 | exact E6]).
  assert (K7 : keeps w6 w7) by (eapply keeps_of; [apply preserves_setProgramRef | eapply keeps_wellFormed, K6 | exact E7]).
  apply createProgram_ok in E6 as (Hp & Hnext & Hprog).
  assert (Hp7 : programRef w7 = Some program).
  { unfold setProgramRef, setRefs, modify, get, bind in E7.
    injection E7 as _ <-. reflexivity. }
  apply after_setProgramRef in E as [K8 Hp8]; [| eapply keeps_wellFormed, K7].
  exists program. split; [congruence |]. split.
  - destruct K1 as [? _], K2 as [? _], K3 as [? _], K4 as [? _], K5 as [? _].
    lia.
  - destruct K7 as (N7 & O7 & _), K8 as (N8 & O8 & _).
    rewrite O8, O7 by lia. exact Hprog.
Qed.

(** *** The failure paths *)

Lemma bind_eval {A B} (m : M A) (k : A -> M B) (w w1 : World) (a : A) :
  m w = (Ok a, w1) -> bind m k w = k a w1.
Proof. unfold bind. intros ->. reflexivity. Qed.

Lemma bind_throw {A B} (m : M A) (k : A -> M B) (w w1 : World) msg :
  m w = (Throw msg, w1) -> bind m k w = (Throw msg, w1).
Proof. unfold bind. intros ->. reflexivity. Qed.

(** A source that compiles: the shader object stays in the table. *)
Lemma createShader_compiles (type : shaderType) (source : jsstring)
    (w : World) :
  allocates host (nextHandle w) = true ->
  compiles host type source = true ->
  createShader host type source w
  = (Ok (Some (nextHandle w)),
     allocated w (<[nextHandle w := ShaderObject type source true]>
                    (objects w))).
Proof.
  intros Ha Hc.
  unfold createShader, gl_createShader, allocate, bind. rewrite Ha.
  unfold gl_shaderSource, gl_compileShader, gl_getShaderCompileStatus,
    modify, get, ret, bind, setObjects. fields.
  rewrite !alter_insert_eq, lookup_insert_eq, Hc. reflexivity.
Qed.

(** A source that does not compile: the shader object is deleted and the
    error is thrown. *)
Lemma createShader_rejects (type : shaderType) (source : jsstring)
    (w : World) :
  wellFormed w ->
  allocates host (nextHandle w) = true ->
  compiles host type source = false ->
  createShader host type source w
  = (Throw (str "Shader compilation error: "
            ++ shaderInfoLog host type source),
     allocated w (objects w)).
Proof.
  intros Hwf Ha Hc.
  unfold createShader, gl_createShader, allocate, bind. rewrite Ha.
  unfold gl_shaderSource, gl_compileShader, gl_getShaderCompileStatus,
    gl_getShaderInfoLog, gl_delete, modify, get, ret, throw, bind,
    setObjects. fields.
  rewrite !alter_insert_eq, !lookup_insert_eq, Hc. cbn [negb]. fields.
  rewrite lookup_insert_eq, delete_insert_id by (apply Hwf; lia).
  reflexivity.
Qed.

Lemma sourceOf_pair (objs : gmap nat (glObject (F:=F))) (vs fs : nat)
    (v f : jsstring) (cv cf : bool) :
  objs !! vs = Some (ShaderObject VERTEX_SHADER v cv) ->
  objs !! fs = Some (ShaderObject FRAGMENT_SHADER f cf) ->
  sourceOf objs VERTEX_SHADER [vs; fs] = v
  /\ sourceOf objs FRAGMENT_SHADER [vs; fs] = f.
Proof.
  intros Hv Hf. unfold sourceOf. cbn [omap list_omap]. rewrite Hv, Hf.
  split; reflexivity.
Qed.

(** Two stages that do not link: the program object is deleted and the
    error is thrown; the two shader objects are not touched. *)
Lemma createProgram_rejects (vs fs : nat) (v f : jsstring) (cv cf : bool)
    (w : World) :
  wellFormed w ->
  objects w !! vs = Some (ShaderObject VERTEX_SHADER v cv) ->
  objects w !! fs = Some (ShaderObject FRAGMENT_SHADER f cf) ->
  allocates host (nextHandle w) = true ->
  links host v f = false ->
  createProgram host vs fs w
  = (Throw (str "Program linking error: " ++ programInfoLog host v f),
     allocated w (objects w)).
Proof.
  intros Hwf Hv Hf Ha Hl.
  assert (Hvs : (vs < nextHandle w)%nat).
  { destruct (Nat.lt_ge_cases vs (nextHandle w)) as [? | Hge]; [assumption |].
    rewrite (Hwf vs Hge) in Hv. discriminate. }
  assert (Hfs : (fs < nextHandle w)%nat).
  { destruct (Nat.lt_ge_cases fs (nextHandle w)) as [? | Hge]; [assumption |].
    rewrite (Hwf fs Hge) in Hf. discriminate. }
  unfold createProgram, gl_createProgram, allocate, bind. rewrite Ha.
  unfold gl_attachShader, gl_linkProgram, gl_getProgramLinkStatus,
    gl_getProgramInfoLog, gl_delete, programSources, modify, get, ret,
    throw, bind, setObjects. fields.
  rewrite !alter_insert_eq. cbn [app].
  destruct (sourceOf_pair (<[nextHandle w := ProgramObject [vs; fs] None]>
                             (objects w)) vs fs v f cv cf) as [Sv Sf].
  { rewrite lookup_insert_ne by lia. exact Hv. }
  { rewrite lookup_insert_ne by lia. exact Hf. }
  rewrite Sv, Sf, Hl. rewrite !lookup_insert_eq. cbn [negb]. fields.
  rewrite !lookup_insert_eq. fields. rewrite Sv, Sf. cbn [fst snd].
  rewrite delete_insert_id by (apply Hwf; lia). reflexivity.
Qed.

Lemma wellFormed_allocated (w : World) (o : glObject) :
  wellFormed w ->
  wellFormed (allocated w (<[nextHandle w := o]> (objects w))).
Proof.
  intros Hwf h Hh. unfold allocated in *. fields. cbn [nextHandle] in Hh.
  rewrite lookup_insert_ne by lia. apply Hwf. lia.
Qed.

Lemma renderShader_start (shaderCodeText v f : jsstring) (w : World) :
  canvasMounted host = true -> webglSupported host = true ->
  extractVertexShader shaderCodeText = Ok v ->
  extractFragmentShader shaderCodeText = Ok f ->
  renderShader host shaderCodeText w
  = bind (createShader host VERTEX_SHADER v) (fun vertexShader =>
      bind (createShader host FRAGMENT_SHADER (fixShaderIssues f))
        (fun fragmentShader =>
           match vertexShader, fragmentShader with
           | Some vertexShader, Some fragmentShader =>
               bind (createProgram host vertexShader fragmentShader)
                 (fun program =>
                    match program with
                    | None => throw (str "Failed to create shader program")
                    | Some program =>
                        bind (setProgramRef program) (fun _ =>
                          bind (setupGeometry host program
                                  (extractGeometryType shaderCodeText))
                            (fun _ =>
                               bind Date_now (fun now =>
                                 bind (setStartTimeRef now)
                                   (fun _ => animate host))))
                    end)
           | _, _ => throw (str "Failed to compile shaders")
           end))
      (setRefs true (programRef w) (animationRef w) (startTimeRef w)
               (vertexCountRef w) w).2.
Proof.
  intros Hc Hg Hv Hf. unfold renderShader. rewrite Hc, Hg, Hv, Hf.
  reflexivity.
Qed.

(** A bundle without its markers never reaches the device: the error of
    the extractor is thrown, and no object and no frame callback is
    created. *)
Lemma renderShader_missing_marker (shaderCodeText : jsstring) (w : World) :
  canvasMounted host = true -> webglSupported host = true ->
  missingMarker (parseBundle shaderCodeText) ->
  (renderShader host shaderCodeText w).1 = Throw markersError
  /\ objects (renderShader host shaderCodeText w).2 = objects w
  /\ frameRequests (renderShader host shaderCodeText w).2 = frameRequests w.
Proof.
  intros Hc Hg Hm. unfold renderShader. rewrite Hc, Hg. cbn [negb].
  assert (E : extractVertexShader shaderCodeText = Throw markersError).
  { destruct (extractVertexShader shaderCodeText) as [v | msg] eqn:Ev.
    - exfalso.
      assert (Hp : present vertexMarker shaderCodeText
                   /\ present fragmentMarker shaderCodeText)
        by (apply extractVertexShader_ok; eauto).
      destruct (proj2 (extractFragmentShader_ok shaderCodeText) (proj2 Hp))
        as [f Ef].
      unfold missingMarker, parseBundle in Hm. rewrite Ev, Ef in Hm.
      destruct Hm; discriminate.
    - unfold extractVertexShader in Ev. destruct (_ || _); congruence. }
  rewrite E. repeat split.
Qed.

(** C2, as the code runs it.  When the vertex stage
    compiles and the fragment stage does not, [renderShader] throws and
    the vertex shader object is still in the table; when both stages
    compile and the program does not link, it throws and both shader
    objects are still in the table, only the program object is gone. *)
Theorem failed_compile_or_link_leaves_shaders
    (shaderCodeText v f : jsstring) (w : World) :
  wellFormedb w = true ->
  canvasMounted host = true -> webglSupported host = true ->
  extractVertexShader shaderCodeText = Ok v ->
  extractFragmentShader shaderCodeText = Ok f ->
  allocates host (nextHandle w) = true ->
  allocates host (S (nextHandle w)) = true ->
  compiles host VERTEX_SHADER v = true ->
  (compiles host FRAGMENT_SHADER (fixShaderIssues f) = false ->
   exists w',
     renderShader host shaderCodeText w
     = (Throw (str "Shader compilation error: "
               ++ shaderInfoLog host FRAGMENT_SHADER (fixShaderIssues f)),
        w')
     /\ objects w' !! nextHandle w
        = Some (ShaderObject VERTEX_SHADER v true))
  /\ (compiles host FRAGMENT_SHADER (fixShaderIssues f) = true ->
      allocates host (S (S (nextHandle w))) = true ->
      links host v (fixShaderIssues f) = false ->
      exists w',
        renderShader host shaderCodeText w
        = (Throw (str "Program linking error: "
                  ++ programInfoLog host v (fixShaderIssues f)),
           w')
        /\ objects w' !! nextHandle w
           = Some (ShaderObject VERTEX_SHADER v true)
        /\ objects w' !! S (nextHandle w)
           = Some (ShaderObject FRAGMENT_SHADER (fixShaderIssues f) true)
        /\ objects w' !! S (S (nextHandle w)) = None).
Proof.
  intros Hwfb Hc Hg Hv Hf Ha1 Ha2 Hcv.
  apply wellFormedb_spec in Hwfb.
  rewrite (renderShader_start _ v f w Hc Hg Hv Hf).
  set (w1 := (setRefs true _ _ _ _ w).2).
  assert (Hwf1 : wellFormed w1) by exact Hwfb.
  change (nextHandle w) with (nextHandle w1) in *.
  assert (E1 : createShader host VERTEX_SHADER v w1
               = (Ok (Some (nextHandle w1)),
                  allocated w1 (<[nextHandle w1 := ShaderObject VERTEX_SHADER
                                                     v true]> (objects w1))))
    by (apply createShader_compiles; [exact Ha1 | exact Hcv]).
  rewrite (bind_eval _ _ _ _ _ E1).
  set (w2 := allocated w1 _) in *.
  assert (Hwf2 : wellFormed w2) by (apply wellFormed_allocated, Hwf1).
  split.
  - intros Hcf.
    assert (E2 : createShader host FRAGMENT_SHADER (fixShaderIssues f) w2
                 = (Throw (str "Shader compilation error: "
                           ++ shaderInfoLog host FRAGMENT_SHADER
                                (fixShaderIssues f)),
                    allocated w2 (objects w2)))
      by (apply createShader_rejects; [exact Hwf2 | exact Ha2 | exact Hcf]).
    rewrite (bind_throw _ _ _ _ _ E2).
    eexists. split; [reflexivity |].
    unfold w2, allocated. fields. apply lookup_insert_eq.
  - intros Hcf Ha3 Hl.
    assert (E2 : createShader host FRAGMENT_SHADER (fixShaderIssues f) w2
                 = (Ok (Some (nextHandle w2)),
                    allocated w2 (<[nextHandle w2 :=
                                      ShaderObject FRAGMENT_SHADER
                                        (fixShaderIssues f) true]>
                                    (objects w2))))
      by (apply createShader_compiles; [exact Ha2 | exact Hcf]).
    rewrite (bind_eval _ _ _ _ _ E2).
    set (w3 := allocated w2 _) in *.
    assert (Hwf3 : wellFormed w3) by (apply wellFormed_allocated, Hwf2).
    assert (Hvs : objects w3 !! nextHandle w1
                  = Some (ShaderObject VERTEX_SHADER v true)).
    { unfold w3, w2, allocated. fields.
      rewrite lookup_insert_ne by lia. apply lookup_insert_eq. }
    assert (Hfs : objects w3 !! nextHandle w2
                  = Some (ShaderObject FRAGMENT_SHADER (fixShaderIssues f)
                                       true)).
    { unfold w3, allocated. fields. apply lookup_insert_eq. }
    cbv iota beta.
    assert (E3 : createProgram host (nextHandle w1) (nextHandle w2) w3
                 = (Throw (str "Program linking error: "
                           ++ programInfoLog host v (fixShaderIssues f)),
                    allocated w3 (objects w3)))
      by (eapply createProgram_rejects;
          [exact Hwf3 | exact Hvs | exact Hfs | exact Ha3 | exact Hl]).
    rewrite (bind_throw _ _ _ _ _ E3).
    eexists. split; [reflexivity |].
    split; [exact Hvs |]. split; [exact Hfs |].
    apply Hwf3. unfold w3, w2, allocated. fields. lia.
Qed.



(** *** One frame *)

Ltac fields_all :=
  cbn beta iota zeta delta
    [setObjects setFrameRequests fst snd objects nextHandle arrayBuffer
     calls frameRequests nextRequest clock errorState glRef programRef
     animationRef startTimeRef vertexCountRef].

Lemma wp_result {A} (m : M A) (w w' : World) (r : result A) :
  wp m w (fun r0 w0 => r0 = r /\ w0 = w') -> m w = (r, w').
Proof. unfold wp. destruct (m w) as [r0 w0]. simpl. intros [-> ->]. reflexivity. Qed.

Lemma wp_whenM_call (b : bool) (c : glCall) (w : World) Q :
  Q (Ok tt)
    (Build_World (objects w) (nextHandle w) (arrayBuffer w)
       ((if b then [c] else []) ++ calls w) (frameRequests w)
       (nextRequest w) (clock w) (errorState w) (glRef w) (programRef w)
       (animationRef w) (startTimeRef w) (vertexCountRef w)) ->
  wp (whenM b (gl_call c)) w Q.
Proof. unfold wp. destruct b, w; simpl; auto. Qed.

Ltac wp_run :=
  repeat first [ apply wp_whenM_call; fields_all
               | wp_step; fields_all ].

(** The calls of [l] issued after [t]. *)
Ltac calls_since l t :=
  lazymatch l with
  | t => constr:(@nil (glCall (F:=F)))
  | ?c :: ?l' => let cs := calls_since l' t in constr:(c :: cs)
  end.

(** The frame callback in a world where it draws. *)
Lemma animate_active (w : World) (p : nat) :
  canvasMounted host = true -> active w p ->
  exists cs,
    animate host w = (Ok tt, afterFrame w p cs)
    /\ forallb (fun c => negb (isDraw c)) cs = true
    /\ In (UseProgram p) cs.
Proof.
  intros Hc [Hg Hp].
  assert (Hwp : wp (animate host) w (fun r w' =>
            r = Ok tt
            /\ exists cs, w' = afterFrame w p cs
                          /\ forallb (fun c => negb (isDraw c)) cs = true
                          /\ In (UseProgram p) cs)).
  { unfold animate. apply wp_bind. eapply wp_value; [reflexivity |].
    cbv beta iota. rewrite Hg, Hp, Hc. cbn [negb]. wp_run.
    split; [reflexivity |]. unfold afterFrame. rewrite Hg, Hp.
    repeat match goal with
           | |- context [if ?b then _ else _] => destruct b
           end;
      cbn [app];
      lazymatch goal with
      | |- exists cs, Build_World _ _ _ (_ :: ?l) _ _ _ _ _ _ _ _ _ = _ /\ _ =>
          let cs := calls_since l (calls w) in exists cs
      end;
      (split; [reflexivity |]); (split; [reflexivity |]);
      simpl; auto 20. }
  destruct Hwp as (Hr & cs & Hw & Hcs). exists cs. split; [| exact Hcs].
  apply wp_result. split; assumption.
Qed.

(** The frame callback in a world where it does not draw: no ref, or no
    canvas. *)
Lemma animate_idle (w : World) :
  canvasMounted host = false \/ glRef w = false \/ programRef w = None ->
  animate host w = (Ok tt, w).
Proof.
  intros Hidle. unfold animate, bind, get.
  destruct (glRef w); [| reflexivity].
  destruct (programRef w); [| reflexivity].
  destruct Hidle as [-> | [? | ?]]; [reflexivity | discriminate ..].
Qed.

Lemma drawCount_afterFrame (w : World) (p : nat) (cs : list glCall) :
  forallb (fun c => negb (isDraw c)) cs = true ->
  drawCount (afterFrame w p cs) = S (drawCount w).
Proof.
  intros Hcs. unfold drawCount, afterFrame. fields. cbn [List.filter isDraw].
  rewrite List.filter_app. cbn [length]. rewrite length_app. f_equal.
  assert (E : List.filter isDraw cs = []).
  { induction cs as [|c cs IH]; [reflexivity |]. simpl in *.
    apply andb_true_iff in Hcs as [Hc Hcs]. destruct (isDraw c);
      [discriminate | apply IH, Hcs]. }
  rewrite E. reflexivity.
Qed.

(** The callbacks of one frame, run one after the other. *)
Lemma frames_active (pending : list nat) (acc : M unit) (w0 w1 : World)
    (p : nat) :
  canvasMounted host = true ->
  acc w0 = (Ok tt, w1) -> active w1 p ->
  exists w2,
    fold_left (fun acc _ => bind acc (fun _ => animate host)) pending acc w0
    = (Ok tt, w2)
    /\ active w2 p
    /\ objects w2 = objects w1 /\ nextHandle w2 = nextHandle w1
    /\ vertexCountRef w2 = vertexCountRef w1
    /\ frameRequests w2
       = frameRequests w1 ++ seq (nextRequest w1) (length pending)
    /\ nextRequest w2 = (nextRequest w1 + length pending)%nat
    /\ (pending <> [] -> S (animationRef w2) = nextRequest w2)
    /\ (pending = [] -> animationRef w2 = animationRef w1)
    /\ drawCount w2 = (drawCount w1 + length pending)%nat.
Proof.
  intros Hc. revert acc w1.
  induction pending as [|x pending IH]; intros acc w1 Hacc Hact.
  - exists w1. cbn [fold_left length seq]. rewrite app_nil_r.
    repeat split; try assumption; try apply Hact; try lia; congruence.
  - destruct (animate_active w1 p Hc Hact) as (cs & Ha & Hcs & _).
    cbn [fold_left].
    destruct (IH (bind acc (fun _ => animate host)) (afterFrame w1 p cs))
      as (w2 & Hrun & Hact2 & Ho & Hn & Hv & Hf & Hr & Hlast & _ & Hd).
    { rewrite (bind_eval _ _ _ _ _ Hacc). exact Ha. }
    { split; reflexivity. }
    exists w2. split; [exact Hrun |]. split; [exact Hact2 |].
    unfold afterFrame in Ho, Hn, Hv, Hf, Hr; fields_all.
    cbn [objects nextHandle vertexCountRef frameRequests nextRequest]
      in Ho, Hn, Hv, Hf, Hr.
    rewrite (drawCount_afterFrame w1 p cs Hcs) in Hd.
    split; [exact Ho |]. split; [exact Hn |]. split; [exact Hv |].
    split; [rewrite Hf, <- app_assoc; reflexivity |].
    split; [rewrite Hr; cbn [length]; lia |].
    split.
    + intros _. destruct pending as [|y pending].
      * cbn [fold_left] in Hrun.
        rewrite (bind_eval _ _ _ _ _ Hacc), Ha in Hrun.
        injection Hrun as <-. reflexivity.
      * apply Hlast. discriminate.
    + split; [discriminate |]. cbn [length]. lia.
Qed.

Lemma frames_idle (pending : list nat) (acc : M unit) (w0 w1 : World) :
  canvasMounted host = false \/ glRef w1 = false \/ programRef w1 = None ->
  acc w0 = (Ok tt, w1) ->
  fold_left (fun acc _ => bind acc (fun _ => animate host)) pending acc w0
  = (Ok tt, w1).
Proof.
  intros Hidle. revert acc.
  induction pending as [|x pending IH]; intros acc Hacc; [exact Hacc |].
  cbn [fold_left]. apply IH.
  rewrite (bind_eval _ _ _ _ _ Hacc). apply animate_idle, Hidle.
Qed.

(** X11.  A frame callback that finds its refs and the canvas issues one
    draw call, of [vertexCountRef] vertices, for the program in
    [programRef], registers itself once more and keeps the id in
    [animationRef]; it creates and deletes no object. *)
Theorem frame_draws_once_and_registers_again (w : World) (p : nat) :
  canvasMounted host = true -> glRef w = true -> programRef w = Some p ->
  (animate host w).1 = Ok tt
  /\ (exists cs,
        calls (animate host w).2
        = DrawArrays 0 (vertexCountRef w) :: cs ++ calls w
        /\ In (UseProgram p) cs
        /\ forallb (fun c => negb (isDraw c)) cs = true)
  /\ frameRequests (animate host w).2 = frameRequests w ++ [nextRequest w]
  /\ animationRef (animate host w).2 = nextRequest w
  /\ objects (animate host w).2 = objects w
  /\ programRef (animate host w).2 = Some p.
Proof.
  intros Hc Hg Hp.
  destruct (animate_active w p Hc (conj Hg Hp)) as (cs & -> & Hcs & Hin).
  split; [reflexivity |].
  split; [exists cs; repeat split; assumption |].
  repeat split.
Qed.

(** X12.  While the refs are set and the canvas is mounted, a frame leaves
    as many registrations pending as it found: each pending callback draws
    once and registers itself again, and no object is created or deleted. *)
Theorem frame_keeps_the_number_of_callbacks (now : Z) (w : World) (p : nat) :
  canvasMounted host = true -> glRef w = true -> programRef w = Some p ->
  (runFrame host now w).1 = Ok tt
  /\ frameRequests (runFrame host now w).2
     = seq (nextRequest w) (length (frameRequests w))
  /\ drawCount (runFrame host now w).2
     = (drawCount w + length (frameRequests w))%nat
  /\ objects (runFrame host now w).2 = objects w
  /\ programRef (runFrame host now w).2 = Some p.
Proof.
  intros Hc Hg Hp. unfold runFrame. cbv zeta.
  lazymatch goal with
  | |- (fold_left _ _ _ ?w0).1 = _ /\ _ =>
      destruct (frames_active (frameRequests w) (ret tt) w0 w0 p Hc)
        as (w2 & -> & Hact & Ho & _ & _ & Hf & _ & _ & _ & Hd);
        [reflexivity | split; assumption |]
  end.
  fields. split; [reflexivity |]. split; [exact Hf |].
  split; [exact Hd |]. split; [exact Ho | apply Hact].
Qed.

(** X13.  Once the canvas is gone, or a ref is not set, a frame ends the
    loop: the pending callbacks return at once, nothing is drawn and no
    registration is left. *)
Theorem frame_without_canvas_ends_the_loop (now : Z) (w : World) :
  canvasMounted host = false \/ glRef w = false \/ programRef w = None ->
  (runFrame host now w).1 = Ok tt
  /\ frameRequests (runFrame host now w).2 = []
  /\ calls (runFrame host now w).2 = calls w
  /\ objects (runFrame host now w).2 = objects w.
Proof.
  intros Hidle. unfold runFrame. cbv zeta.
  lazymatch goal with
  | |- (fold_left _ _ _ ?w0).1 = _ /\ _ =>
      rewrite (frames_idle (frameRequests w) (ret tt) w0 w0 Hidle eq_refl)
  end.
  repeat split.
Qed.

(** X14.  The cleanup cancels the registration whose id is in
    [animationRef], and only that one: every other pending registration
    stays pending, and no WebGL object is deleted. *)
Theorem unmount_cancels_only_the_latest (w : World) (id : nat) :
  (unmount w).1 = Ok tt
  /\ (In id (frameRequests (unmount w).2)
      <-> In id (frameRequests w)
          /\ ~ (id = animationRef w /\ animationRef w <> 0%nat))
  /\ objects (unmount w).2 = objects w.
Proof.
  unfold unmount, bind, get.
  destruct (Nat.eqb_spec (animationRef w) 0) as [E | E]; cbn [negb].
  - repeat split; tauto.
  - unfold cancelAnimationFrame, modify. fields_all.
    split; [reflexivity |]. split; [| reflexivity].
    rewrite <- !list_elem_of_In, list_elem_of_filter. tauto.
Qed.

(** *** The three outcomes of a creation *)

Lemma createShader_null (type : shaderType) (source : jsstring) (w : World) :
  allocates host (nextHandle w) = false ->
  createShader host type source w = (Ok None, w).
Proof.
  intros Ha. unfold createShader, gl_createShader, allocate, bind.
  rewrite Ha. reflexivity.
Qed.

Lemma createProgram_null (vs fs : nat) (w : World) :
  allocates host (nextHandle w) = false ->
  createProgram host vs fs w = (Ok None, w).
Proof.
  intros Ha. unfold createProgram, gl_createProgram, allocate, bind.
  rewrite Ha. reflexivity.
Qed.

(** Two stages that link: the program object stays in the table, with the
    two shaders attached. *)
Lemma createProgram_links (vs fs : nat) (v f : jsstring) (cv cf : bool)
    (w : World) :
  wellFormed w ->
  objects w !! vs = Some (ShaderObject VERTEX_SHADER v cv) ->
  objects w !! fs = Some (ShaderObject FRAGMENT_SHADER f cf) ->
  allocates host (nextHandle w) = true ->
  links host v f = true ->
  createProgram host vs fs w
  = (Ok (Some (nextHandle w)),
     allocated w (<[nextHandle w := ProgramObject [vs; fs] (Some (v, f))]>
                    (objects w))).
Proof.
  intros Hwf Hv Hf Ha Hl.
  assert (Hvs : (vs < nextHandle w)%nat).
  { destruct (Nat.lt_ge_cases vs (nextHandle w)) as [? | Hge]; [assumption |].
    rewrite (Hwf vs Hge) in Hv. discriminate. }
  assert (Hfs : (fs < nextHandle w)%nat).
  { destruct (Nat.lt_ge_cases fs (nextHandle w)) as [? | Hge]; [assumption |].
    rewrite (Hwf fs Hge) in Hf. discriminate. }
  unfold createProgram, gl_createProgram, allocate, bind. rewrite Ha.
  unfold gl_attachShader, gl_linkProgram, gl_getProgramLinkStatus,
    gl_getProgramInfoLog, gl_delete, programSources, modify, get, ret,
    throw, bind, setObjects. fields.
  rewrite !alter_insert_eq. cbn [app].
  destruct (sourceOf_pair (<[nextHandle w := ProgramObject [vs; fs] None]>
                             (objects w)) vs fs v f cv cf) as [Sv Sf].
  { rewrite lookup_insert_ne by lia. exact Hv. }
  { rewrite lookup_insert_ne by lia. exact Hf. }
  rewrite Sv, Sf, Hl. rewrite !lookup_insert_eq. cbn [negb]. reflexivity.
Qed.

(** X15.  [createShader] has three outcomes: [null] and an untouched
    context when the shader cannot be allocated; the handle of a compiled
    shader that holds the source; or, when the source does not compile,
    the error with the log of the compiler, thrown after the shader has
    been deleted, so that the table is as it was before the call. *)
Theorem createShader_outcomes (type : shaderType) (source : jsstring)
    (w : World) :
  wellFormedb w = true ->
  (allocates host (nextHandle w) = false ->
   createShader host type source w = (Ok None, w))
  /\ (allocates host (nextHandle w) = true ->
      compiles host type source = true ->
      createShader host type source w
      = (Ok (Some (nextHandle w)),
         allocated w (<[nextHandle w := ShaderObject type source true]>
                        (objects w))))
  /\ (allocates host (nextHandle w) = true ->
      compiles host type source = false ->
      createShader host type source w
      = (Throw (str "Shader compilation error: "
                ++ shaderInfoLog host type source),
         allocated w (objects w))).
Proof.
  intros Hwf. apply wellFormedb_spec in Hwf.
  split; [apply createShader_null |].
  split; [apply createShader_compiles | apply createShader_rejects, Hwf].
Qed.

(** X16.  [createProgram] on two shaders of the table has three outcomes:
    [null] and an untouched context when the program cannot be allocated;
    the handle of a linked program with the two shaders attached; or, when
    the stages do not link, the error with the log of the linker, thrown
    after the program has been deleted, the two shaders left in the
    table. *)
Theorem createProgram_outcomes (vs fs : nat) (v f : jsstring) (cv cf : bool)
    (w : World) :
  wellFormedb w = true ->
  objects w !! vs = Some (ShaderObject VERTEX_SHADER v cv) ->
  objects w !! fs = Some (ShaderObject FRAGMENT_SHADER f cf) ->
  (allocates host (nextHandle w) = false ->
   createProgram host vs fs w = (Ok None, w))
  /\ (allocates host (nextHandle w) = true -> links host v f = true ->
      createProgram host vs fs w
      = (Ok (Some (nextHandle w)),
         allocated w
           (<[nextHandle w := ProgramObject [vs; fs] (Some (v, f))]>
              (objects w))))
  /\ (allocates host (nextHandle w) = true -> links host v f = false ->
      createProgram host vs fs w
      = (Throw (str "Program linking error: " ++ programInfoLog host v f),
         allocated w (objects w))).
Proof.
  intros Hwf Hv Hf. apply wellFormedb_spec in Hwf.
  split; [apply createProgram_null |].
  split; [eapply createProgram_links | eapply createProgram_rejects];
    eassumption.
Qed.

(** *** The geometry buffers *)

Lemma length_getGeometry_any (type : jsstring) :
  exists g,
    length (Geometry.getGeometryVertices (F:=F) type) = (3 * vertexCount g)%nat
    /\ length (Geometry.getGeometryNormals (F:=F) type)
       = (3 * vertexCount g)%nat.
Proof.
  unfold Geometry.getGeometryVertices, Geometry.getGeometryNormals.
  cbv zeta.
  destruct (Geometry.streq (toLowerCase type) (str "cube"));
    [exists Cube; rewrite !length_map; split; reflexivity |].
  destruct (Geometry.streq (toLowerCase type) (str "sphere")).
  { exists Sphere.
    rewrite GeometryFacts.length_generateSphere,
      GeometryFacts.length_generateSphereNormals.
    split; vm_compute; reflexivity. }
  destruct (Geometry.streq (toLowerCase type) (str "plane"));
    [exists Plane; rewrite !length_map; split; reflexivity |].
  destruct (Geometry.streq (toLowerCase type) (str "cylinder")).
  { exists Cylinder.
    unfold Geometry.generateCylinder, Geometry.generateCylinderNormals.
    rewrite !GeometryFacts.length_cylinderTriangles. split; reflexivity. }
  destruct (Geometry.streq (toLowerCase type) (str "torus")).
  { exists Torus.
    unfold Geometry.generateTorus, Geometry.generateTorusNormals.
    rewrite !GeometryFacts.length_torusTriangles. split; reflexivity. }
  exists Cube. rewrite !length_map. split; reflexivity.
Qed.

(** An allocation that the hypotheses say succeeds. *)
Ltac wp_allocated :=
  lazymatch goal with
  | |- wp (gl_createBuffer _) _ _ => unfold gl_createBuffer
  | |- wp (gl_createShader _ _) _ _ => unfold gl_createShader
  | |- wp (gl_createProgram _) _ _ => unfold gl_createProgram
  | |- wp (allocate _ _) _ _ => idtac
  end;
  apply wp_allocate;
  [ intros _
  | let Hx := fresh "Hx" in
    intros Hx; cbn [setObjects nextHandle] in Hx; congruence ].

Ltac wp_alloc :=
  repeat first [ apply wp_whenM_call; fields_all
               | wp_allocated; fields_all
               | wp_step; fields_all ].

Lemma setupGeometry_run (program : nat) (geometryType : jsstring)
    (w : World) :
  allocates host (nextHandle w) = true ->
  allocates host (S (nextHandle w)) = true ->
  exists cs,
    setupGeometry host program geometryType w
    = (Ok tt,
       afterSetup w (Geometry.getGeometryVertices geometryType)
                  (Geometry.getGeometryNormals geometryType) cs)
    /\ forallb (fun c => negb (isDraw c)) cs = true.
Proof.
  intros Ha1 Ha2.
  assert (Hwp : wp (setupGeometry host program geometryType) w (fun r w' =>
            r = Ok tt
            /\ exists cs,
                 w' = afterSetup w (Geometry.getGeometryVertices geometryType)
                        (Geometry.getGeometryNormals geometryType) cs
                 /\ forallb (fun c => negb (isDraw c)) cs = true)).
  { unfold setupGeometry.
    generalize (Geometry.getGeometryVertices (F:=F) geometryType) as vertices.
    generalize (Geometry.getGeometryNormals (F:=F) geometryType) as normals.
    intros normals vertices. cbv zeta. wp_alloc.
    split; [reflexivity |]. unfold afterSetup.
    rewrite !alter_insert_eq.
    lazymatch goal with
    | |- exists cs, Build_World _ _ _ ?l _ _ _ _ _ _ _ _ _ = _ /\ _ =>
        let cs := calls_since l (calls w) in exists cs
    end.
    split; reflexivity. }
  destruct Hwp as (Hr & cs & Hw & Hcs). exists cs. split; [| exact Hcs].
  apply wp_result. split; assumption.
Qed.


(** *** A successful start *)

Lemma renderShader_runs (shaderCodeText v f : jsstring) (w : World) :
  wellFormed w ->
  canvasMounted host = true -> webglSupported host = true ->
  extractVertexShader shaderCodeText = Ok v ->
  extractFragmentShader shaderCodeText = Ok f ->
  allocatesFive host (nextHandle w) = true ->
  compiles host VERTEX_SHADER v = true ->
  compiles host FRAGMENT_SHADER (fixShaderIssues f) = true ->
  links host v (fixShaderIssues f) = true ->
  exists cs,
    renderShader host shaderCodeText w
    = (Ok tt,
       afterRender w v (fixShaderIssues f)
         (Geometry.getGeometryVertices (extractGeometryType shaderCodeText))
         (Geometry.getGeometryNormals (extractGeometryType shaderCodeText))
         cs)
    /\ forallb (fun c => negb (isDraw c)) cs = true.
Proof.
  intros Hwf Hc Hg Hv Hf Ha Hcv Hcf Hl.
  unfold allocatesFive in Ha.
  apply andb_true_iff in Ha as [Ha Ha5].
  apply andb_true_iff in Ha as [Ha Ha4].
  apply andb_true_iff in Ha as [Ha Ha3].
  apply andb_true_iff in Ha as [Ha1 Ha2].
  rewrite (renderShader_start _ v f w Hc Hg Hv Hf).
  set (w1 := (setRefs true _ _ _ _ w).2).
  assert (Hwf1 : wellFormed w1) by exact Hwf.
  assert (E1 : createShader host VERTEX_SHADER v w1
               = (Ok (Some (nextHandle w1)),
                  allocated w1 (<[nextHandle w1 := ShaderObject VERTEX_SHADER
                                                     v true]> (objects w1))))
    by (apply createShader_compiles; [exact Ha1 | exact Hcv]).
  rewrite (bind_eval _ _ _ _ _ E1).
  set (w2 := allocated w1 _) in *.
  assert (Hwf2 : wellFormed w2) by (apply wellFormed_allocated, Hwf1).
  assert (E2 : createShader host FRAGMENT_SHADER (fixShaderIssues f) w2
               = (Ok (Some (nextHandle w2)),
                  allocated w2 (<[nextHandle w2 :=
                                    ShaderObject FRAGMENT_SHADER
                                      (fixShaderIssues f) true]>
                                  (objects w2))))
    by (apply createShader_compiles; [exact Ha2 | exact Hcf]).
  rewrite (bind_eval _ _ _ _ _ E2).
  set (w3 := allocated w2 _) in *.
  assert (Hwf3 : wellFormed w3) by (apply wellFormed_allocated, Hwf2).
  assert (Hvs : objects w3 !! nextHandle w1
                = Some (ShaderObject VERTEX_SHADER v true)).
  { unfold w3, w2, allocated. fields.
    rewrite lookup_insert_ne by lia. apply lookup_insert_eq. }
  assert (Hfs : objects w3 !! nextHandle w2
                = Some (ShaderObject FRAGMENT_SHADER (fixShaderIssues f)
                                     true)).
  { unfold w3, allocated. fields. apply lookup_insert_eq. }
  cbv iota beta.
  assert (E3 : createProgram host (nextHandle w1) (nextHandle w2) w3
               = (Ok (Some (nextHandle w3)),
                  allocated w3
                    (<[nextHandle w3 :=
                         ProgramObject [nextHandle w1; nextHandle w2]
                           (Some (v, fixShaderIssues f))]> (objects w3))))
    by (eapply createProgram_links;
        [exact Hwf3 | exact Hvs | exact Hfs | exact Ha3 | exact Hl]).
  rewrite (bind_eval _ _ _ _ _ E3). cbv iota beta.
  clear E1 E2 E3 Hvs Hfs Hwf1 Hwf2 Hwf3.
  subst w3 w2 w1. unfold allocated, setRefs, modify. fields.
  set (vertices := Geometry.getGeometryVertices
                     (extractGeometryType shaderCodeText)).
  set (normals := Geometry.getGeometryNormals
                    (extractGeometryType shaderCodeText)).
  lazymatch goal with
  | |- exists cs, ?m ?w4 = _ /\ _ =>
      assert (Hwp : wp m w4 (fun r w' =>
                r = Ok tt
                /\ exists cs,
                     w' = afterRender w v (fixShaderIssues f) vertices
                                      normals cs
                     /\ forallb (fun c => negb (isDraw c)) cs = true))
  end.
  { apply wp_bind. wp_step. apply wp_bind.
    lazymatch goal with
    | |- wp (setupGeometry _ _ _) ?W _ =>
        destruct (setupGeometry_run (S (S (nextHandle w)))
                    (extractGeometryType shaderCodeText) W Ha4 Ha5)
          as (cs1 & Es & Hcs1)
    end.
    eapply wp_value; [exact Es |]. clear Es.
    fold vertices normals. unfold afterSetup. fields.
    apply wp_bind. wp_step. apply wp_bind. wp_step.
    lazymatch goal with
    | |- wp (animate _) ?W _ =>
        destruct (animate_active W (S (S (nextHandle w))) Hc
                    (conj eq_refl eq_refl)) as (cs2 & Ea & Hcs2 & _)
    end.
    eapply wp_value; [exact Ea |]. clear Ea.
    split; [reflexivity |]. exists (cs2 ++ cs1). split.
    - unfold afterFrame, afterRender, pipelineObjects. fields.
      rewrite <- app_assoc. reflexivity.
    - rewrite forallb_app, Hcs1, Hcs2. reflexivity. }
  destruct Hwp as (Hr & cs & Hw & Hcs). exists cs. split; [| exact Hcs].
  apply wp_result. split; assumption.
Qed.


(** *** What [renderShader] throws *)

Abbreviation returns := (returns (F:=F)).

Lemma returns_bind {A B} (m : M A) (k : A -> M B) :
  returns m -> (forall a, returns (k a)) -> returns (bind m k).
Proof.
  intros Hm Hk w. unfold bind. destruct (Hm w) as [a Ha].
  destruct (m w) as [[a' | msg] w1]; simpl in Ha; [apply Hk | discriminate].
Qed.

Lemma returns_ret {A} (a : A) : returns (ret a).
Proof. intros w. eexists. reflexivity. Qed.

Lemma returns_get : returns get.
Proof. intros w. eexists. reflexivity. Qed.

Lemma returns_modify (f : World -> World) : returns (modify f).
Proof. intros w. eexists. reflexivity. Qed.

Lemma returns_allocate (o : glObject) : returns (allocate host o).
Proof.
  intros w. unfold allocate. destruct (allocates host (nextHandle w));
    eexists; reflexivity.
Qed.

Lemma returns_whenM (b : bool) (m : M unit) : returns m -> returns (whenM b m).
Proof. intros Hm. destruct b; [exact Hm | apply returns_ret]. Qed.

Lemma returns_requestAnimationFrame : returns requestAnimationFrame.
Proof. intros w. eexists. reflexivity. Qed.

Create HintDb returns.

#[local] Hint Resolve returns_ret returns_get returns_modify returns_allocate
  returns_whenM returns_requestAnimationFrame : returns.

Ltac returns_steps :=
  repeat first
    [ solve [auto with returns]
    | lazymatch goal with
      | |- returns (bind _ _) => apply returns_bind; [| intros ?]
      end
    | progress cbv zeta ].

Lemma returns_setupGeometry (program : nat) (geometryType : jsstring) :
  returns (setupGeometry host program geometryType).
Proof.
  unfold setupGeometry, setVertexCountRef, gl_createBuffer, gl_bindBuffer,
    gl_bufferData, gl_getAttribLocation, gl_call, setRefs.
  returns_steps.
Qed.

Lemma returns_animate : returns (animate host).
Proof.
  unfold animate. apply returns_bind; [apply returns_get | intros w].
  destruct (glRef w); [| apply returns_ret].
  destruct (programRef w) as [program |]; [| apply returns_ret].
  destruct (negb (canvasMounted host)); [apply returns_ret |].
  unfold gl_call, Date_now, gl_getUniformLocation, setAnimationRef, setRefs.
  returns_steps.
Qed.

Lemma bind_throws {A B} (m : M A) (k : A -> M B) (w : World)
    (msg : jsstring) :
  (bind m k w).1 = Throw msg ->
  (m w).1 = Throw msg
  \/ exists a, (m w).1 = Ok a /\ (k a (m w).2).1 = Throw msg.
Proof.
  unfold bind. destruct (m w) as [[a | e] w1]; simpl; intros E.
  - right. exists a. split; [reflexivity | exact E].
  - left. injection E as ->. reflexivity.
Qed.

Lemma createShader_throws (type : shaderType) (source : jsstring)
    (w : World) (msg : jsstring) :
  (createShader host type source w).1 = Throw msg ->
  exists log, msg = str "Shader compilation error: " ++ log.
Proof.
  unfold createShader, gl_createShader, allocate, bind.
  destruct (allocates host (nextHandle w)); simpl; [| discriminate].
  rewrite lookup_alter_eq, lookup_alter_eq, lookup_insert_eq. simpl.
  destruct (compiles host type source); simpl; [discriminate |].
  intros E. injection E as <-. eexists. reflexivity.
Qed.

Lemma createProgram_throws (vs fs : nat) (w : World) (msg : jsstring) :
  (createProgram host vs fs w).1 = Throw msg ->
  exists log, msg = str "Program linking error: " ++ log.
Proof.
  unfold createProgram, gl_createProgram, allocate, gl_attachShader,
    gl_linkProgram, gl_getProgramLinkStatus, gl_getProgramInfoLog, gl_delete,
    programSources, modify, get, ret, throw, bind, setObjects.
  destruct (allocates host (nextHandle w)); simpl; [| discriminate].
  rewrite !lookup_alter_eq, lookup_insert_eq. simpl.
  destruct (links host _ _); simpl; [discriminate |].
  intros E. injection E as <-. eexists. reflexivity.
Qed.

Lemma render_tail_returns (program : nat) (geometryType : jsstring) :
  returns (bind (setProgramRef program) (fun _ =>
             bind (setupGeometry host program geometryType) (fun _ =>
               bind Date_now (fun now =>
                 bind (setStartTimeRef now) (fun _ => animate host))))).
Proof.
  apply returns_bind;
    [unfold setProgramRef, setRefs; returns_steps | intros _].
  apply returns_bind; [apply returns_setupGeometry | intros _].
  apply returns_bind; [unfold Date_now; returns_steps | intros now].
  apply returns_bind;
    [unfold setStartTimeRef, setRefs; returns_steps | intros _].
  apply returns_animate.
Qed.

(** X19.  [renderShader] throws one of five errors: the markers error of
    [extractVertexShader], a compilation error with the log of the
    compiler, [Failed to compile shaders], a linking error with the log of
    the linker, or [Failed to create shader program].  The error of
    [extractFragmentShader] is never thrown: when the fragment marker is
    missing, [extractVertexShader] has thrown before. *)
Theorem render_throws_one_of_five (shaderCodeText : jsstring) (w : World)
    (msg : jsstring) :
  (renderShader host shaderCodeText w).1 = Throw msg ->
  (msg = markersError
   \/ (exists log, msg = str "Shader compilation error: " ++ log)
   \/ msg = str "Failed to compile shaders"
   \/ (exists log, msg = str "Program linking error: " ++ log)
   \/ msg = str "Failed to create shader program")
  /\ msg <> fragmentMarkerError.
Proof.
  intros E.
  assert (Hmsg : msg = markersError
                 \/ (exists log, msg = str "Shader compilation error: " ++ log)
                 \/ msg = str "Failed to compile shaders"
                 \/ (exists log, msg = str "Program linking error: " ++ log)
                 \/ msg = str "Failed to create shader program").
  { unfold renderShader in E.
    destruct (canvasMounted host); cbn [negb] in E; [| discriminate].
    destruct (webglSupported host); cbn [negb] in E; [| discriminate].
    apply bind_throws in E as [E | (? & _ & E)]; [discriminate |].
    apply bind_throws in E as [E | (v & Ev & E)].
    { left. unfold liftResult, extractVertexShader in E. simpl in E.
      destruct (_ || _); congruence. }
    unfold liftResult in Ev. simpl in Ev.
    apply bind_throws in E as [E | (f & Ef & E)].
    { exfalso. unfold liftResult in E. simpl in E.
      assert (Hp : present vertexMarker shaderCodeText
                   /\ present fragmentMarker shaderCodeText)
        by (apply extractVertexShader_ok; eauto).
      destruct (proj2 (extractFragmentShader_ok shaderCodeText) (proj2 Hp))
        as [f Ef].
      congruence. }
    apply bind_throws in E as [E | (vs & _ & E)].
    { right. left. eapply createShader_throws, E. }
    apply bind_throws in E as [E | (fs & _ & E)].
    { right. left. eapply createShader_throws, E. }
    destruct vs as [vs |], fs as [fs |];
      try (right; right; left; unfold throw in E; cbn [fst] in E;
           injection E as <-; reflexivity).
    apply bind_throws in E as [E | (program & _ & E)].
    { right. right. right. left. eapply createProgram_throws, E. }
    destruct program as [program |].
    - exfalso.
      lazymatch type of E with
      | (?m ?w0).1 = _ =>
          destruct (render_tail_returns program
                      (extractGeometryType shaderCodeText) w0) as [a Ha]
      end.
      congruence.
    - right. right. right. right. unfold throw in E. cbn [fst] in E.
      injection E as <-. reflexivity. }
  split; [exact Hmsg |].
  intros ->.
  destruct Hmsg as [Hm | [(log & Hm) | [Hm | [(log & Hm) | Hm]]]];
    vm_compute in Hm; discriminate.
Qed.

(** *** One pipeline, from its start to the cleanup *)

Lemma drawCount_afterRender (w : World) (v f : jsstring)
    (vertices normals : list F) (cs : list glCall) :
  forallb (fun c => negb (isDraw c)) cs = true ->
  drawCount (afterRender w v f vertices normals cs) = S (drawCount w).
Proof.
  intros Hcs. unfold drawCount, afterRender. fields. cbn [List.filter isDraw].
  rewrite List.filter_app. cbn [length]. rewrite length_app. f_equal.
  assert (E : List.filter isDraw cs = []).
  { induction cs as [|c cs IH]; [reflexivity |]. simpl in *.
    apply andb_true_iff in Hcs as [Hc Hcs]. destruct (isDraw c);
      [discriminate | apply IH, Hcs]. }
  rewrite E. reflexivity.
Qed.

Lemma runFrames_single (times : list Z) (w : World) (p : nat) :
  canvasMounted host = true -> active w p ->
  frameRequests w = [animationRef w] ->
  S (animationRef w) = nextRequest w ->
  exists w',
    runFrames host times w = (Ok tt, w')
    /\ active w' p
    /\ frameRequests w' = [animationRef w']
    /\ S (animationRef w') = nextRequest w'
    /\ drawCount w' = (drawCount w + length times)%nat
    /\ objects w' = objects w
    /\ (animationRef w <> 0%nat -> animationRef w' <> 0%nat).
Proof.
  intros Hc. revert w.
  induction times as [|now times IH]; intros w Hact Hfr Hnext.
  - exists w. cbn [runFrames length]. repeat split; try assumption;
      try apply Hact; lia.
  - cbn [runFrames]. unfold bind at 1, runFrame. cbv beta zeta. rewrite Hfr.
    lazymatch goal with
    | |- exists w', match fold_left _ _ _ ?w0 with _ => _ end = _ /\ _ =>
        destruct (frames_active [animationRef w] (ret tt) w0 w0 p Hc
                    eq_refl Hact)
          as (w2 & E & Hact2 & Ho & _ & _ & Hf & Hr & Hlast & _ & Hd)
    end.
    rewrite E. clear E.
    cbn [frameRequests nextRequest objects] in Hf, Hr, Ho.
    cbn [length seq app] in Hf, Hr.
    specialize (Hlast ltac:(discriminate)).
    destruct (IH w2) as (w' & E' & Hact' & Hfr' & Hnext' & Hd' & Ho' & Hid').
    { exact Hact2. }
    { rewrite Hf. f_equal. lia. }
    { exact Hlast. }
    exists w'. split; [exact E' |].
    split; [exact Hact' |]. split; [exact Hfr' |]. split; [exact Hnext' |].
    split; [rewrite Hd', Hd; unfold drawCount; fields; cbn [length]; lia |].
    split; [congruence |].
    intros _. apply Hid'. lia.
Qed.

(** X20.  One pipeline stops at the cleanup.  After one successful
    [renderShader] in a context with no pending callback, any number of
    frames and then the cleanup, no registration of [animate] is left;
    the first frame was drawn by [renderShader] itself, and each later
    frame was drawn once. *)
Theorem single_pipeline_stops_at_unmount (shaderCodeText v f : jsstring)
    (w : World) (times : list Z) :
  wellFormedb w = true ->
  canvasMounted host = true -> webglSupported host = true ->
  extractVertexShader shaderCodeText = Ok v ->
  extractFragmentShader shaderCodeText = Ok f ->
  allocatesFive host (nextHandle w) = true ->
  compiles host VERTEX_SHADER v = true ->
  compiles host FRAGMENT_SHADER (fixShaderIssues f) = true ->
  links host v (fixShaderIssues f) = true ->
  frameRequests w = [] -> nextRequest w <> 0%nat ->
  exists w',
    bind (renderShader host shaderCodeText)
         (fun _ => bind (runFrames host times) (fun _ => unmount)) w
    = (Ok tt, w')
    /\ frameRequests w' = []
    /\ drawCount w' = (drawCount w + 1 + length times)%nat.
Proof.
  intros Hwf Hc Hg Hv Hf Ha Hcv Hcf Hl Hfr Hnext.
  apply wellFormedb_spec in Hwf.
  destruct (renderShader_runs shaderCodeText v f w Hwf Hc Hg Hv Hf Ha Hcv
              Hcf Hl) as (cs & E & Hcs).
  rewrite (bind_eval _ _ _ _ _ E).
  pose proof (drawCount_afterRender w v (fixShaderIssues f)
                (Geometry.getGeometryVertices
                   (extractGeometryType shaderCodeText))
                (Geometry.getGeometryNormals
                   (extractGeometryType shaderCodeText)) cs Hcs) as Hd1.
  set (w1 := afterRender _ _ _ _ _ _) in *.
  destruct (runFrames_single times w1 (S (S (nextHandle w))) Hc)
    as (w2 & E2 & _ & Hfr2 & _ & Hd2 & _ & Hid2).
  { split; reflexivity. }
  { unfold w1, afterRender. fields. rewrite Hfr. reflexivity. }
  { reflexivity. }
  rewrite (bind_eval _ _ _ _ _ E2).
  unfold unmount, bind, get.
  destruct (Nat.eqb_spec (animationRef w2) 0) as [E0 | E0];
    [exfalso; revert E0; apply Hid2; exact Hnext |].
  cbn [negb]. unfold cancelAnimationFrame, modify. fields_all.
  eexists. split; [reflexivity |]. fields_all. split.
  - rewrite Hfr2. rewrite filter_cons_False by (intros Hn; apply Hn; reflexivity).
    reflexivity.
  - unfold drawCount in *. fields_all. rewrite Hd2, Hd1. lia.
Qed.

(** *** A start without its objects *)

(** X27.  When an object cannot be allocated, [renderShader] throws after
    having kept what it had created.  Without the vertex shader object it
    throws [Failed to compile shaders] and the table is as before; without
    the fragment shader object it throws the same error and the compiled
    vertex shader stays in the table; without the program object it
    throws [Failed to create shader program] and both compiled shaders
    stay in the table. *)
Theorem null_object_aborts_the_start (shaderCodeText v f : jsstring)
    (w : World) :
  wellFormedb w = true ->
  canvasMounted host = true -> webglSupported host = true ->
  extractVertexShader shaderCodeText = Ok v ->
  extractFragmentShader shaderCodeText = Ok f ->
  (allocates host (nextHandle w) = false ->
   exists w',
     renderShader host shaderCodeText w
     = (Throw (str "Failed to compile shaders"), w')
     /\ objects w' = objects w)
  /\ (allocates host (nextHandle w) = true ->
      compiles host VERTEX_SHADER v = true ->
      allocates host (S (nextHandle w)) = false ->
      exists w',
        renderShader host shaderCodeText w
        = (Throw (str "Failed to compile shaders"), w')
        /\ objects w' !! nextHandle w
           = Some (ShaderObject VERTEX_SHADER v true))
  /\ (allocates host (nextHandle w) = true ->
      compiles host VERTEX_SHADER v = true ->
      allocates host (S (nextHandle w)) = true ->
      compiles host FRAGMENT_SHADER (fixShaderIssues f) = true ->
      allocates host (S (S (nextHandle w))) = false ->
      exists w',
        renderShader host shaderCodeText w
        = (Throw (str "Failed to create shader program"), w')
        /\ objects w' !! nextHandle w
           = Some (ShaderObject VERTEX_SHADER v true)
        /\ objects w' !! S (nextHandle w)
           = Some (ShaderObject FRAGMENT_SHADER (fixShaderIssues f) true)).
Proof.
  intros Hwfb Hc Hg Hv Hf. apply wellFormedb_spec in Hwfb.
  rewrite (renderShader_start _ v f w Hc Hg Hv Hf).
  set (w1 := (setRefs true _ _ _ _ w).2).
  change (nextHandle w) with (nextHandle w1).
  split; [| split].
  - intros Ha1.
    rewrite (bind_eval _ _ _ _ _ (createShader_null VERTEX_SHADER v w1 Ha1)).
    rewrite (bind_eval _ _ _ _ _
               (createShader_null FRAGMENT_SHADER (fixShaderIssues f) w1 Ha1)).
    eexists. split; reflexivity.
  - intros Ha1 Hcv Ha2.
    rewrite (bind_eval _ _ _ _ _
               (createShader_compiles VERTEX_SHADER v w1 Ha1 Hcv)).
    set (w2 := allocated w1 _).
    rewrite (bind_eval _ _ _ _ _
               (createShader_null FRAGMENT_SHADER (fixShaderIssues f) w2 Ha2)).
    eexists. split; [reflexivity |].
    unfold w2, allocated. fields. apply lookup_insert_eq.
  - intros Ha1 Hcv Ha2 Hcf Ha3.
    rewrite (bind_eval _ _ _ _ _
               (createShader_compiles VERTEX_SHADER v w1 Ha1 Hcv)).
    set (w2 := allocated w1 _).
    rewrite (bind_eval _ _ _ _ _
               (createShader_compiles FRAGMENT_SHADER (fixShaderIssues f) w2
                  Ha2 Hcf)).
    set (w3 := allocated w2 _). cbv iota beta.
    rewrite (bind_eval _ _ _ _ _
               (createProgram_null (nextHandle w1) (nextHandle w2) w3 Ha3)).
    eexists. split; [reflexivity |].
    unfold w3, w2, allocated. fields. split.
    + rewrite lookup_insert_ne by lia. apply lookup_insert_eq.
    + apply lookup_insert_eq.
Qed.

(** *** When a start succeeds *)

Lemma renderShader_rejected (shaderCodeText v f : jsstring) (w : World) :
  wellFormed w ->
  canvasMounted host = true -> webglSupported host = true ->
  extractVertexShader shaderCodeText = Ok v ->
  extractFragmentShader shaderCodeText = Ok f ->
  allocates host (nextHandle w) = true ->
  allocates host (S (nextHandle w)) = true ->
  allocates host (S (S (nextHandle w))) = true ->
  compiles host VERTEX_SHADER v
  && compiles host FRAGMENT_SHADER (fixShaderIssues f)
  && links host v (fixShaderIssues f) = false ->
  exists msg w', renderShader host shaderCodeText w = (Throw msg, w').
Proof.
  intros Hwf Hc Hg Hv Hf Ha1 Ha2 Ha3 Hno.
  rewrite (renderShader_start _ v f w Hc Hg Hv Hf).
  set (w1 := (setRefs true _ _ _ _ w).2).
  assert (Hwf1 : wellFormed w1) by exact Hwf.
  change (nextHandle w) with (nextHandle w1) in *.
  destruct (compiles host VERTEX_SHADER v) eqn:Hcv.
  2: { rewrite (bind_throw _ _ _ _ _
                  (createShader_rejects VERTEX_SHADER v w1 Hwf1 Ha1 Hcv)).
       eauto. }
  rewrite (bind_eval _ _ _ _ _
             (createShader_compiles VERTEX_SHADER v w1 Ha1 Hcv)).
  set (w2 := allocated w1 _).
  assert (Hwf2 : wellFormed w2) by (apply wellFormed_allocated, Hwf1).
  destruct (compiles host FRAGMENT_SHADER (fixShaderIssues f)) eqn:Hcf.
  2: { rewrite (bind_throw _ _ _ _ _
                  (createShader_rejects FRAGMENT_SHADER (fixShaderIssues f)
                     w2 Hwf2 Ha2 Hcf)).
       eauto. }
  rewrite (bind_eval _ _ _ _ _
             (createShader_compiles FRAGMENT_SHADER (fixShaderIssues f) w2
                Ha2 Hcf)).
  set (w3 := allocated w2 _).
  assert (Hwf3 : wellFormed w3) by (apply wellFormed_allocated, Hwf2).
  cbn [andb] in Hno. cbv iota beta.
  assert (Hvs : objects w3 !! nextHandle w1
                = Some (ShaderObject VERTEX_SHADER v true)).
  { unfold w3, w2, allocated. fields.
    rewrite lookup_insert_ne by lia. apply lookup_insert_eq. }
  assert (Hfs : objects w3 !! nextHandle w2
                = Some (ShaderObject FRAGMENT_SHADER (fixShaderIssues f)
                                     true)).
  { unfold w3, allocated. fields. apply lookup_insert_eq. }
  rewrite (bind_throw _ _ _ _ _
             (createProgram_rejects (nextHandle w1) (nextHandle w2) v
                (fixShaderIssues f) true true w3 Hwf3 Hvs Hfs Ha3 Hno)).
  eauto.
Qed.

(** X29.  When the canvas and WebGL are there, both markers are found and
    the five objects can be allocated, [renderShader] returns exactly when
    the vertex source compiles, the repaired fragment source compiles, and
    the two link; otherwise it throws. *)
Theorem render_returns_iff_stages_build (shaderCodeText v f : jsstring)
    (w : World) :
  wellFormedb w = true ->
  canvasMounted host = true -> webglSupported host = true ->
  extractVertexShader shaderCodeText = Ok v ->
  extractFragmentShader shaderCodeText = Ok f ->
  allocatesFive host (nextHandle w) = true ->
  ((renderShader host shaderCodeText w).1 = Ok tt
   <-> compiles host VERTEX_SHADER v
       && compiles host FRAGMENT_SHADER (fixShaderIssues f)
       && links host v (fixShaderIssues f) = true)
  /\ ((exists msg, (renderShader host shaderCodeText w).1 = Throw msg)
      <-> compiles host VERTEX_SHADER v
          && compiles host FRAGMENT_SHADER (fixShaderIssues f)
          && links host v (fixShaderIssues f) = false).
Proof.
  intros Hwf Hc Hg Hv Hf Ha. apply wellFormedb_spec in Hwf.
  pose proof Ha as Ha'. unfold allocatesFive in Ha'.
  apply andb_true_iff in Ha' as [Ha' _].
  apply andb_true_iff in Ha' as [Ha' _].
  apply andb_true_iff in Ha' as [Ha' Ha3].
  apply andb_true_iff in Ha' as [Ha1 Ha2].
  destruct (compiles host VERTEX_SHADER v
            && compiles host FRAGMENT_SHADER (fixShaderIssues f)
            && links host v (fixShaderIssues f)) eqn:Hb.
  - apply andb_true_iff in Hb as [Hb Hl].
    apply andb_true_iff in Hb as [Hcv Hcf].
    destruct (renderShader_runs shaderCodeText v f w Hwf Hc Hg Hv Hf Ha Hcv
                Hcf Hl) as (cs & -> & _).
    split; split; try reflexivity; try discriminate.
    intros (msg & Hm). discriminate.
  - destruct (renderShader_rejected shaderCodeText v f w Hwf Hc Hg Hv Hf Ha1
                Ha2 Ha3 Hb) as (msg & w' & ->).
    split; split; try reflexivity; try discriminate.
    intros _. exists msg. reflexivity.
Qed.
End Keeps.

(** *** The component run on concrete bundles *)

Lemma failed_compile_or_link_leaves_shaders_witness :
  (exists w',
     renderShader okHost badFragmentBundle startWorld
     = (Throw (str "Shader compilation error: ERROR: syntax error"), w')
     /\ objects w' !! 1%nat
        = Some (ShaderObject VERTEX_SHADER vertexSource true))
  /\ (exists w',
        renderShader okHost unlinkedBundle startWorld
        = (Throw (str "Program linking error: ERROR: link error"), w')
        /\ objects w' !! 1%nat
           = Some (ShaderObject VERTEX_SHADER vertexSource true)
        /\ objects w' !! 2%nat
           = Some (ShaderObject FRAGMENT_SHADER unlinkedFragment true)
        /\ objects w' !! 3%nat = None).
Proof.
  split.
  - apply (failed_compile_or_link_leaves_shaders okHost badFragmentBundle
             vertexSource badFragment startWorld);
      vm_compute; reflexivity.
  - apply (failed_compile_or_link_leaves_shaders okHost unlinkedBundle
             vertexSource unlinkedFragment startWorld);
      vm_compute; reflexivity.
Defined.


(** After two starts the five objects of the first pipeline are still in
    the table, two programs are live and two registrations of [animate]
    are pending. *)
Example two_starts_objects :
  map fst (map_to_list (objects firstWorld)) = [4; 2; 5; 3; 1]%nat
  /\ Forall (fun h => is_Some (objects secondWorld !! h)) [1; 2; 3; 4; 5]%nat
  /\ livePrograms secondWorld = [8; 3]%nat
  /\ programRef secondWorld = Some 8%nat
  /\ frameRequests firstWorld = [1]%nat
  /\ frameRequests secondWorld = [1; 2]%nat.
Proof.
  repeat split; try (vm_compute; reflexivity).
  repeat constructor; vm_compute; eauto.
Qed.

(** Both registrations survive a frame: each callback draws and registers
    itself again. *)
Example two_starts_two_callbacks_each_frame :
  frameRequests (runFrame okHost 16 secondWorld).2 = [3; 4]%nat
  /\ length (List.filter
               (fun c => match c with DrawArrays _ _ => true | _ => false end)
               (calls (runFrame okHost 16 secondWorld).2)) = 4%nat.
Proof. split; vm_compute; reflexivity. Qed.



(** *** Frames, creations and starts on concrete inputs *)

Lemma frame_draws_once_and_registers_again_witness :
  (animate okHost firstWorld).1 = Ok tt
  /\ (exists cs,
        calls (animate okHost firstWorld).2
        = DrawArrays 0 (vertexCountRef firstWorld) :: cs ++ calls firstWorld
        /\ In (UseProgram 3) cs
        /\ forallb (fun c => negb (isDraw c)) cs = true)
  /\ frameRequests (animate okHost firstWorld).2
     = frameRequests firstWorld ++ [nextRequest firstWorld]
  /\ animationRef (animate okHost firstWorld).2 = nextRequest firstWorld
  /\ objects (animate okHost firstWorld).2 = objects firstWorld
  /\ programRef (animate okHost firstWorld).2 = Some 3%nat.
Proof.
  apply (frame_draws_once_and_registers_again okHost firstWorld 3);
    vm_compute; reflexivity.
Defined.

Lemma frame_keeps_the_number_of_callbacks_witness :
  (runFrame okHost 16 secondWorld).1 = Ok tt
  /\ frameRequests (runFrame okHost 16 secondWorld).2
     = seq (nextRequest secondWorld) (length (frameRequests secondWorld))
  /\ drawCount (runFrame okHost 16 secondWorld).2
     = (drawCount secondWorld + length (frameRequests secondWorld))%nat
  /\ objects (runFrame okHost 16 secondWorld).2 = objects secondWorld
  /\ programRef (runFrame okHost 16 secondWorld).2 = Some 8%nat.
Proof.
  apply (frame_keeps_the_number_of_callbacks okHost 16 secondWorld 8);
    vm_compute; reflexivity.
Defined.

Lemma frame_without_canvas_ends_the_loop_witness :
  (runFrame unmountedHost 16 firstWorld).1 = Ok tt
  /\ frameRequests (runFrame unmountedHost 16 firstWorld).2 = []
  /\ calls (runFrame unmountedHost 16 firstWorld).2 = calls firstWorld
  /\ objects (runFrame unmountedHost 16 firstWorld).2 = objects firstWorld.
Proof.
  apply (frame_without_canvas_ends_the_loop unmountedHost 16 firstWorld).
  left. reflexivity.
Defined.

Lemma createShader_outcomes_witness :
  createShader exhaustedHost VERTEX_SHADER vertexSource startWorld
  = (Ok None, startWorld)
  /\ createShader okHost VERTEX_SHADER vertexSource startWorld
     = (Ok (Some (nextHandle startWorld)),
        allocated startWorld
          (<[nextHandle startWorld :=
               ShaderObject VERTEX_SHADER vertexSource true]>
             (objects startWorld)))
  /\ createShader okHost FRAGMENT_SHADER badFragment startWorld
     = (Throw (str "Shader compilation error: "
               ++ shaderInfoLog okHost FRAGMENT_SHADER badFragment),
        allocated startWorld (objects startWorld)).
Proof.
  split; [| split].
  - apply (createShader_outcomes exhaustedHost VERTEX_SHADER vertexSource
             startWorld); vm_compute; reflexivity.
  - apply (createShader_outcomes okHost VERTEX_SHADER vertexSource
             startWorld); vm_compute; reflexivity.
  - apply (createShader_outcomes okHost FRAGMENT_SHADER badFragment
             startWorld); vm_compute; reflexivity.
Defined.

Lemma createProgram_outcomes_witness :
  createProgram exhaustedHost 1 2 (compiledWorld fragmentSource)
  = (Ok None, compiledWorld fragmentSource)
  /\ createProgram okHost 1 2 (compiledWorld fragmentSource)
     = (Ok (Some (nextHandle (compiledWorld fragmentSource))),
        allocated (compiledWorld fragmentSource)
          (<[nextHandle (compiledWorld fragmentSource) :=
               ProgramObject [1; 2]%nat (Some (vertexSource, fragmentSource))]>
             (objects (compiledWorld fragmentSource))))
  /\ createProgram okHost 1 2 (compiledWorld unlinkedFragment)
     = (Throw (str "Program linking error: "
               ++ programInfoLog okHost vertexSource unlinkedFragment),
        allocated (compiledWorld unlinkedFragment)
                  (objects (compiledWorld unlinkedFragment))).
Proof.
  split; [| split].
  - apply (createProgram_outcomes exhaustedHost 1 2 vertexSource
             fragmentSource true true (compiledWorld fragmentSource));
      vm_compute; reflexivity.
  - apply (createProgram_outcomes okHost 1 2 vertexSource fragmentSource
             true true (compiledWorld fragmentSource));
      vm_compute; reflexivity.
  - apply (createProgram_outcomes okHost 1 2 vertexSource unlinkedFragment
             true true (compiledWorld unlinkedFragment));
      vm_compute; reflexivity.
Defined.



Lemma render_throws_one_of_five_witness :
  (str "Shader compilation error: ERROR: syntax error" = markersError
   \/ (exists log,
         str "Shader compilation error: ERROR: syntax error"
         = str "Shader compilation error: " ++ log)
   \/ str "Shader compilation error: ERROR: syntax error"
      = str "Failed to compile shaders"
   \/ (exists log,
         str "Shader compilation error: ERROR: syntax error"
         = str "Program linking error: " ++ log)
   \/ str "Shader compilation error: ERROR: syntax error"
      = str "Failed to create shader program")
  /\ str "Shader compilation error: ERROR: syntax error"
     <> fragmentMarkerError.
Proof.
  apply (render_throws_one_of_five okHost badFragmentBundle startWorld
           (str "Shader compilation error: ERROR: syntax error")).
  vm_compute. reflexivity.
Defined.

Lemma single_pipeline_stops_at_unmount_witness :
  exists w',
    bind (renderShader okHost goodBundle)
         (fun _ => bind (runFrames okHost [16; 32]) (fun _ => unmount))
         startWorld
    = (Ok tt, w')
    /\ frameRequests w' = []
    /\ drawCount w' = (drawCount startWorld + 1 + length [16; 32])%nat.
Proof.
  apply (single_pipeline_stops_at_unmount okHost goodBundle vertexSource
           fragmentSource startWorld [16; 32]);
    try (vm_compute; reflexivity).
  vm_compute. discriminate.
Defined.

(** With two pipelines started, the cleanup cancels the callback of the
    second one only: the callback of the first one stays registered. *)
Example two_starts_one_callback_survives_unmount :
  frameRequests secondWorld = [1; 2]%nat
  /\ frameRequests (unmount secondWorld).2 = [1]%nat.
Proof. split; vm_compute; reflexivity. Qed.

Lemma null_object_aborts_the_start_witness :
  (exists w',
     renderShader (limitedHost 0) goodBundle startWorld
     = (Throw (str "Failed to compile shaders"), w')
     /\ objects w' = objects startWorld)
  /\ (exists w',
        renderShader (limitedHost 1) goodBundle startWorld
        = (Throw (str "Failed to compile shaders"), w')
        /\ objects w' !! nextHandle startWorld
           = Some (ShaderObject VERTEX_SHADER vertexSource true))
  /\ (exists w',
        renderShader (limitedHost 2) goodBundle startWorld
        = (Throw (str "Failed to create shader program"), w')
        /\ objects w' !! nextHandle startWorld
           = Some (ShaderObject VERTEX_SHADER vertexSource true)
        /\ objects w' !! S (nextHandle startWorld)
           = Some (ShaderObject FRAGMENT_SHADER
                     (fixShaderIssues fragmentSource) true)).
Proof.
  split; [| split].
  - apply (null_object_aborts_the_start (limitedHost 0) goodBundle
             vertexSource fragmentSource startWorld);
      vm_compute; reflexivity.
  - apply (null_object_aborts_the_start (limitedHost 1) goodBundle
             vertexSource fragmentSource startWorld);
      vm_compute; reflexivity.
  - apply (null_object_aborts_the_start (limitedHost 2) goodBundle
             vertexSource fragmentSource startWorld);
      vm_compute; reflexivity.
Defined.

Lemma render_returns_iff_stages_build_witness :
  ((renderShader okHost unlinkedBundle startWorld).1 = Ok tt
   <-> compiles okHost VERTEX_SHADER vertexSource
       && compiles okHost FRAGMENT_SHADER (fixShaderIssues unlinkedFragment)
       && links okHost vertexSource (fixShaderIssues unlinkedFragment) = true)
  /\ ((exists msg,
         (renderShader okHost unlinkedBundle startWorld).1 = Throw msg)
      <-> compiles okHost VERTEX_SHADER vertexSource
          && compiles okHost FRAGMENT_SHADER (fixShaderIssues unlinkedFragment)
          && links okHost vertexSource (fixShaderIssues unlinkedFragment)
          = false).
Proof.
  apply (render_returns_iff_stages_build okHost unlinkedBundle vertexSource
           unlinkedFragment startWorld); vm_compute; reflexivity.
Defined.
End PipelineFacts.
(** ** The normalizer *)

Module NormalizerFacts.

(** *** White space and [trim] *)

Lemma takeWhile_dropWhile (p : ascii -> bool) (s : jsstring) :
  takeWhile p s ++ dropWhile p s = s.
Proof.
  induction s as [|c s IH]; simpl; [reflexivity |].
  destruct (p c); simpl; [rewrite IH |]; reflexivity.
Qed.

Lemma forallb_takeWhile (p : ascii -> bool) (s : jsstring) :
  forallb p (takeWhile p s) = true.
Proof.
  induction s as [|c s IH]; simpl; [reflexivity |].
  destruct (p c) eqn:E; simpl; [rewrite E; exact IH | reflexivity].
Qed.

Lemma stops_dropWhile (p : ascii -> bool) (s : jsstring) :
  stops p (dropWhile p s) = true.
Proof.
  induction s as [|c s IH]; simpl; [reflexivity |].
  destruct (p c) eqn:E; simpl; [exact IH | rewrite E; reflexivity].
Qed.

Lemma dropWhile_stops (p : ascii -> bool) (s : jsstring) :
  stops p s = true -> dropWhile p s = s.
Proof.
  destruct s as [|c s]; simpl; [reflexivity |].
  destruct (p c); [discriminate | reflexivity].
Qed.

(** A run of characters of the class, then a text that does not start
    with one: [dropWhile] gives the text. *)
Lemma dropWhile_app (p : ascii -> bool) (u v : jsstring) :
  forallb p u = true -> stops p v = true -> dropWhile p (u ++ v) = v.
Proof.
  intros Hu Hv. induction u as [|c u IH]; simpl.
  - apply dropWhile_stops, Hv.
  - simpl in Hu. apply andb_true_iff in Hu as [Hc Hu]. rewrite Hc.
    apply IH, Hu.
Qed.

Lemma stops_app (p : ascii -> bool) (u v : jsstring) :
  u <> [] -> stops p (u ++ v) = stops p u.
Proof. destruct u; [congruence | reflexivity]. Qed.

Lemma trimEnd_stops (s : jsstring) :
  stops isSpace (rev s) = true -> trimEnd s = s.
Proof.
  intros Hs. unfold trimEnd. rewrite dropWhile_stops by exact Hs.
  apply rev_involutive.
Qed.

(** A text is trimmed when it neither starts nor ends with white space. *)
Lemma trim_trimmed (s : jsstring) : trimmed s = true -> trim s = s.
Proof.
  unfold trimmed. intros H. apply andb_true_iff in H as [Hh Hl].
  unfold trim, trimStart. rewrite dropWhile_stops by exact Hh.
  apply trimEnd_stops, Hl.
Qed.

Lemma stops_rev_trimEnd (s : jsstring) :
  stops isSpace (rev (trimEnd s)) = true.
Proof. unfold trimEnd. rewrite rev_involutive. apply stops_dropWhile. Qed.

Lemma dropWhile_snoc (p : ascii -> bool) (s : jsstring) (c : ascii) :
  p c = false ->
  exists u, dropWhile p (s ++ [c]) = u ++ [c].
Proof.
  intros Hc. induction s as [|a s IH]; simpl.
  - rewrite Hc. exists []. reflexivity.
  - destruct (p a); [exact IH |]. exists (a :: s). reflexivity.
Qed.

Lemma stops_trimEnd (s : jsstring) :
  stops isSpace s = true -> stops isSpace (trimEnd s) = true.
Proof.
  destruct s as [|c s]; [intros _; reflexivity |].
  simpl. intros Hc. destruct (isSpace c) eqn:E; [discriminate |].
  unfold trimEnd. simpl rev.
  destruct (dropWhile_snoc isSpace (rev s) c E) as [u ->].
  rewrite rev_app_distr. simpl. rewrite E. reflexivity.
Qed.

Lemma trimmed_trim (s : jsstring) : trimmed (trim s) = true.
Proof.
  unfold trimmed, trim. apply andb_true_iff. split.
  - apply stops_trimEnd. apply stops_dropWhile.
  - apply stops_rev_trimEnd.
Qed.

Lemma trim_idempotent (s : jsstring) : trim (trim s) = trim s.
Proof. apply trim_trimmed, trimmed_trim. Qed.

Lemma trimmed_app (u v : jsstring) :
  u <> [] -> v <> [] -> stops isSpace u = true ->
  stops isSpace (rev v) = true -> trimmed (u ++ v) = true.
Proof.
  intros Hu Hv Hh Hl. unfold trimmed. apply andb_true_iff. split.
  - rewrite stops_app by exact Hu. exact Hh.
  - rewrite rev_app_distr, stops_app; [exact Hl |].
    intros E. apply Hv. rewrite <- (rev_involutive v), E. reflexivity.
Qed.

Lemma trimmed_last (v : jsstring) :
  trimmed v = true -> stops isSpace (rev v) = true.
Proof. unfold trimmed. intros H. apply andb_true_iff in H. tauto. Qed.

Lemma trimmed_first (v : jsstring) :
  trimmed v = true -> stops isSpace v = true.
Proof. unfold trimmed. intros H. apply andb_true_iff in H. tauto. Qed.

(** [trim] of a line feed followed by a trimmed text. *)
Lemma trim_nl_trimmed (v : jsstring) : trimmed v = true -> trim (nl ++ v) = v.
Proof.
  intros Hv. unfold trim, trimStart. simpl.
  rewrite dropWhile_stops by (apply trimmed_first, Hv).
  apply trimEnd_stops, trimmed_last, Hv.
Qed.

(** *** The regular expression of the precision statement *)

Lemma space_not_word (c : ascii) : isSpace c = true -> isWord c = false.
Proof.
  destruct c as [[] [] [] [] [] [] [] []]; vm_compute; congruence.
Qed.

Lemma word_not_space (c : ascii) : isWord c = true -> isSpace c = false.
Proof.
  intros Hw. destruct (isSpace c) eqn:E; [| reflexivity].
  apply space_not_word in E. congruence.
Qed.

(** A greedy repetition followed by a pattern that cannot start with a
    character of the class takes the whole run: no shorter run lets the
    rest match. *)
Lemma starK_greedy {R} (p : ascii -> bool) (k : jsstring -> option R)
    (s : jsstring) :
  (forall c s', p c = true -> k (c :: s') = None) ->
  starK p k s = k (dropWhile p s).
Proof.
  intros Hrej. induction s as [|c s IH]; simpl; [reflexivity |].
  destruct (p c) eqn:E; [| reflexivity].
  rewrite IH. destruct (k (dropWhile p s)) eqn:Ek; [reflexivity |].
  apply Hrej, E.
Qed.

Lemma drop_length_app (l s : jsstring) : drop (length l) (l ++ s) = s.
Proof. apply drop_app_length. Qed.

Lemma matchAtoms_lit (l : jsstring) (r : list atom) (s rest : jsstring) :
  matchAtoms (ALit l :: r) s = Some rest
  <-> exists s1, s = l ++ s1 /\ matchAtoms r s1 = Some rest.
Proof.
  simpl. split.
  - destruct (startsWith l s) eqn:E; [| discriminate].
    apply startsWith_spec in E as [s1 ->]. rewrite drop_length_app. eauto.
  - intros (s1 & -> & H). rewrite startsWith_app, drop_length_app. exact H.
Qed.

Lemma rejects_stops (r : list atom) (p : ascii -> bool) (s rest : jsstring) :
  rejects r p -> matchAtoms r s = Some rest -> stops p s = true.
Proof.
  intros Hrej Hm. destruct s as [|c s]; [reflexivity |]. simpl.
  destruct (p c) eqn:E; [| reflexivity].
  rewrite (Hrej c s E) in Hm. discriminate.
Qed.

Lemma matchAtoms_star (p : ascii -> bool) (r : list atom)
    (s rest : jsstring) :
  rejects r p ->
  matchAtoms (AStar p :: r) s = Some rest
  <-> exists u s1, s = u ++ s1 /\ forallb p u = true
                   /\ matchAtoms r s1 = Some rest.
Proof.
  intros Hrej. simpl. rewrite (starK_greedy p (matchAtoms r) s Hrej). split.
  - intros H. exists (takeWhile p s), (dropWhile p s).
    rewrite takeWhile_dropWhile, forallb_takeWhile. auto.
  - intros (u & s1 & -> & Hu & H).
    rewrite dropWhile_app; [exact H | exact Hu |].
    eapply rejects_stops; eassumption.
Qed.

Lemma matchAtoms_plus (p : ascii -> bool) (r : list atom)
    (s rest : jsstring) :
  rejects r p ->
  matchAtoms (APlus p :: r) s = Some rest
  <-> exists u s1, s = u ++ s1 /\ u <> [] /\ forallb p u = true
                   /\ matchAtoms r s1 = Some rest.
Proof.
  intros Hrej. simpl. split.
  - destruct s as [|c s]; [discriminate |].
    destruct (p c) eqn:E; [| discriminate].
    rewrite (starK_greedy p (matchAtoms r) s Hrej). intros H.
    exists (c :: takeWhile p s), (dropWhile p s). simpl.
    rewrite takeWhile_dropWhile, forallb_takeWhile, E. auto.
  - intros (u & s1 & -> & Hne & Hu & H).
    destruct u as [|c u]; [congruence |]. simpl in *.
    apply andb_true_iff in Hu as [Hc Hu]. rewrite Hc.
    rewrite (starK_greedy p (matchAtoms r) _ Hrej).
    rewrite dropWhile_app; [exact H | exact Hu |].
    eapply rejects_stops; eassumption.
Qed.

Lemma rejects_plus (q p : ascii -> bool) (r : list atom) :
  (forall c, p c = true -> q c = false) -> rejects (APlus q :: r) p.
Proof. intros H c s Hc. simpl. rewrite (H c Hc). reflexivity. Qed.

Lemma rejects_lit (a : ascii) (l : jsstring) (r : list atom)
    (p : ascii -> bool) :
  p a = false -> rejects (ALit (a :: l) :: r) p.
Proof.
  intros Ha c s Hc. simpl.
  destruct (ascii_eqb a c) eqn:E; [| reflexivity].
  apply ascii_eqb_true in E. congruence.
Qed.

(** What [precisionRe] matches at the start of a text: a precision
    statement, and nothing else. *)
Lemma matchAtoms_precisionRe (s rest : jsstring) :
  matchAtoms precisionRe s = Some rest
  <-> exists m, isStatement m /\ s = m ++ rest.
Proof.
  unfold precisionRe.
  rewrite matchAtoms_lit.
  setoid_rewrite matchAtoms_plus;
    [| apply rejects_plus, space_not_word].
  setoid_rewrite matchAtoms_plus;
    [| apply rejects_plus, word_not_space].
  setoid_rewrite matchAtoms_plus;
    [| apply rejects_lit; reflexivity].
  setoid_rewrite matchAtoms_lit.
  setoid_rewrite matchAtoms_star;
    [| apply rejects_lit; reflexivity].
  setoid_rewrite matchAtoms_lit.
  unfold isStatement. simpl matchAtoms. split.
  - intros (s1 & -> & ws1 & s2 & -> & N1 & W1 & w & s3 & -> & Nw & Ww
            & ws2 & s4 & -> & N2 & W2 & s5 & -> & ws3 & s6 & -> & W3
            & s7 & -> & E).
    injection E as ->.
    eexists. split; [exists ws1, w, ws2, ws3; repeat split; eauto |].
    rewrite <- !app_assoc. reflexivity.
  - intros (m & (ws1 & w & ws2 & ws3 & -> & N1 & W1 & Nw & Ww & N2 & W2 & W3)
            & ->).
    rewrite <- !app_assoc.
    repeat (eexists; repeat (split; [first [reflexivity | eassumption] |]));
      try reflexivity.
Qed.

Lemma matchAt_statement (s m : jsstring) :
  matchAt precisionRe s = Some m ->
  isStatement m /\ exists rest, s = m ++ rest.
Proof.
  unfold matchAt. destruct (matchAtoms precisionRe s) as [rest |] eqn:E;
    [| discriminate].
  apply matchAtoms_precisionRe in E as (m' & Hm & ->).
  intros E. injection E as <-.
  rewrite length_app, Nat.add_sub, take_app_length. eauto.
Qed.

(** The match does not depend on what follows the statement. *)
Lemma matchAt_stable (m rest : jsstring) :
  isStatement m -> matchAt precisionRe (m ++ rest) = Some m.
Proof.
  intros Hm. unfold matchAt.
  assert (E : matchAtoms precisionRe (m ++ rest) = Some rest)
    by (apply matchAtoms_precisionRe; eauto).
  rewrite E, length_app, Nat.add_sub, take_app_length. reflexivity.
Qed.

Lemma regexMatch_matchAt (r : list atom) (s m : jsstring) :
  matchAt r s = Some m -> regexMatch r s = Some m.
Proof. intros E. destruct s; simpl; rewrite E; reflexivity. Qed.

Lemma regexMatch_found (r : list atom) (s m : jsstring) :
  regexMatch r s = Some m ->
  exists pre post, s = pre ++ post /\ matchAt r post = Some m.
Proof.
  induction s as [|c s IH]; simpl.
  - destruct (matchAt r []) eqn:E; [| discriminate].
    intros E'. injection E' as ->. exists [], []. auto.
  - destruct (matchAt r (c :: s)) eqn:E.
    + intros E'. injection E' as ->. exists [], (c :: s). auto.
    + intros H. destruct (IH H) as (pre & post & -> & Hm).
      exists (c :: pre), post. auto.
Qed.

Lemma regexMatch_statement (s m : jsstring) :
  regexMatch precisionRe s = Some m ->
  isStatement m /\ exists pre post, s = pre ++ m ++ post.
Proof.
  intros H. apply regexMatch_found in H as (pre & post & -> & Hm).
  apply matchAt_statement in Hm as [Hst [rest ->]]. eauto.
Qed.

Lemma regexMatch_stable (m rest : jsstring) :
  isStatement m -> regexMatch precisionRe (m ++ rest) = Some m.
Proof. intros Hm. apply regexMatch_matchAt, matchAt_stable, Hm. Qed.

(** *** Statements *)

Lemma statement_prefix (m : jsstring) :
  isStatement m -> exists r, m = str "precision" ++ r.
Proof. intros (ws1 & w & ws2 & ws3 & -> & _). eauto. Qed.

Lemma statement_first (m : jsstring) :
  isStatement m -> m <> [] /\ stops isSpace m = true.
Proof. intros H. apply statement_prefix in H as [r ->]. split; easy. Qed.

Lemma statement_last (m : jsstring) :
  isStatement m -> stops isSpace (rev m) = true.
Proof.
  intros (ws1 & w & ws2 & ws3 & -> & _).
  rewrite !app_assoc, rev_app_distr. reflexivity.
Qed.

Lemma includes_prefix (p r : jsstring) : includes (p ++ r) p = true.
Proof. apply includes_present. exists [], r. reflexivity. Qed.

Lemma includes_app_l (a b p : jsstring) :
  includes a p = true -> includes (a ++ b) p = true.
Proof.
  rewrite !includes_present. intros (pre & post & ->).
  exists pre, (post ++ b). rewrite <- !app_assoc. reflexivity.
Qed.

Lemma statement_includes (m : jsstring) :
  isStatement m -> includes m (str "precision") = true.
Proof.
  intros H. apply statement_prefix in H as [r ->]. apply includes_prefix.
Qed.

Lemma indexOf_prefix (p r : jsstring) : indexOf (p ++ r) p = 0.
Proof.
  unfold indexOf. destruct (p ++ r) eqn:E; simpl; rewrite <- E;
    rewrite startsWith_app; reflexivity.
Qed.

(** [replace] takes a prefix off. *)
Lemma replace_prefix (p r : jsstring) : replace (p ++ r) p [] = r.
Proof.
  unfold replace. rewrite indexOf_prefix. simpl. apply drop_length_app.
Qed.

(** *** Occurrences across a line feed *)

Lemma singleLine_cons (c : ascii) (p : jsstring) :
  singleLine (c :: p) = true -> c <> LF /\ singleLine p = true.
Proof.
  unfold singleLine. simpl. intros H. apply andb_true_iff in H as [Hc Hp].
  split; [| exact Hp]. intros ->. discriminate.
Qed.

(** A text without line feed that starts a text with a line feed starts
    the part before it. *)
Lemma prefix_before_nl (p post a b : jsstring) :
  singleLine p = true -> p ++ post = a ++ LF :: b -> exists r, a = p ++ r.
Proof.
  revert a. induction p as [|c p IH]; intros a Hp E; [eauto |].
  apply singleLine_cons in Hp as [Hc Hp].
  destruct a as [|x a]; simpl in E; injection E as -> E; [congruence |].
  destruct (IH a Hp E) as [r ->]. eauto.
Qed.

Lemma present_across_nl (p a b : jsstring) :
  singleLine p = true ->
  present p (a ++ LF :: b) <-> present p a \/ present p b.
Proof.
  intros Hp. split.
  - intros (pre & post & E). revert a E.
    induction pre as [|x pre IH]; intros a E; simpl in E.
    + symmetry in E. destruct (prefix_before_nl p post a b Hp E) as [r ->].
      left. exists [], r. reflexivity.
    + destruct a as [|y a]; simpl in E; injection E as <- E.
      * right. exists pre, post. exact E.
      * destruct (IH a E) as [(pre' & post' & ->) | Hb]; [| right; exact Hb].
        left. exists (y :: pre'), post'. reflexivity.
  - intros [(pre & post & ->) | (pre & post & ->)].
    + exists pre, (post ++ LF :: b). rewrite <- !app_assoc. reflexivity.
    + exists (a ++ LF :: pre), post. rewrite <- !app_assoc. reflexivity.
Qed.

Lemma includes_across_nl (p a b : jsstring) :
  singleLine p = true ->
  includes (a ++ nl ++ b) p = includes a p || includes b p.
Proof.
  intros Hp. apply eq_true_iff_eq.
  rewrite orb_true_iff, !includes_present. apply present_across_nl, Hp.
Qed.

(** *** Lines *)

Lemma splitLines_nonempty (s : jsstring) : splitLines s <> [].
Proof.
  induction s as [|c s IH]; simpl; [discriminate |].
  destruct (ascii_eqb c LF); [discriminate |].
  destruct (splitLines s); discriminate.
Qed.

Lemma splitLines_app_nl (a b : jsstring) :
  singleLine a = true -> splitLines (a ++ nl ++ b) = a :: splitLines b.
Proof.
  intros Ha. induction a as [|c a IH]; simpl; [reflexivity |].
  unfold singleLine in Ha. simpl in Ha.
  apply andb_true_iff in Ha as [Hc Ha]. apply negb_true_iff in Hc.
  rewrite Hc. simpl in IH. rewrite (IH Ha). reflexivity.
Qed.

Lemma joinLines_cons (l : jsstring) (ls : list jsstring) :
  ls <> [] -> joinLines (l :: ls) = l ++ nl ++ joinLines ls.
Proof. destruct ls; [congruence | reflexivity]. Qed.

Lemma joinLines_splitLines (s : jsstring) : joinLines (splitLines s) = s.
Proof.
  induction s as [|c s IH]; simpl; [reflexivity |].
  destruct (ascii_eqb c LF) eqn:E.
  - apply ascii_eqb_true in E as ->.
    rewrite joinLines_cons by apply splitLines_nonempty. rewrite IH.
    reflexivity.
  - pose proof (splitLines_nonempty s) as Hne.
    destruct (splitLines s) as [|l ls]; [congruence |].
    destruct ls as [|l' ls]; simpl in *; rewrite <- IH; reflexivity.
Qed.

(** *** The precision step and the insertion on a text in normal shape

    The normal shape is [stmt ++ nl ++ body]: a precision statement, a
    line feed and a trimmed body. *)

Lemma defaultPrecision_statement : isStatement defaultPrecision.
Proof.
  exists (str " "), (str "mediump"), (str " "), [].
  repeat split; try reflexivity; discriminate.
Qed.

Lemma stops_rev_nl_body (body : jsstring) :
  body <> [] -> trimmed body = true ->
  stops isSpace (rev (nl ++ body)) = true.
Proof.
  intros Hne Hb. rewrite rev_app_distr, stops_app.
  - apply trimmed_last, Hb.
  - intros E. apply Hne. rewrite <- (rev_involutive body), E. reflexivity.
Qed.

Lemma trim_canonical (stmt body : jsstring) :
  isStatement stmt -> body <> [] -> trimmed body = true ->
  trim (stmt ++ nl ++ body) = stmt ++ nl ++ body.
Proof.
  intros Hs Hne Hb. destruct (statement_first stmt Hs) as [Hs1 Hs2].
  apply trim_trimmed, trimmed_app;
    [exact Hs1 | discriminate | exact Hs2 |].
  apply stops_rev_nl_body; assumption.
Qed.

Lemma trim_statement_nl (stmt : jsstring) :
  isStatement stmt -> trim (stmt ++ nl) = stmt.
Proof.
  intros Hs. destruct (statement_first stmt Hs) as [Hs1 Hs2].
  unfold trim, trimStart.
  rewrite dropWhile_stops by (rewrite stops_app; assumption).
  unfold trimEnd. rewrite rev_app_distr. simpl.
  rewrite dropWhile_stops by (apply statement_last, Hs).
  apply rev_involutive.
Qed.

Lemma ensurePrecision_canonical (stmt body : jsstring) :
  isStatement stmt -> trimmed body = true ->
  ensurePrecision (stmt ++ nl ++ body) = stmt ++ nl ++ body.
Proof.
  intros Hs Hb. unfold ensurePrecision.
  rewrite (includes_app_l _ _ _ (statement_includes stmt Hs)). cbn [negb].
  rewrite (regexMatch_stable stmt _ Hs), replace_prefix.
  rewrite trim_nl_trimmed by exact Hb. reflexivity.
Qed.

Lemma ensurePrecision_statement (stmt : jsstring) :
  isStatement stmt -> ensurePrecision stmt = stmt ++ nl.
Proof.
  intros Hs. unfold ensurePrecision.
  rewrite (statement_includes stmt Hs). cbn [negb].
  pose proof (regexMatch_stable stmt [] Hs) as E.
  pose proof (replace_prefix stmt []) as R.
  rewrite app_nil_r in E, R. rewrite E, R. reflexivity.
Qed.

Lemma insertDeclarations_none (s : jsstring) :
  uniformDeclarations s = [] -> insertDeclarations s = s.
Proof. intros E. unfold insertDeclarations. rewrite E. reflexivity. Qed.

(** The declarations go on the line after a statement that stands on one
    line. *)
Lemma insertDeclarations_canonical (stmt body : jsstring) :
  isStatement stmt -> singleLine stmt = true ->
  uniformDeclarations (stmt ++ nl ++ body) <> [] ->
  insertDeclarations (stmt ++ nl ++ body)
  = stmt ++ nl ++ trim (uniformDeclarations (stmt ++ nl ++ body))
    ++ nl ++ body.
Proof.
  intros Hs Hl HD. unfold insertDeclarations.
  destruct (uniformDeclarations (stmt ++ nl ++ body)) as [|d D] eqn:E;
    [congruence |].
  rewrite splitLines_app_nl by exact Hl.
  unfold findIndex. cbn [findIndexFrom].
  rewrite (statement_includes stmt Hs). cbn [Z.eqb negb].
  unfold spliceInsert. change (Z.to_nat (0 + 1)) with 1%nat.
  change (take 1 (stmt :: splitLines body)) with [stmt].
  change (drop 1 (stmt :: splitLines body)) with (splitLines body).
  cbn [app].
  rewrite joinLines_cons by discriminate.
  rewrite joinLines_cons by apply splitLines_nonempty.
  rewrite joinLines_splitLines. reflexivity.
Qed.

(** *** The declarations queued after an insertion *)

Lemma uniformDeclarations_declsOf (s : jsstring) :
  uniformDeclarations s
  = declsOf (needsTimeUniform s) (needsResolutionUniform s)
            (needsVNormalVarying s) (needsVPositionVarying s).
Proof. reflexivity. Qed.

Lemma declsOf_nil (b1 b2 b3 b4 : bool) :
  declsOf b1 b2 b3 b4 = [] <-> b1 = false /\ b2 = false /\ b3 = false
                              /\ b4 = false.
Proof.
  destruct b1, b2, b3, b4; split; intros H;
    try discriminate; try tauto; try reflexivity;
    destruct H as (? & ? & ? & ?); discriminate.
Qed.

(** What the block of declarations holds: the identifier and the
    declaration of each queued test, and of no other. *)
Lemma declsOf_includes (b1 b2 b3 b4 : bool) :
  let d := trim (declsOf b1 b2 b3 b4) in
  includes d (str "time") = b1
  /\ includes d (str "uniform float time") = b1
  /\ includes d (str "resolution") = b2
  /\ includes d (str "uniform vec2 resolution") = b2
  /\ includes d (str "vNormal") = b3
  /\ includes d (str "varying vec3 vNormal") = b3
  /\ includes d (str "vPosition") = b4
  /\ includes d (str "varying vec3 vPosition") = b4.
Proof. destruct b1, b2, b3, b4; vm_compute; tauto. Qed.

Lemma declsOf_trim_nonempty (b1 b2 b3 b4 : bool) :
  declsOf b1 b2 b3 b4 <> [] -> trim (declsOf b1 b2 b3 b4) <> [].
Proof. destruct b1, b2, b3, b4; vm_compute; congruence. Qed.

Lemma needs_after (A B A' B' : bool) :
  let b := (A || B) && negb (A' || B') in
  (A || (b || B)) && negb (A' || (b || B')) = false.
Proof. destruct A, B, A', B'; reflexivity. Qed.

Lemma uniformDeclarations_after (stmt body : jsstring) :
  uniformDeclarations
    (stmt ++ nl ++ trim (uniformDeclarations (stmt ++ nl ++ body))
     ++ nl ++ body) = [].
Proof.
  rewrite (uniformDeclarations_declsOf (stmt ++ nl ++ body)).
  set (b1 := needsTimeUniform (stmt ++ nl ++ body)).
  set (b2 := needsResolutionUniform (stmt ++ nl ++ body)).
  set (b3 := needsVNormalVarying (stmt ++ nl ++ body)).
  set (b4 := needsVPositionVarying (stmt ++ nl ++ body)).
  destruct (declsOf_includes b1 b2 b3 b4)
    as (I1 & I2 & I3 & I4 & I5 & I6 & I7 & I8).
  rewrite uniformDeclarations_declsOf. apply declsOf_nil.
  unfold needsTimeUniform, needsResolutionUniform, needsVNormalVarying,
    needsVPositionVarying.
  rewrite !includes_across_nl by reflexivity.
  rewrite I1, I2, I3, I4, I5, I6, I7, I8.
  unfold b1, b2, b3, b4, needsTimeUniform, needsResolutionUniform,
    needsVNormalVarying, needsVPositionVarying.
  rewrite !includes_across_nl by reflexivity.
  repeat split; apply needs_after.
Qed.

(** *** Texts that [fixShaderIssues] leaves as they are *)

Lemma fix_canonical (stmt body : jsstring) :
  isStatement stmt -> body <> [] -> trimmed body = true ->
  uniformDeclarations (stmt ++ nl ++ body) = [] ->
  fixShaderIssues (stmt ++ nl ++ body) = stmt ++ nl ++ body.
Proof.
  intros Hs Hne Hb HD. unfold fixShaderIssues.
  rewrite trim_canonical, ensurePrecision_canonical by assumption.
  apply insertDeclarations_none, HD.
Qed.

Lemma fix_statement_nl (stmt : jsstring) :
  isStatement stmt -> uniformDeclarations (stmt ++ nl) = [] ->
  fixShaderIssues (stmt ++ nl) = stmt ++ nl.
Proof.
  intros Hs HD. unfold fixShaderIssues.
  rewrite trim_statement_nl, ensurePrecision_statement by assumption.
  apply insertDeclarations_none, HD.
Qed.

(** The second run, after a first run whose precision step gave a text in
    normal shape. *)
Lemma fix_after_canonical (stmt body : jsstring) :
  isStatement stmt -> singleLine stmt = true -> trimmed body = true ->
  body <> [] \/ uniformDeclarations (stmt ++ nl ++ body) = [] ->
  fixShaderIssues (insertDeclarations (stmt ++ nl ++ body))
  = insertDeclarations (stmt ++ nl ++ body).
Proof.
  intros Hs Hl Hb Hor.
  destruct (uniformDeclarations (stmt ++ nl ++ body)) as [|d D] eqn:HD.
  - rewrite insertDeclarations_none by exact HD.
    destruct body as [|c body].
    + apply fix_statement_nl; assumption.
    + apply fix_canonical; [exact Hs | discriminate | exact Hb | exact HD].
  - destruct Hor as [Hne | ?]; [| discriminate].
    assert (HD' : uniformDeclarations (stmt ++ nl ++ body) <> [])
      by (rewrite HD; discriminate).
    assert (Hd : trim (uniformDeclarations (stmt ++ nl ++ body)) <> []).
    { rewrite uniformDeclarations_declsOf. apply declsOf_trim_nonempty.
      rewrite <- uniformDeclarations_declsOf. exact HD'. }
    rewrite insertDeclarations_canonical by assumption.
    apply fix_canonical.
    + exact Hs.
    + intros E. apply app_eq_nil in E as [E _]. exact (Hd E).
    + apply trimmed_app.
      * exact Hd.
      * discriminate.
      * apply trimmed_first, trimmed_trim.
      * apply stops_rev_nl_body; assumption.
    + apply uniformDeclarations_after.
Qed.

(** *** Insertion into a text without precision statement

    When ["precision"] occurs in the text but no precision statement does,
    the declarations go after the first line that holds the word.  The
    block of declarations cannot complete a precision statement, so the
    second run finds the text as the first run left it. *)

Lemma regexMatch_app (pre post m : jsstring) :
  matchAt precisionRe post = Some m ->
  exists m', regexMatch precisionRe (pre ++ post) = Some m'.
Proof.
  intros Hm. induction pre as [|c pre IH]; simpl.
  - exists m. apply regexMatch_matchAt, Hm.
  - destruct (matchAt precisionRe (c :: pre ++ post)); eauto.
Qed.

Lemma regexMatch_none_iff (s : jsstring) :
  regexMatch precisionRe s = None <-> ~ hasStatement s.
Proof.
  split.
  - intros Hn (pre & m & post & -> & Hm).
    destruct (regexMatch_app pre (m ++ post) m (matchAt_stable m post Hm))
      as [m' E].
    congruence.
  - intros Hn. destruct (regexMatch precisionRe s) as [m |] eqn:E;
      [| reflexivity].
    exfalso. apply Hn.
    apply regexMatch_statement in E as (Hm & pre & post & ->).
    exists pre, m, post. auto.
Qed.

(** Where a line feed falls in a concatenation. *)
Lemma cut_app (A B k k3 : jsstring) :
  A ++ B = k ++ LF :: k3 ->
  (exists k1, A = k ++ LF :: k1 /\ k3 = k1 ++ B)
  \/ (exists k0, k = A ++ k0 /\ B = k0 ++ LF :: k3).
Proof.
  intros E. apply app_eq_inv in E as [(k0 & -> & E) | (k0 & -> & E)].
  - destruct k0 as [|c k0]; simpl in E.
    + right. exists [].
      split; [rewrite !app_nil_r; reflexivity | symmetry; exact E].
    + injection E as <- ->. left. exists k0. auto.
  - right. exists k0. auto.
Qed.

Lemma singleLine_no_cut (A k k1 : jsstring) :
  singleLine A = true -> A <> k ++ LF :: k1.
Proof.
  intros HA ->. unfold singleLine in HA. rewrite forallb_app in HA.
  apply andb_true_iff in HA as [_ HA]. cbn [forallb] in HA.
  apply andb_true_iff in HA as [HA _]. vm_compute in HA. discriminate.
Qed.

Lemma forallb_cut (p : ascii -> bool) (A k k1 : jsstring) :
  forallb p A = true -> A = k ++ LF :: k1 ->
  p LF = true /\ forallb p k1 = true.
Proof.
  intros HA ->. rewrite forallb_app in HA.
  apply andb_true_iff in HA as [_ HA]. cbn [forallb] in HA.
  apply andb_true_iff in HA. exact HA.
Qed.

(** A statement cut at a line feed: what follows the line feed is matched
    by the rest of the pattern, from the run of white space in which the
    line feed stands. *)
Lemma statement_cut (m k k3 tail : jsstring) :
  isStatement m -> m = k ++ LF :: k3 ->
  matchAtoms afterFirstSpace (k3 ++ tail) = Some tail
  \/ matchAtoms afterSecondSpace (k3 ++ tail) = Some tail
  \/ matchAtoms afterThirdSpace (k3 ++ tail) = Some tail.
Proof.
  intros (ws1 & w & ws2 & ws3 & -> & N1 & W1 & Nw & Ww & N2 & W2 & W3) E.
  apply cut_app in E as [(k1 & E & _) | (j0 & -> & E)];
    [exfalso; revert E; apply singleLine_no_cut; reflexivity |].
  apply cut_app in E as [(k1 & E & ->) | (j1 & -> & E)].
  { left. destruct (forallb_cut _ _ _ _ W1 E) as [_ Hk1].
    unfold afterFirstSpace. rewrite <- !app_assoc.
    apply matchAtoms_star; [apply rejects_plus, space_not_word |].
    exists k1, (w ++ ws2 ++ str "float" ++ ws3 ++ str ";" ++ tail).
    split; [reflexivity |]. split; [exact Hk1 |].
    apply matchAtoms_plus; [apply rejects_plus, word_not_space |].
    exists w, (ws2 ++ str "float" ++ ws3 ++ str ";" ++ tail).
    split; [reflexivity |]. split; [exact Nw |]. split; [exact Ww |].
    apply matchAtoms_plus; [apply rejects_lit; reflexivity |].
    exists ws2, (str "float" ++ ws3 ++ str ";" ++ tail).
    split; [reflexivity |]. split; [exact N2 |]. split; [exact W2 |].
    apply matchAtoms_lit. exists (ws3 ++ str ";" ++ tail).
    split; [reflexivity |].
    apply matchAtoms_star; [apply rejects_lit; reflexivity |].
    exists ws3, (str ";" ++ tail). split; [reflexivity |].
    split; [exact W3 |].
    apply matchAtoms_lit. exists tail. split; reflexivity. }
  apply cut_app in E as [(k1 & E & _) | (j2 & -> & E)].
  { exfalso. destruct (forallb_cut _ _ _ _ Ww E) as [Hlf _]. discriminate. }
  apply cut_app in E as [(k1 & E & ->) | (j3 & -> & E)].
  { right. left. destruct (forallb_cut _ _ _ _ W2 E) as [_ Hk1].
    unfold afterSecondSpace. rewrite <- !app_assoc.
    apply matchAtoms_star; [apply rejects_lit; reflexivity |].
    exists k1, (str "float" ++ ws3 ++ str ";" ++ tail).
    split; [reflexivity |]. split; [exact Hk1 |].
    apply matchAtoms_lit. exists (ws3 ++ str ";" ++ tail).
    split; [reflexivity |].
    apply matchAtoms_star; [apply rejects_lit; reflexivity |].
    exists ws3, (str ";" ++ tail). split; [reflexivity |].
    split; [exact W3 |].
    apply matchAtoms_lit. exists tail. split; reflexivity. }
  apply cut_app in E as [(k1 & E & _) | (j4 & -> & E)];
    [exfalso; revert E; apply singleLine_no_cut; reflexivity |].
  apply cut_app in E as [(k1 & E & ->) | (j5 & -> & E)].
  { right. right. destruct (forallb_cut _ _ _ _ W3 E) as [_ Hk1].
    unfold afterThirdSpace. rewrite <- !app_assoc.
    apply matchAtoms_star; [apply rejects_lit; reflexivity |].
    exists k1, (str ";" ++ tail). split; [reflexivity |].
    split; [exact Hk1 |].
    apply matchAtoms_lit. exists tail. split; reflexivity. }
  exfalso. revert E. apply singleLine_no_cut. reflexivity.
Qed.

(** The block of declarations: nothing of a precision statement can follow
    a line feed into it, and no [p] is in it. *)
Lemma block_completes_nothing (b1 b2 b3 b4 : bool) (V : jsstring) :
  declsOf b1 b2 b3 b4 <> [] ->
  matchAtoms afterFirstSpace (trim (declsOf b1 b2 b3 b4) ++ V) = None
  /\ matchAtoms afterSecondSpace (trim (declsOf b1 b2 b3 b4) ++ V) = None
  /\ matchAtoms afterThirdSpace (trim (declsOf b1 b2 b3 b4) ++ V) = None.
Proof.
  destruct b1, b2, b3, b4; intros Hne;
    try (exfalso; apply Hne; reflexivity); vm_compute; repeat split.
Qed.

Lemma block_has_no_p (b1 b2 b3 b4 : bool) :
  forallb (fun c => negb (ascii_eqb c "p"%char))
          (trim (declsOf b1 b2 b3 b4)) = true.
Proof. destruct b1, b2, b3, b4; vm_compute; reflexivity. Qed.

Lemma no_statement_after_insert (U V : jsstring) (b1 b2 b3 b4 : bool) :
  declsOf b1 b2 b3 b4 <> [] ->
  ~ hasStatement (U ++ V) ->
  ~ hasStatement (U ++ nl ++ trim (declsOf b1 b2 b3 b4) ++ V).
Proof.
  intros Hne Hno (pre & m & post & E & Hm).
  set (d := trim (declsOf b1 b2 b3 b4)) in *.
  change (U ++ LF :: (d ++ V) = pre ++ m ++ post) in E.
  apply app_eq_inv in E as [(k & -> & E) | (k & -> & E)].
  - symmetry in E.
    apply app_eq_inv in E as [(k2 & -> & E) | (k2 & -> & E)].
    + apply Hno. exists pre, m, (k2 ++ V). rewrite <- !app_assoc. auto.
    + destruct k2 as [|c k3]; simpl in E.
      * apply Hno. exists pre, k, V. rewrite app_nil_r in Hm.
        rewrite <- !app_assoc. auto.
      * injection E as <- E.
        destruct (block_completes_nothing b1 b2 b3 b4 V Hne) as (N1 & N2 & N3).
        fold d in N1, N2, N3. rewrite E in N1, N2, N3.
        destruct (statement_cut _ k k3 post Hm eq_refl) as [H | [H | H]];
          congruence.
  - destruct k as [|c k']; simpl in E.
    + apply statement_prefix in Hm as [r ->]. discriminate.
    + injection E as _ E.
      apply app_eq_inv in E as [(k2 & Hd & E) | (k2 & -> & E)].
      * destruct k2 as [|c2 k2]; simpl in E.
        -- apply Hno. exists U, m, post. rewrite E. auto.
        -- apply statement_prefix in Hm as [r ->]. injection E as <- _.
           pose proof (block_has_no_p b1 b2 b3 b4) as Hp. fold d in Hp.
           rewrite Hd, forallb_app in Hp.
           apply andb_true_iff in Hp as [_ Hp]. discriminate.
      * apply Hno. exists (U ++ k2), m, post. rewrite E, <- !app_assoc. auto.
Qed.

(** *** The claims on [fixShaderIssues] *)

Lemma isEmpty_true (s : jsstring) : isEmpty s = true <-> s = [].
Proof. destruct s; simpl; split; congruence. Qed.

Lemma isEmpty_false (s : jsstring) : isEmpty s = false <-> s <> [].
Proof. destruct s; simpl; split; congruence. Qed.

Lemma ensurePrecision_default (t : jsstring) :
  includes t (str "precision") = false ->
  ensurePrecision t = defaultPrecision ++ nl ++ t.
Proof. intros E. unfold ensurePrecision. rewrite E. reflexivity. Qed.

Lemma ensurePrecision_moved (t stmt : jsstring) :
  includes t (str "precision") = true ->
  regexMatch precisionRe t = Some stmt ->
  ensurePrecision t = stmt ++ nl ++ trim (replace t stmt []).
Proof. intros E M. unfold ensurePrecision. rewrite E, M. reflexivity. Qed.

Lemma ensurePrecision_unmatched (t : jsstring) :
  includes t (str "precision") = true ->
  regexMatch precisionRe t = None ->
  ensurePrecision t = t.
Proof. intros E M. unfold ensurePrecision. rewrite E, M. reflexivity. Qed.

Lemma regexMatch_includes (t stmt : jsstring) :
  regexMatch precisionRe t = Some stmt ->
  includes t (str "precision") = true.
Proof.
  intros M. apply regexMatch_statement in M as (Hs & pre & post & ->).
  apply statement_prefix in Hs as [r ->]. apply includes_present.
  exists pre, (r ++ post). rewrite <- !app_assoc. reflexivity.
Qed.

Lemma joinLines_app (a b : list jsstring) :
  a <> [] -> b <> [] -> joinLines (a ++ b) = joinLines a ++ nl ++ joinLines b.
Proof.
  intros Ha Hb. induction a as [|x a IH]; [congruence |].
  destruct a as [|y a].
  - simpl app. rewrite joinLines_cons by exact Hb. reflexivity.
  - change ((x :: y :: a) ++ b) with (x :: (y :: a) ++ b).
    rewrite joinLines_cons by discriminate.
    rewrite IH by discriminate.
    rewrite (joinLines_cons x (y :: a)) by discriminate.
    rewrite <- !app_assoc. reflexivity.
Qed.

Lemma includes_app_r (a b p : jsstring) :
  includes b p = true -> includes (a ++ b) p = true.
Proof.
  rewrite !includes_present. intros (pre & post & ->).
  exists (a ++ pre), post. rewrite <- !app_assoc. reflexivity.
Qed.

Lemma includes_joinLines (p : jsstring) (lines : list jsstring) :
  singleLine p = true -> lines <> [] ->
  includes (joinLines lines) p = true ->
  exists x, In x lines /\ includes x p = true.
Proof.
  intros Hp Hne. induction lines as [|x lines IH]; [congruence |].
  destruct lines as [|y lines].
  - simpl. intros H. exists x. auto.
  - rewrite joinLines_cons by discriminate.
    rewrite includes_across_nl by exact Hp. intros H.
    apply orb_true_iff in H as [H | H].
    + exists x. split; [left; reflexivity | exact H].
    + destruct (IH ltac:(discriminate) H) as (z & Hz & Hi).
      exists z. split; [right; exact Hz | exact Hi].
Qed.

Lemma findIndexFrom_none {A} (f : A -> bool) (l : list A) (i : Z) :
  0 <= i -> findIndexFrom f l i = -1 -> forall x, In x l -> f x = false.
Proof.
  revert i. induction l as [|y l IH]; intros i Hi E x Hx; [destruct Hx |].
  simpl in E. destruct (f y) eqn:Ey; [lia |].
  destruct Hx as [<- | Hx]; [exact Ey |].
  apply (IH (i + 1)); [lia | exact E | exact Hx].
Qed.

Lemma findIndexFrom_found {A} (f : A -> bool) (l : list A) (i k : Z) :
  0 <= i -> findIndexFrom f l i = k -> k <> -1 ->
  exists (n : nat) (x : A),
    k = i + Z.of_nat n /\ l !! n = Some x /\ f x = true.
Proof.
  revert i. induction l as [|y l IH]; intros i Hi E Hk; simpl in E;
    [congruence |].
  destruct (f y) eqn:Ey.
  - exists 0%nat, y. repeat split; [lia | exact Ey].
  - destruct (IH (i + 1) ltac:(lia) E Hk) as (n & x & -> & Hl & Hx).
    exists (S n), x. repeat split; [lia | exact Hl | exact Hx].
Qed.

(** The text with a block inserted after line [n]: the text is cut after
    that line. *)
Lemma insert_after_line (lines : list jsstring) (n : nat)
    (x d : jsstring) :
  lines !! n = Some x ->
  exists U V,
    joinLines lines = U ++ V
    /\ joinLines (take (S n) lines ++ d :: drop (S n) lines)
       = U ++ nl ++ d ++ V
    /\ (exists pre, U = pre ++ x)
    /\ (V = [] \/ exists V', V = nl ++ V').
Proof.
  intros Hx.
  pose proof (take_drop (S n) lines) as Hsplit.
  pose proof (take_S_r lines n x Hx) as Ha.
  set (a := take (S n) lines) in *. set (b := drop (S n) lines) in *.
  assert (Hane : a <> []).
  { rewrite Ha. intros E. apply app_eq_nil in E as [_ E]. discriminate. }
  exists (joinLines a), (match b with [] => [] | _ => nl ++ joinLines b end).
  split; [| split; [| split]].
  - rewrite <- Hsplit. destruct b as [|y b].
    + rewrite !app_nil_r. reflexivity.
    + apply joinLines_app; [exact Hane | discriminate].
  - rewrite joinLines_app by (try exact Hane; discriminate).
    destruct b as [|y b].
    + rewrite app_nil_r. reflexivity.
    + rewrite joinLines_cons by discriminate. reflexivity.
  - rewrite Ha. destruct (take n lines) as [|z zs] eqn:Et.
    + exists []. reflexivity.
    + rewrite joinLines_app by discriminate.
      exists (joinLines (z :: zs) ++ nl). rewrite <- !app_assoc. reflexivity.
  - destruct b; [left; reflexivity | right; eauto].
Qed.

Lemma insertDeclarations_unmatched (t : jsstring) :
  includes t (str "precision") = true ->
  uniformDeclarations t <> [] ->
  exists U V,
    t = U ++ V
    /\ insertDeclarations t = U ++ nl ++ trim (uniformDeclarations t) ++ V
    /\ includes U (str "precision") = true
    /\ (V = [] \/ exists V', V = nl ++ V').
Proof.
  intros Hi HD. unfold insertDeclarations.
  destruct (uniformDeclarations t) as [|c D] eqn:ED; [congruence |].
  set (f := fun line : jsstring => includes line (str "precision")).
  destruct (findIndex f (splitLines t) =? -1) eqn:Ek.
  - exfalso. apply Z.eqb_eq in Ek.
    rewrite <- (joinLines_splitLines t) in Hi.
    destruct (includes_joinLines (str "precision") (splitLines t) eq_refl
                (splitLines_nonempty t) Hi)
      as (x & Hx & Hix).
    pose proof (findIndexFrom_none f (splitLines t) 0 ltac:(lia) Ek x Hx)
      as Hfx.
    unfold f in Hfx. congruence.
  - apply Z.eqb_neq in Ek. cbn [negb].
    destruct (findIndexFrom_found f (splitLines t) 0 _ ltac:(lia) eq_refl Ek)
      as (n & x & Hk & Hl & Hfx).
    unfold findIndex. rewrite Hk. unfold spliceInsert.
    replace (Z.to_nat (0 + Z.of_nat n + 1)) with (S n) by lia.
    destruct (insert_after_line (splitLines t) n x (trim (c :: D)) Hl)
      as (U & V & Ht & Hins & (pre & HU) & HV).
    exists U, V. rewrite joinLines_splitLines in Ht.
    split; [exact Ht |]. split; [exact Hins |]. split; [| exact HV].
    rewrite HU. apply includes_app_r. exact Hfx.
Qed.

Lemma needs_after_end (A A' : bool) :
  let b := A && negb A' in (A || b) && negb (A' || b) = false.
Proof. destruct A, A'; reflexivity. Qed.

Lemma uniformDeclarations_after_insert (U V : jsstring) :
  V = [] \/ (exists V', V = nl ++ V') ->
  uniformDeclarations (U ++ nl ++ trim (uniformDeclarations (U ++ V)) ++ V)
  = [].
Proof.
  intros [-> | [V' ->]].
  - rewrite !app_nil_r.
    rewrite (uniformDeclarations_declsOf U).
    set (b1 := needsTimeUniform U). set (b2 := needsResolutionUniform U).
    set (b3 := needsVNormalVarying U). set (b4 := needsVPositionVarying U).
    destruct (declsOf_includes b1 b2 b3 b4)
      as (I1 & I2 & I3 & I4 & I5 & I6 & I7 & I8).
    rewrite uniformDeclarations_declsOf. apply declsOf_nil.
    unfold needsTimeUniform, needsResolutionUniform, needsVNormalVarying,
      needsVPositionVarying.
    rewrite !includes_across_nl by reflexivity.
    rewrite I1, I2, I3, I4, I5, I6, I7, I8.
    unfold b1, b2, b3, b4, needsTimeUniform, needsResolutionUniform,
      needsVNormalVarying, needsVPositionVarying.
    repeat split; apply needs_after_end.
  - rewrite (uniformDeclarations_declsOf (U ++ nl ++ V')).
    set (b1 := needsTimeUniform (U ++ nl ++ V')).
    set (b2 := needsResolutionUniform (U ++ nl ++ V')).
    set (b3 := needsVNormalVarying (U ++ nl ++ V')).
    set (b4 := needsVPositionVarying (U ++ nl ++ V')).
    destruct (declsOf_includes b1 b2 b3 b4)
      as (I1 & I2 & I3 & I4 & I5 & I6 & I7 & I8).
    rewrite uniformDeclarations_declsOf. apply declsOf_nil.
    unfold needsTimeUniform, needsResolutionUniform, needsVNormalVarying,
      needsVPositionVarying.
    rewrite !includes_across_nl by reflexivity.
    rewrite I1, I2, I3, I4, I5, I6, I7, I8.
    unfold b1, b2, b3, b4, needsTimeUniform, needsResolutionUniform,
      needsVNormalVarying, needsVPositionVarying.
    rewrite !includes_across_nl by reflexivity.
    repeat split; apply needs_after.
Qed.

Lemma rev_nonempty (s : jsstring) : s <> [] -> rev s <> [].
Proof.
  intros Hs E. apply Hs. rewrite <- (rev_involutive s), E. reflexivity.
Qed.

Lemma stops_rev_app (p : ascii -> bool) (a b : jsstring) :
  b <> [] -> stops p (rev (a ++ b)) = stops p (rev b).
Proof.
  intros Hb. rewrite rev_app_distr. apply stops_app, rev_nonempty, Hb.
Qed.

Lemma trimmed_after_insert (U V d : jsstring) :
  trimmed (U ++ V) = true -> U <> [] -> d <> [] -> trimmed d = true ->
  V = [] \/ (exists V', V = nl ++ V') ->
  trimmed (U ++ nl ++ d ++ V) = true.
Proof.
  intros Ht HU Hd Htd HV. unfold trimmed in *.
  apply andb_true_iff in Ht as [Hh Hl]. apply andb_true_iff. split.
  - rewrite stops_app in * by exact HU. exact Hh.
  - destruct HV as [-> | [V' ->]].
    + rewrite app_nil_r.
      replace (U ++ nl ++ d) with ((U ++ nl) ++ d)
        by (rewrite <- app_assoc; reflexivity).
      rewrite stops_rev_app by exact Hd.
      apply andb_true_iff in Htd. tauto.
    + rewrite stops_rev_app in Hl by discriminate.
      replace (U ++ nl ++ d ++ nl ++ V') with ((U ++ nl ++ d) ++ nl ++ V')
        by (rewrite <- !app_assoc; reflexivity).
      rewrite stops_rev_app by discriminate. exact Hl.
Qed.

(** The second run, after a first run that found ["precision"] but no
    precision statement. *)
Lemma fix_after_unmatched (t : jsstring) :
  trimmed t = true ->
  includes t (str "precision") = true ->
  regexMatch precisionRe t = None ->
  fixShaderIssues (insertDeclarations t) = insertDeclarations t.
Proof.
  intros Ht Hi Hm.
  destruct (uniformDeclarations t) as [|c D] eqn:ED.
  - rewrite (insertDeclarations_none t ED). unfold fixShaderIssues.
    rewrite (trim_trimmed t Ht), (ensurePrecision_unmatched t Hi Hm).
    apply insertDeclarations_none, ED.
  - assert (HD : uniformDeclarations t <> []) by (rewrite ED; discriminate).
    destruct (insertDeclarations_unmatched t Hi HD)
      as (U & V & HtUV & -> & HiU & HV).
    assert (HUne : U <> []) by (intros ->; discriminate).
    set (d := trim (uniformDeclarations t)).
    assert (Hd : d <> []).
    { unfold d. rewrite uniformDeclarations_declsOf.
      apply declsOf_trim_nonempty. rewrite <- uniformDeclarations_declsOf.
      exact HD. }
    assert (Htr : trimmed (U ++ nl ++ d ++ V) = true).
    { apply trimmed_after_insert; try assumption.
      - rewrite <- HtUV. exact Ht.
      - apply trimmed_trim. }
    assert (Hno : regexMatch precisionRe (U ++ nl ++ d ++ V) = None).
    { apply regexMatch_none_iff. unfold d.
      rewrite uniformDeclarations_declsOf.
      apply no_statement_after_insert.
      - rewrite <- uniformDeclarations_declsOf. exact HD.
      - rewrite <- HtUV. apply regexMatch_none_iff, Hm. }
    unfold fixShaderIssues. rewrite (trim_trimmed _ Htr).
    rewrite ensurePrecision_unmatched;
      [| apply includes_app_l, HiU | exact Hno].
    apply insertDeclarations_none. unfold d. rewrite HtUV.
    apply uniformDeclarations_after_insert, HV.
Qed.

(** C3, amended.  A second run of [fixShaderIssues] changes nothing on a
    regular source: one in which no precision statement occurs, or one
    whose first precision statement stands on one line and either is not
    the whole text or queues no declaration. *)
Theorem repair_idempotent_on_regular (x : jsstring) :
  regularSource x = true ->
  fixShaderIssues (fixShaderIssues x) = fixShaderIssues x.
Proof.
  unfold regularSource. unfold fixShaderIssues at 2 3.
  set (t := trim x).
  assert (Ht : trimmed t = true) by apply trimmed_trim.
  destruct (regexMatch precisionRe t) as [stmt |] eqn:M.
  - intros H. apply andb_true_iff in H as [Hl Hor].
    pose proof (regexMatch_includes t stmt M) as Ei.
    rewrite (ensurePrecision_moved t stmt Ei M) in *.
    apply fix_after_canonical.
    + apply (regexMatch_statement t stmt M).
    + exact Hl.
    + apply trimmed_trim.
    + apply orb_true_iff in Hor as [Hne | He].
      * left. apply isEmpty_false, negb_true_iff, Hne.
      * right. apply isEmpty_true, He.
  - intros _. destruct (includes t (str "precision")) eqn:Ei.
    + rewrite (ensurePrecision_unmatched t Ei M).
      apply fix_after_unmatched; assumption.
    + rewrite (ensurePrecision_default t Ei).
      apply fix_after_canonical.
      * apply defaultPrecision_statement.
      * reflexivity.
      * exact Ht.
      * destruct t as [|c t']; [right; reflexivity | left; discriminate].
Qed.

(** C4, amended.  A precision statement that stands on one line is kept:
    the output starts with it.  A source made of a precision statement, a
    line feed and a non-empty body without white space at its ends, for
    which no declaration is queued, is returned as it is. *)
Theorem precision_kept_and_normal_shape_unchanged (x stmt body : jsstring) :
  (regexMatch precisionRe (trim x) = Some stmt ->
   singleLine stmt = true ->
   exists rest, fixShaderIssues x = stmt ++ nl ++ rest)
  /\ (matchAt precisionRe (stmt ++ nl ++ body) = Some stmt ->
      isEmpty body = false -> trimmed body = true ->
      uniformDeclarations (stmt ++ nl ++ body) = [] ->
      fixShaderIssues (stmt ++ nl ++ body) = stmt ++ nl ++ body).
Proof.
  split.
  - intros M Hl. unfold fixShaderIssues.
    rewrite (ensurePrecision_moved _ stmt (regexMatch_includes _ _ M) M).
    set (body' := trim (replace (trim x) stmt [])).
    destruct (uniformDeclarations (stmt ++ nl ++ body')) as [|d D] eqn:HD.
    + rewrite insertDeclarations_none by exact HD. eauto.
    + rewrite insertDeclarations_canonical;
        [eauto | apply (regexMatch_statement _ _ M) | exact Hl |].
      rewrite HD. discriminate.
  - intros M Hne Hb HD. apply fix_canonical.
    + apply (matchAt_statement _ _ M).
    + apply isEmpty_false, Hne.
    + exact Hb.
    + exact HD.
Qed.

(** C5, as the code runs it.  When ["precision"] occurs in the trimmed
    source but no precision statement does, the precision step adds
    nothing; if no declaration is queued the source is returned trimmed,
    and no precision statement is anywhere in the output. *)
Theorem precision_word_without_statement (x : jsstring) :
  includes (trim x) (str "precision") = true ->
  regexMatch precisionRe (trim x) = None ->
  ensurePrecision (trim x) = trim x
  /\ (uniformDeclarations (trim x) = [] ->
      fixShaderIssues x = trim x
      /\ regexMatch precisionRe (fixShaderIssues x) = None).
Proof.
  intros Ei M. pose proof (ensurePrecision_unmatched _ Ei M) as E.
  split; [exact E |]. intros HD.
  assert (Hx : fixShaderIssues x = trim x).
  { unfold fixShaderIssues. rewrite E. apply insertDeclarations_none, HD. }
  rewrite Hx. auto.
Qed.

(** *** The normalizer run on concrete sources *)

Lemma repair_idempotent_on_regular_witness :
  fixShaderIssues (fixShaderIssues movedStatementSource)
  = fixShaderIssues movedStatementSource.
Proof.
  apply (repair_idempotent_on_regular movedStatementSource).
  vm_compute. reflexivity.
Defined.

Example repair_idempotent_plain :
  regularSource plainSource = true
  /\ fixShaderIssues plainSource
     = str "precision mediump float;" ++ nl
       ++ str "uniform float time;" ++ nl
       ++ str "varying vec3 vNormal;" ++ nl ++ plainSource.
Proof. split; vm_compute; reflexivity. Qed.

(** C3 fails on the code: the first run on a source that is a precision
    statement and nothing else, with a recognized identifier in it, ends
    with a line feed, which the second run trims. *)
Lemma repair_not_idempotent :
  fixShaderIssues statementOnlySource
  = str "precision time float;" ++ nl ++ str "uniform float time;" ++ nl
  /\ fixShaderIssues (fixShaderIssues statementOnlySource)
     = str "precision time float;" ++ nl ++ str "uniform float time;"
  /\ fixShaderIssues (fixShaderIssues statementOnlySource)
     <> fixShaderIssues statementOnlySource.
Proof.
  split; [vm_compute; reflexivity |].
  split; [vm_compute; reflexivity | vm_compute; discriminate].
Qed.

(** A second run can also change the text when the first precision
    statement spans two lines: the first run cuts it with the declaration,
    and the second run moves the statement that follows. *)
Example repair_not_idempotent_two_lines :
  regularSource twoStatementsSource = false
  /\ fixShaderIssues (fixShaderIssues twoStatementsSource)
     <> fixShaderIssues twoStatementsSource.
Proof. split; [vm_compute; reflexivity | vm_compute; discriminate]. Qed.

Example irregular_statement_only :
  regularSource statementOnlySource = false.
Proof. vm_compute. reflexivity. Qed.

Lemma precision_kept_and_normal_shape_unchanged_witness :
  (exists rest,
      fixShaderIssues movedStatementSource
      = str "precision highp float;" ++ nl ++ rest)
  /\ fixShaderIssues
       (str "precision highp float;" ++ nl ++ str "void main() {}")
     = str "precision highp float;" ++ nl ++ str "void main() {}".
Proof.
  split.
  - apply (proj1 (precision_kept_and_normal_shape_unchanged
                    movedStatementSource (str "precision highp float;") []));
      vm_compute; reflexivity.
  - apply (proj2 (precision_kept_and_normal_shape_unchanged
                    [] (str "precision highp float;")
                    (str "void main() {}")));
      vm_compute; reflexivity.
Defined.

(** C4 fails on the code: a source with its precision statement at the
    top and nothing to declare is changed when a blank line follows the
    statement. *)
Lemma normalized_source_changed :
  alreadyNormalized blankLineSource
  /\ trim blankLineSource = blankLineSource
  /\ fixShaderIssues blankLineSource
     = str "precision mediump float;" ++ nl ++ str "void main() {}"
  /\ fixShaderIssues blankLineSource <> blankLineSource.
Proof.
  unfold alreadyNormalized.
  split; [split; [eexists |]; vm_compute; reflexivity |].
  split; [vm_compute; reflexivity |].
  split; [vm_compute; reflexivity | vm_compute; discriminate].
Qed.

(** A precision statement alone is changed too: a line feed is added. *)
Example statement_alone_changed :
  alreadyNormalized defaultPrecision
  /\ fixShaderIssues defaultPrecision = defaultPrecision ++ nl.
Proof.
  unfold alreadyNormalized.
  split; [split; [eexists |]; vm_compute; reflexivity |].
  vm_compute. reflexivity.
Qed.

(** A precision statement written on two lines is broken: the
    declaration goes between its two lines, and no precision statement is
    left in the output. *)
Example two_line_statement_broken :
  regexMatch precisionRe twoLineStatementSource
  = Some (str "precision" ++ nl ++ str "mediump float;")
  /\ fixShaderIssues twoLineStatementSource
     = str "precision" ++ nl ++ str "uniform float time;" ++ nl
       ++ str "mediump float;" ++ nl
       ++ str "void main() { gl_FragColor = vec4(time); }"
  /\ regexMatch precisionRe (fixShaderIssues twoLineStatementSource) = None.
Proof. repeat split; vm_compute; reflexivity. Qed.

Lemma precision_word_without_statement_witness :
  ensurePrecision (trim commentSource) = trim commentSource
  /\ (uniformDeclarations (trim commentSource) = [] ->
      fixShaderIssues commentSource = trim commentSource
      /\ regexMatch precisionRe (fixShaderIssues commentSource) = None).
Proof.
  apply (precision_word_without_statement commentSource);
    vm_compute; reflexivity.
Defined.

(** The source with ["precision"] in a comment only comes back unchanged,
    without any precision statement. *)
Example comment_source_unchanged :
  fixShaderIssues commentSource = commentSource
  /\ regexMatch precisionRe (fixShaderIssues commentSource) = None
  /\ matchAt precisionRe (fixShaderIssues commentSource) = None.
Proof. repeat split; vm_compute; reflexivity. Qed.

End NormalizerFacts.
(** ** The bundle parser on well-formed bundles *)

Module BundleFacts.
Import NormalizerFacts.

(** *** The first occurrence of a text *)

Lemma indexOfFrom_cons (p : jsstring) (c : ascii) (s : jsstring) (i : Z) :
  indexOfFrom p (c :: s) i
  = if startsWith p (c :: s) then i else indexOfFrom p s (i + 1).
Proof. reflexivity. Qed.

Lemma indexOfFrom_here (p s : jsstring) (i : Z) :
  startsWith p s = true -> indexOfFrom p s i = i.
Proof. intros E. destruct s; simpl; rewrite E; reflexivity. Qed.

Lemma indexOfFrom_skip (p a rest : jsstring) (i : Z) :
  (forall k : nat, (k < length a)%nat ->
     startsWith p (drop k (a ++ rest)) = false) ->
  indexOfFrom p (a ++ rest) i = indexOfFrom p rest (i + Z.of_nat (length a)).
Proof.
  revert i. induction a as [|c a IH]; intros i Hno.
  - simpl. f_equal. lia.
  - change ((c :: a) ++ rest) with (c :: (a ++ rest)).
    rewrite indexOfFrom_cons.
    assert (H0 : startsWith p (c :: a ++ rest) = false)
      by (apply (Hno 0%nat); simpl; lia).
    rewrite H0, IH.
    + f_equal. simpl length. lia.
    + intros k Hk. apply (Hno (S k)). simpl. lia.
Qed.

(** An occurrence of an unbordered text that starts before another one
    ends before it. *)
Lemma no_overlap (p a b : jsstring) (k : nat) :
  unbordered p = true -> ~ present p a -> (k < length a)%nat ->
  startsWith p (drop k (a ++ p ++ b)) = false.
Proof.
  intros Hu Hno Hk.
  destruct (startsWith p (drop k (a ++ p ++ b))) eqn:E; [exfalso | reflexivity].
  apply startsWith_spec in E as [r Er].
  rewrite drop_app_le in Er by lia.
  assert (Ha : a = take k a ++ drop k a) by (symmetry; apply take_drop).
  assert (Hlen : (0 < length (drop k a))%nat) by (rewrite length_drop; lia).
  destruct (app_eq_inv _ _ _ _ Er) as [(x & Hx1 & Hx2) | (x & Hx1 & Hx2)].
  - (* the occurrence lies in [a] *)
    apply Hno. exists (take k a), x. rewrite <- Hx1. exact Ha.
  - (* the occurrence reaches into [p] *)
    destruct x as [|c x].
    + rewrite app_nil_r in Hx1. apply Hno. exists (take k a), [].
      rewrite app_nil_r, Hx1. exact Ha.
    + assert (Hpre : exists y, p = (c :: x) ++ y).
      { destruct (app_eq_inv _ _ _ _ Hx2) as [(y & Hy1 & Hy2) | (y & Hy1 & Hy2)].
        - eauto.
        - exfalso. apply (f_equal length) in Hy1, Hx1.
          rewrite !length_app in *. simpl in *. lia. }
      destruct Hpre as [y Hy].
      assert (Hd : drop (length (drop k a)) p = c :: x)
        by (rewrite Hx1 at 1; apply drop_length_app).
      assert (Hs : startsWith (c :: x) p = true)
        by (apply startsWith_spec; eauto).
      assert (Hin : In (length (drop k a)) (seq 1 (length p - 1))).
      { apply in_seq. apply (f_equal length) in Hx1.
        rewrite length_app in Hx1. simpl in Hx1. lia. }
      unfold unbordered in Hu. rewrite forallb_forall in Hu.
      apply Hu in Hin. rewrite Hd, Hs in Hin. discriminate.
Qed.

Lemma indexOf_first (p a b : jsstring) :
  unbordered p = true -> ~ present p a ->
  indexOf (a ++ p ++ b) p = Z.of_nat (length a).
Proof.
  intros Hu Hno. unfold indexOf.
  rewrite indexOfFrom_skip by (intros k Hk; apply no_overlap; assumption).
  apply indexOfFrom_here, startsWith_app.
Qed.

Lemma substring_range (s : jsstring) (i j : nat) :
  (i <= j <= length s)%nat ->
  substring s (Z.of_nat i) (Z.of_nat j) = take (j - i) (drop i s).
Proof.
  intros Hij. unfold substring, clamp.
  replace (Z.to_nat (Z.min (Z.max (Z.of_nat i) 0) (Z.of_nat (length s))))
    with i by lia.
  replace (Z.to_nat (Z.min (Z.max (Z.of_nat j) 0) (Z.of_nat (length s))))
    with j by lia.
  rewrite Nat.min_l, Nat.max_r by lia. reflexivity.
Qed.

(** *** The geometry tag *)

Lemma starK_always (p : ascii -> bool) (s : jsstring) :
  starK p (fun s => Some s) s = Some (dropWhile p s).
Proof.
  induction s as [|c s IH]; simpl; [reflexivity |].
  destruct (p c); [rewrite IH |]; reflexivity.
Qed.

Lemma matchAtoms_geometryRe (s : jsstring) :
  matchAtoms geometryRe s
  = if startsWith geometryTag s then
      match dropWhile isSpace (drop (length geometryTag) s) with
      | c :: s' => if isWord c then Some (dropWhile isWord s') else None
      | [] => None
      end
    else None.
Proof.
  unfold geometryRe. cbn [matchAtoms].
  change (str "// GEOMETRY:") with geometryTag.
  destruct (startsWith geometryTag s); [| reflexivity].
  rewrite starK_greedy.
  - destruct (dropWhile isSpace (drop (length geometryTag) s)) as [|c s'];
      [reflexivity |].
    destruct (isWord c); [apply starK_always | reflexivity].
  - intros c s' Hc. rewrite (space_not_word c Hc). reflexivity.
Qed.

(** A match of the pattern: the tag, white space, and a word that the
    text after it does not continue. *)
Lemma matchAt_geometryRe (s m : jsstring) :
  matchAt geometryRe s = Some m ->
  exists ws w rest,
    s = geometryTag ++ ws ++ w ++ rest /\ m = geometryTag ++ ws ++ w
    /\ forallb isSpace ws = true /\ isEmpty w = false
    /\ forallb isWord w = true /\ stops isWord rest = true.
Proof.
  unfold matchAt. rewrite matchAtoms_geometryRe.
  destruct (startsWith geometryTag s) eqn:Es; [| discriminate].
  apply startsWith_spec in Es as [s1 ->].
  rewrite drop_length_app.
  destruct (dropWhile isSpace s1) as [|c s'] eqn:Ed; [discriminate |].
  destruct (isWord c) eqn:Ec; [| discriminate].
  intros E.
  assert (Em : m = take (length (geometryTag ++ s1)
                         - length (dropWhile isWord s')) (geometryTag ++ s1))
    by congruence.
  clear E.
  pose proof (takeWhile_dropWhile isSpace s1) as Hs1. rewrite Ed in Hs1.
  pose proof (takeWhile_dropWhile isWord s') as Hs'.
  exists (takeWhile isSpace s1), (c :: takeWhile isWord s'),
    (dropWhile isWord s').
  assert (Hs : geometryTag ++ s1
               = (geometryTag ++ takeWhile isSpace s1
                  ++ c :: takeWhile isWord s') ++ dropWhile isWord s').
  { rewrite <- Hs1 at 1. rewrite <- Hs' at 1.
    rewrite <- !app_assoc. reflexivity. }
  split; [rewrite Hs, <- !app_assoc; reflexivity |].
  split.
  { rewrite Em, Hs, length_app, Nat.add_sub. apply take_app_length. }
  split; [apply forallb_takeWhile |].
  split; [reflexivity |].
  split; [simpl; rewrite Ec; apply forallb_takeWhile |].
  apply stops_dropWhile.
Qed.

Lemma stops_space_word (w rest : jsstring) :
  isEmpty w = false -> forallb isWord w = true ->
  stops isSpace (w ++ rest) = true.
Proof.
  destruct w as [|c w]; [discriminate |]. simpl.
  intros _ Hw. apply andb_true_iff in Hw as [Hc _].
  rewrite (word_not_space c Hc). reflexivity.
Qed.

Lemma geometryGroup_match (ws w : jsstring) :
  forallb isSpace ws = true -> isEmpty w = false ->
  forallb isWord w = true ->
  geometryGroup (geometryTag ++ ws ++ w) = w.
Proof.
  intros Hws Hne Hw. unfold geometryGroup.
  change (str "// GEOMETRY:") with geometryTag.
  rewrite drop_length_app.
  apply dropWhile_app; [exact Hws |].
  rewrite <- (app_nil_r w). apply stops_space_word; assumption.
Qed.

Lemma matchAt_geometryRe_tagged (ws w rest : jsstring) :
  forallb isSpace ws = true -> isEmpty w = false ->
  forallb isWord w = true -> stops isWord rest = true ->
  matchAt geometryRe (geometryTag ++ ws ++ w ++ rest)
  = Some (geometryTag ++ ws ++ w).
Proof.
  intros Hws Hne Hw Hrest. unfold matchAt. rewrite matchAtoms_geometryRe.
  rewrite startsWith_app, drop_length_app.
  rewrite (dropWhile_app isSpace ws (w ++ rest) Hws)
    by (apply stops_space_word; assumption).
  destruct w as [|c w]; [discriminate |].
  simpl in Hw. apply andb_true_iff in Hw as [Hc Hw].
  change ((c :: w) ++ rest) with (c :: (w ++ rest)). cbv iota beta.
  rewrite Hc, (dropWhile_app isWord w rest Hw Hrest).
  f_equal.
  replace (geometryTag ++ ws ++ c :: w ++ rest)
    with ((geometryTag ++ ws ++ c :: w) ++ rest)
    by (rewrite <- !app_assoc; reflexivity).
  rewrite length_app, Nat.add_sub. apply take_app_length.
Qed.

Lemma regexMatch_cons (r : list atom) (c : ascii) (s : jsstring) :
  regexMatch r (c :: s)
  = match matchAt r (c :: s) with
    | Some m => Some m
    | None => regexMatch r s
    end.
Proof. reflexivity. Qed.

Lemma regexMatch_skip (r : list atom) (a s : jsstring) :
  (forall k : nat, (k < length a)%nat -> matchAt r (drop k (a ++ s)) = None) ->
  regexMatch r (a ++ s) = regexMatch r s.
Proof.
  induction a as [|c a IH]; intros Hno; [reflexivity |].
  change ((c :: a) ++ s) with (c :: (a ++ s)). rewrite regexMatch_cons.
  assert (H0 : matchAt r (c :: a ++ s) = None)
    by (apply (Hno 0%nat); simpl; lia).
  rewrite H0. apply IH. intros k Hk. apply (Hno (S k)). simpl. lia.
Qed.

Lemma matchAt_geometryRe_startsWith (s : jsstring) :
  startsWith geometryTag s = false -> matchAt geometryRe s = None.
Proof.
  intros E. unfold matchAt. rewrite matchAtoms_geometryRe, E. reflexivity.
Qed.

(** X1.  A bundle in which the vertex marker comes first and the fragment
    marker second gives back its two sections: the text between the
    markers and the text after the fragment marker, each trimmed.  What
    stands before the vertex marker is dropped. *)
Theorem ordered_bundle_sections (pre v f : jsstring) :
  includes pre vertexMarker = false ->
  includes (pre ++ vertexMarker ++ v) fragmentMarker = false ->
  extractVertexShader (pre ++ vertexMarker ++ v ++ fragmentMarker ++ f)
  = Ok (trim v)
  /\ extractFragmentShader (pre ++ vertexMarker ++ v ++ fragmentMarker ++ f)
     = Ok (trim f)
  /\ parseBundle (pre ++ vertexMarker ++ v ++ fragmentMarker ++ f)
     = Ok (extractGeometryType
             (pre ++ vertexMarker ++ v ++ fragmentMarker ++ f),
           trim v, trim f).
Proof.
  intros Hv Hf. apply includes_absent in Hv, Hf.
  set (code := pre ++ vertexMarker ++ v ++ fragmentMarker ++ f).
  assert (Iv : indexOf code vertexMarker = Z.of_nat (length pre))
    by (apply indexOf_first; [vm_compute; reflexivity | exact Hv]).
  assert (Ec : code = (pre ++ vertexMarker ++ v) ++ fragmentMarker ++ f)
    by (unfold code; rewrite <- !app_assoc; reflexivity).
  assert (If : indexOf code fragmentMarker
               = Z.of_nat (length (pre ++ vertexMarker ++ v)))
    by (rewrite Ec; apply indexOf_first; [vm_compute; reflexivity | exact Hf]).
  assert (Ev : extractVertexShader code = Ok (trim v)).
  { unfold extractVertexShader. rewrite Iv, If.
    replace (Z.of_nat (length pre) =? -1) with false by (symmetry; lia).
    replace (Z.of_nat (length (pre ++ vertexMarker ++ v)) =? -1) with false
      by (symmetry; lia).
    cbn [orb]. rewrite substring_range.
    - rewrite Ec at 1. rewrite <- (app_assoc pre).
      rewrite drop_length_app.
      replace (length (pre ++ vertexMarker ++ v) - length pre)%nat
        with (length (vertexMarker ++ v))
        by (rewrite (length_app pre); lia).
      rewrite take_app_length, replace_prefix. reflexivity.
    - rewrite Ec, !length_app. lia. }
  assert (Et : extractFragmentShader code = Ok (trim f)).
  { unfold extractFragmentShader, substringFrom. rewrite If.
    replace (Z.of_nat (length (pre ++ vertexMarker ++ v)) =? -1) with false
      by (symmetry; lia).
    rewrite substring_range by (rewrite Ec, !length_app; lia).
    rewrite Ec at 2. rewrite drop_length_app.
    rewrite firstn_all2 by (rewrite Ec, !length_app; lia).
    rewrite replace_prefix. reflexivity. }
  split; [exact Ev |]. split; [exact Et |].
  unfold parseBundle. rewrite Ev, Et. reflexivity.
Qed.

(** X2.  The geometry type is always a word: whatever the bundle, the
    name handed to [setupGeometry] is not empty and holds only letters,
    digits and underscores. *)
Theorem geometry_type_is_a_word (code : jsstring) :
  isEmpty (extractGeometryType code) = false
  /\ forallb isWord (extractGeometryType code) = true.
Proof.
  unfold extractGeometryType.
  destruct (regexMatch geometryRe code) as [m |] eqn:E;
    [| split; reflexivity].
  apply regexMatch_found in E as (pre & post & _ & E).
  apply matchAt_geometryRe in E
    as (ws & w & rest & _ & -> & Hws & Hne & Hw & _).
  rewrite geometryGroup_match by assumption. split; assumption.
Qed.

(** X3.  A bundle without the geometry tag is drawn as a cube. *)
Theorem geometry_type_defaults_to_cube (code : jsstring) :
  includes code geometryTag = false ->
  extractGeometryType code = str "cube".
Proof.
  intros Hno. apply includes_absent in Hno. unfold extractGeometryType.
  destruct (regexMatch geometryRe code) as [m |] eqn:E; [| reflexivity].
  exfalso. apply Hno.
  apply regexMatch_found in E as (pre & post & -> & E).
  apply matchAt_geometryRe in E as (ws & w & rest & -> & _).
  exists pre, (ws ++ w ++ rest). reflexivity.
Qed.

(** X4.  The geometry type is the word that follows the first geometry
    tag; the white space between the tag and the word is skipped, line
    feeds included, so the word may stand on a later line than the tag. *)
Theorem geometry_type_is_first_tagged_word (pre ws w rest : jsstring) :
  includes pre geometryTag = false ->
  forallb isSpace ws = true -> isEmpty w = false ->
  forallb isWord w = true -> stops isWord rest = true ->
  extractGeometryType (pre ++ geometryTag ++ ws ++ w ++ rest) = w.
Proof.
  intros Hno Hws Hne Hw Hrest. apply includes_absent in Hno.
  unfold extractGeometryType.
  rewrite regexMatch_skip.
  - rewrite (regexMatch_matchAt _ _ _
               (matchAt_geometryRe_tagged ws w rest Hws Hne Hw Hrest)).
    apply geometryGroup_match; assumption.
  - intros k Hk. apply matchAt_geometryRe_startsWith.
    apply no_overlap; [vm_compute; reflexivity | exact Hno | exact Hk].
Qed.

Lemma ordered_bundle_sections_witness :
  extractVertexShader
    ([] ++ vertexMarker ++ (nl ++ vertexSource ++ nl) ++ fragmentMarker
     ++ (nl ++ fragmentSource))
  = Ok (trim (nl ++ vertexSource ++ nl))
  /\ extractFragmentShader
       ([] ++ vertexMarker ++ (nl ++ vertexSource ++ nl) ++ fragmentMarker
        ++ (nl ++ fragmentSource))
     = Ok (trim (nl ++ fragmentSource))
  /\ parseBundle
       ([] ++ vertexMarker ++ (nl ++ vertexSource ++ nl) ++ fragmentMarker
        ++ (nl ++ fragmentSource))
     = Ok (extractGeometryType
             ([] ++ vertexMarker ++ (nl ++ vertexSource ++ nl)
              ++ fragmentMarker ++ (nl ++ fragmentSource)),
           trim (nl ++ vertexSource ++ nl), trim (nl ++ fragmentSource)).
Proof.
  apply (ordered_bundle_sections [] (nl ++ vertexSource ++ nl)
           (nl ++ fragmentSource)); vm_compute; reflexivity.
Defined.

Lemma geometry_type_defaults_to_cube_witness :
  extractGeometryType goodBundle = str "cube".
Proof.
  apply (geometry_type_defaults_to_cube goodBundle). vm_compute. reflexivity.
Defined.

Lemma geometry_type_is_first_tagged_word_witness :
  extractGeometryType
    (str "// the shape" ++ geometryTag ++ nl ++ str "torus"
     ++ (nl ++ goodBundle))
  = str "torus".
Proof.
  apply (geometry_type_is_first_tagged_word (str "// the shape") nl
           (str "torus") (nl ++ goodBundle)); vm_compute; reflexivity.
Defined.

(** The bundle of the witness is [goodBundle]. *)
Example good_bundle_sections :
  parseBundle goodBundle = Ok (str "cube", vertexSource, fragmentSource).
Proof. vm_compute. reflexivity. Qed.

End BundleFacts.
(** ** The shape of what the normalizer returns *)

Module NormalizerShape.
Import NormalizerFacts.

(** The default precision line mentions none of the texts the normalizer
    looks for. *)
Lemma includes_after_default (t p : jsstring) :
  singleLine p = true -> includes defaultPrecision p = false ->
  includes (defaultPrecision ++ nl ++ t) p = includes t p.
Proof.
  intros Hp Hd. rewrite includes_across_nl by exact Hp. rewrite Hd.
  reflexivity.
Qed.

Lemma uniformDeclarations_after_default (t : jsstring) :
  uniformDeclarations (defaultPrecision ++ nl ++ t) = uniformDeclarations t.
Proof.
  unfold uniformDeclarations, needsTimeUniform, needsResolutionUniform,
    needsVNormalVarying, needsVPositionVarying.
  rewrite !includes_after_default by (vm_compute; reflexivity).
  reflexivity.
Qed.

(** The queued declarations end with a line feed, which [trim] removes and
    [join] puts back. *)
Lemma declsOf_trim_nl (b1 b2 b3 b4 : bool) :
  declsOf b1 b2 b3 b4 <> [] ->
  trim (declsOf b1 b2 b3 b4) ++ nl = declsOf b1 b2 b3 b4.
Proof.
  destruct b1, b2, b3, b4; intros Hne;
    solve [vm_compute; reflexivity | exfalso; apply Hne; reflexivity].
Qed.

Lemma blank_dropWhile (x : jsstring) :
  forallb isSpace x = true -> dropWhile isSpace x = [].
Proof.
  induction x as [|c x IH]; [reflexivity |]. simpl.
  intros Hx. apply andb_true_iff in Hx as [-> Hx]. apply IH, Hx.
Qed.

Lemma ensurePrecision_includes (t : jsstring) :
  includes (ensurePrecision t) (str "precision") = true.
Proof.
  destruct (includes t (str "precision")) eqn:E.
  - destruct (regexMatch precisionRe t) as [stmt |] eqn:R.
    + rewrite (ensurePrecision_moved t stmt E R).
      apply includes_app_l, statement_includes.
      apply (regexMatch_statement t stmt R).
    + rewrite (ensurePrecision_unmatched t E R). exact E.
  - rewrite (ensurePrecision_default t E).
    apply includes_app_l. vm_compute. reflexivity.
Qed.

(** X5.  A source in which the word [precision] does not occur comes back
    as the default precision line, then one declaration line for each of
    [time], [resolution], [vNormal] and [vPosition] that the source uses
    and does not declare, in that order, then the trimmed source. *)
Theorem source_without_precision_gets_header (x : jsstring) :
  includes (trim x) (str "precision") = false ->
  fixShaderIssues x
  = defaultPrecision ++ nl ++ uniformDeclarations (trim x) ++ trim x.
Proof.
  intros Hno. unfold fixShaderIssues.
  rewrite (ensurePrecision_default _ Hno).
  rewrite <- (uniformDeclarations_after_default (trim x)).
  destruct (isEmpty (uniformDeclarations (defaultPrecision ++ nl ++ trim x)))
    eqn:E.
  - apply isEmpty_true in E. rewrite insertDeclarations_none by exact E.
    rewrite E. reflexivity.
  - apply isEmpty_false in E.
    rewrite insertDeclarations_canonical;
      [| apply defaultPrecision_statement | vm_compute; reflexivity | exact E].
    rewrite uniformDeclarations_declsOf in *.
    rewrite <- (declsOf_trim_nl _ _ _ _ E) at 2.
    rewrite <- !app_assoc. reflexivity.
Qed.

(** X6.  The line after which the declarations go is always found: after
    the precision step the word [precision] occurs in the text, so the
    search of lines 213-215 never returns [-1] and the branch of lines
    221-224 is never taken; the word occurs in what is returned too. *)
Theorem precision_line_always_found (x : jsstring) :
  includes (ensurePrecision (trim x)) (str "precision") = true
  /\ includes (fixShaderIssues x) (str "precision") = true
  /\ findIndex (fun line => includes line (str "precision"))
               (splitLines (ensurePrecision (trim x))) <> -1.
Proof.
  split; [apply ensurePrecision_includes |].
  split.
  { unfold fixShaderIssues.
    pose proof (ensurePrecision_includes (trim x)) as Hin.
    set (t := ensurePrecision (trim x)) in *.
    destruct (isEmpty (uniformDeclarations t)) eqn:E.
    - apply isEmpty_true in E. rewrite insertDeclarations_none; assumption.
    - apply isEmpty_false in E.
      destruct (insertDeclarations_unmatched t Hin E)
        as (U & V & _ & -> & HU & _).
      apply includes_app_l, HU. }
  intros Hidx.
  pose proof (ensurePrecision_includes (trim x)) as Hin.
  rewrite <- (joinLines_splitLines (ensurePrecision (trim x))) in Hin.
  apply includes_joinLines in Hin as (line & Hline & Hp);
    [| vm_compute; reflexivity | apply splitLines_nonempty].
  unfold findIndex in Hidx.
  rewrite (findIndexFrom_none _ _ 0 ltac:(lia) Hidx line Hline) in Hp.
  discriminate.
Qed.

(** X7.  In what the normalizer returns, each of [time], [resolution],
    [vNormal] and [vPosition] that occurs is declared: the four tests of
    lines 181-201 are all false on the output, whatever the input. *)
Theorem output_queues_no_declaration (x : jsstring) :
  uniformDeclarations (fixShaderIssues x) = [].
Proof.
  unfold fixShaderIssues.
  pose proof (ensurePrecision_includes (trim x)) as Hin.
  set (t := ensurePrecision (trim x)) in *.
  destruct (isEmpty (uniformDeclarations t)) eqn:E.
  - apply isEmpty_true in E. rewrite insertDeclarations_none; exact E.
  - apply isEmpty_false in E.
    destruct (insertDeclarations_unmatched t Hin E)
      as (U & V & Ht & Hins & _ & HV).
    rewrite Hins, Ht. apply uniformDeclarations_after_insert, HV.
Qed.

(** X8.  An empty source, or one of white space only, comes back as the
    default precision line and a line feed. *)
Theorem blank_source_gets_default_precision (x : jsstring) :
  forallb isSpace x = true ->
  fixShaderIssues x = defaultPrecision ++ nl.
Proof.
  intros Hx. unfold fixShaderIssues, trim, trimStart.
  rewrite (blank_dropWhile x Hx). vm_compute. reflexivity.
Qed.

(** The match that [match] returns is the leftmost one. *)
Lemma regexMatch_leftmost (r : list atom) (s m : jsstring) :
  regexMatch r s = Some m ->
  exists pre post,
    s = pre ++ post /\ matchAt r post = Some m
    /\ forall k : nat, (k < length pre)%nat -> matchAt r (drop k s) = None.
Proof.
  induction s as [|c s IH].
  - simpl. destruct (matchAt r []) as [m' |] eqn:E; [| discriminate].
    intros [= <-]. exists [], []. repeat split; [exact E |].
    intros k Hk. simpl in Hk. lia.
  - rewrite BundleFacts.regexMatch_cons.
    destruct (matchAt r (c :: s)) as [m' |] eqn:E.
    + intros [= <-]. exists [], (c :: s). repeat split; [exact E |].
      intros k Hk. simpl in Hk. lia.
    + intros Hm. destruct (IH Hm) as (pre & post & -> & Hpost & Hleft).
      exists (c :: pre), post. repeat split; [exact Hpost |].
      intros [|k] Hk; [exact E |]. apply Hleft. simpl in Hk. lia.
Qed.

(** X28.  A precision statement that is not at the top is moved there:
    the first statement that the pattern finds is cut out of the trimmed
    source, and the text comes back as the statement, a line feed, and
    what stood before and after the statement, joined and trimmed. *)
Theorem precision_statement_is_moved_to_the_top (x stmt : jsstring) :
  regexMatch precisionRe (trim x) = Some stmt ->
  exists before after,
    trim x = before ++ stmt ++ after
    /\ (forall k : nat, (k < length before)%nat ->
          matchAt precisionRe (drop k (trim x)) = None)
    /\ ensurePrecision (trim x) = stmt ++ nl ++ trim (before ++ after)
    /\ (uniformDeclarations (stmt ++ nl ++ trim (before ++ after)) = [] ->
        fixShaderIssues x = stmt ++ nl ++ trim (before ++ after)).
Proof.
  intros Hm.
  destruct (regexMatch_leftmost _ _ _ Hm) as (pre & post & Ht & Hpost & Hleft).
  destruct (matchAt_statement post stmt Hpost) as (Hstmt & rest & ->).
  exists pre, rest. split; [exact Ht |]. split; [exact Hleft |].
  assert (Hidx : indexOf (trim x) stmt = Z.of_nat (length pre)).
  { rewrite Ht. unfold indexOf. rewrite BundleFacts.indexOfFrom_skip.
    - apply BundleFacts.indexOfFrom_here, startsWith_app.
    - intros k Hk.
      destruct (startsWith stmt (drop k (pre ++ stmt ++ rest))) eqn:E;
        [exfalso | reflexivity].
      apply startsWith_spec in E as [r Er].
      specialize (Hleft k Hk). rewrite Ht, Er in Hleft.
      rewrite (matchAt_stable stmt r Hstmt) in Hleft. discriminate. }
  assert (Hrep : replace (trim x) stmt [] = pre ++ rest).
  { unfold replace. rewrite Hidx.
    replace (Z.of_nat (length pre) =? -1) with false by (symmetry; lia).
    rewrite Nat2Z.id, Ht, take_app_length. cbn [app]. f_equal.
    rewrite <- drop_drop, drop_app_length. apply drop_app_length. }
  assert (He : ensurePrecision (trim x)
               = stmt ++ nl ++ trim (pre ++ rest)).
  { rewrite (ensurePrecision_moved _ _ (regexMatch_includes _ _ Hm) Hm).
    rewrite Hrep. reflexivity. }
  split; [exact He |].
  intros Hd. unfold fixShaderIssues. rewrite He.
  apply insertDeclarations_none, Hd.
Qed.

Lemma source_without_precision_gets_header_witness :
  fixShaderIssues plainSource
  = defaultPrecision ++ nl ++ uniformDeclarations (trim plainSource)
    ++ trim plainSource.
Proof.
  apply (source_without_precision_gets_header plainSource).
  vm_compute. reflexivity.
Defined.

Lemma blank_source_gets_default_precision_witness :
  fixShaderIssues (str "  " ++ nl) = defaultPrecision ++ nl.
Proof.
  apply (blank_source_gets_default_precision (str "  " ++ nl)).
  vm_compute. reflexivity.
Defined.

Lemma precision_statement_is_moved_to_the_top_witness :
  exists before after,
    trim movedStatementSource
    = before ++ str "precision highp float;" ++ after
    /\ (forall k : nat, (k < length before)%nat ->
          matchAt precisionRe (drop k (trim movedStatementSource)) = None)
    /\ ensurePrecision (trim movedStatementSource)
       = str "precision highp float;" ++ nl ++ trim (before ++ after)
    /\ (uniformDeclarations
          (str "precision highp float;" ++ nl ++ trim (before ++ after)) = [] ->
        fixShaderIssues movedStatementSource
        = str "precision highp float;" ++ nl ++ trim (before ++ after)).
Proof.
  apply (precision_statement_is_moved_to_the_top movedStatementSource
           (str "precision highp float;")).
  vm_compute. reflexivity.
Defined.

(** The statement of [movedStatementSource] stood on the second line. *)
Example moved_statement_source_repaired :
  fixShaderIssues movedStatementSource
  = str "precision highp float;" ++ nl ++ str "uniform float time;" ++ nl
    ++ nl ++ str "void main() { gl_FragColor = vec4(time); }".
Proof. vm_compute. reflexivity. Qed.

End NormalizerShape.
(** ** The generators at every parameter *)

Module GeometryBounds.
Import Geometry GeometryFacts.

Section Counts.
Context {F : Type} `{JsNumber F}.

(** *** Lengths *)

Lemma count_rows (k : Z) (a n : nat) :
  fold_right (fun i acc =>
                ((if negb (Z.of_nat i =? k)%Z then 1 else 0) + acc)%nat)
             0%nat (seq a n)
  = (n - (if ((Z.of_nat a <=? k) && (k <? Z.of_nat (a + n)))%Z
          then 1 else 0))%nat.
Proof.
  revert a. induction n as [|n IH]; intros a.
  - simpl. destruct (_ && _); reflexivity.
  - cbn [seq fold_right]. rewrite IH.
    destruct (Z.eqb_spec (Z.of_nat a) k) as [E | E]; cbn [negb];
      repeat match goal with
             | |- context [(?x <=? ?y)%Z] => destruct (Z.leb_spec x y)
             | |- context [(?x <? ?y)%Z] => destruct (Z.ltb_spec x y)
             end; cbn [andb]; lia.
Qed.

Lemma sum_rows (w : nat) (f g : nat -> nat) (rows : list nat) :
  fold_right (fun i acc => (w * (9 * (f i + g i)) + acc)%nat) 0%nat rows
  = (9 * w * (fold_right (fun i acc => (f i + acc)%nat) 0%nat rows
              + fold_right (fun i acc => (g i + acc)%nat) 0%nat rows))%nat.
Proof.
  induction rows as [|i rows IH]; cbn [fold_right]; [lia |].
  rewrite IH. nia.
Qed.

(** The first and the last row of the sphere have one triangle for each
    cell, the other rows two. *)
Lemma sphereNumberCount_closed (w h : nat) :
  sphereNumberCount w h = (18 * w * (h - 1))%nat.
Proof.
  unfold sphereNumberCount, sphereRowTriangles.
  rewrite (sum_rows w
             (fun i => if negb (Z.of_nat i =? 0)%Z then 1 else 0)%nat
             (fun i => if negb (Z.of_nat i =? Z.of_nat h - 1)%Z
                       then 1 else 0)%nat).
  rewrite !count_rows.
  repeat match goal with
         | |- context [(?x <=? ?y)%Z] => destruct (Z.leb_spec x y)
         | |- context [(?x <? ?y)%Z] => destruct (Z.ltb_spec x y)
         end; cbn [andb]; nia.
Qed.

Lemma length_generateCylinder (radius height : F) (n : nat) :
  length (generateCylinder radius height n) = (n * 18)%nat.
Proof. apply length_cylinderTriangles. Qed.

(** *** Reads *)

Lemma pushVertex_incl (arr : list F) (a : nat) :
  (a * 3 + 2 < length arr)%nat -> incl (pushVertex arr a) arr.
Proof.
  intros Ha x Hx. unfold pushVertex, at_ in Hx. simpl in Hx.
  destruct Hx as [<- | [<- | [<- | []]]]; apply nth_In; lia.
Qed.

Lemma forUpTo_In (n : nat) (body : nat -> list F) (x : F) :
  In x (forUpTo n body) -> exists i, (i < n)%nat /\ In x (body i).
Proof.
  unfold forUpTo. rewrite in_flat_map. intros (i & Hi & Hx).
  apply in_seq in Hi. exists i. split; [lia | exact Hx].
Qed.

Lemma incl_app3 (a b c arr : list F) :
  incl a arr -> incl b arr -> incl c arr -> incl (a ++ b ++ c) arr.
Proof. intros Ha Hb Hc. repeat apply incl_app; assumption. Qed.

Lemma sphereTriangles_incl (vertices : list F) (w h : nat) :
  length vertices = ((h + 1) * ((w + 1) * 3))%nat ->
  incl (sphereTriangles vertices w h) vertices.
Proof.
  intros Hlen x Hx. unfold sphereTriangles in Hx.
  apply forUpTo_In in Hx as (i & Hi & Hx).
  apply forUpTo_In in Hx as (j & Hj & Hx).
  cbv zeta in Hx. apply in_app_or in Hx as [Hx | Hx].
  - destruct (negb (Z.of_nat i =? 0)%Z); [| destruct Hx].
    revert x Hx. apply incl_app3; apply pushVertex_incl; nia.
  - destruct (negb (Z.of_nat i =? Z.of_nat h - 1)%Z); [| destruct Hx].
    revert x Hx. apply incl_app3; apply pushVertex_incl; nia.
Qed.

Lemma cylinderTriangles_incl (vertices : list F) (n : nat) :
  length vertices = ((n + 1) * 6)%nat ->
  incl (cylinderTriangles vertices n) vertices.
Proof.
  intros Hlen x Hx. unfold cylinderTriangles in Hx.
  apply forUpTo_In in Hx as (i & Hi & Hx). cbv zeta in Hx.
  assert (Hmod : ((i + 1) mod n < n)%nat) by (apply Nat.mod_upper_bound; lia).
  revert x Hx.
  repeat apply incl_app; apply pushVertex_incl; lia.
Qed.

Lemma torusTriangles_incl (vertices : list F) (M m : nat) :
  length vertices = ((M + 1) * ((m + 1) * 3))%nat ->
  incl (torusTriangles vertices M m) vertices.
Proof.
  intros Hlen x Hx. unfold torusTriangles in Hx.
  apply forUpTo_In in Hx as (i & Hi & Hx).
  apply forUpTo_In in Hx as (j & Hj & Hx). cbv zeta in Hx.
  revert x Hx.
  repeat apply incl_app; apply pushVertex_incl; nia.
Qed.

Lemma length_sphereGrid (radius : F) (w h : nat) :
  length (sphereGrid radius w h) = ((h + 1) * ((w + 1) * 3))%nat.
Proof.
  unfold sphereGrid. apply length_forUpTo. intros i.
  apply length_forUpTo. reflexivity.
Qed.

Lemma length_sphereNormalGrid (w h : nat) :
  length (sphereNormalGrid (F:=F) w h) = ((h + 1) * ((w + 1) * 3))%nat.
Proof.
  unfold sphereNormalGrid. apply length_forUpTo. intros i.
  apply length_forUpTo. reflexivity.
Qed.

Lemma length_cylinderGrid (radius height : F) (n : nat) :
  length (cylinderGrid radius height n) = ((n + 1) * 6)%nat.
Proof. unfold cylinderGrid. apply length_forUpTo. reflexivity. Qed.

Lemma length_cylinderNormalGrid (n : nat) :
  length (cylinderNormalGrid (F:=F) n) = ((n + 1) * 6)%nat.
Proof. unfold cylinderNormalGrid. apply length_forUpTo. reflexivity. Qed.

Lemma length_torusGrid (R r : F) (M m : nat) :
  length (torusGrid R r M m) = ((M + 1) * ((m + 1) * 3))%nat.
Proof.
  unfold torusGrid. apply length_forUpTo. intros i.
  apply length_forUpTo. reflexivity.
Qed.

Lemma length_torusNormalGrid (R r : F) (M m : nat) :
  length (torusNormalGrid R r M m) = ((M + 1) * ((m + 1) * 3))%nat.
Proof.
  unfold torusNormalGrid. apply length_forUpTo. intros i.
  apply length_forUpTo. reflexivity.
Qed.

(** X9.  At every parameter the vertex array and the normal array of a
    generator have the same length, a whole number of triangles: the
    sphere has [2 * w * (h - 1)] of them (none when it has fewer than two
    rows), the cylinder [2 * n], the torus [2 * M * m]; each triangle is
    nine numbers. *)
Theorem generators_lengths (radius height majorRadius minorRadius : F)
    (w h n M m : nat) :
  length (generateSphere radius w h) = (9 * (2 * w * (h - 1)))%nat
  /\ length (generateSphereNormals radius w h) = (9 * (2 * w * (h - 1)))%nat
  /\ length (generateCylinder radius height n) = (9 * (2 * n))%nat
  /\ length (generateCylinderNormals radius height n) = (9 * (2 * n))%nat
  /\ length (generateTorus majorRadius minorRadius M m)
     = (9 * (2 * M * m))%nat
  /\ length (generateTorusNormals majorRadius minorRadius M m)
     = (9 * (2 * M * m))%nat.
Proof.
  rewrite length_generateSphere, length_generateSphereNormals,
    sphereNumberCount_closed.
  unfold generateCylinder, generateCylinderNormals, generateTorus,
    generateTorusNormals.
  rewrite !length_cylinderTriangles, !length_torusTriangles.
  repeat split; lia.
Qed.

End Counts.

(** *** No read out of range

    In the free interpretation a read out of range shows as
    [EUndefined]; none of the numbers a generator returns is one. *)

Lemma grid_number_defined (grid out : list expr) :
  incl out grid -> ~ In EUndefined grid -> ~ In EUndefined out.
Proof. intros Hincl Hgrid Hin. apply Hgrid, Hincl, Hin. Qed.

Ltac grid_numbers :=
  let Hin := fresh "Hin" in
  intros Hin;
  repeat (apply forUpTo_In in Hin as (? & _ & Hin));
  cbn in Hin;
  repeat (destruct Hin as [Hin | Hin]; [discriminate Hin |]);
  exact Hin.

(** X10.  No generator reads its grid of points out of range, at any
    parameter: every number of the six arrays is a number of the grid. *)
Theorem generators_read_in_range (radius height majorRadius minorRadius : expr)
    (w h n M m : nat) :
  ~ In EUndefined (generateSphere radius w h)
  /\ ~ In EUndefined (generateSphereNormals radius w h)
  /\ ~ In EUndefined (generateCylinder radius height n)
  /\ ~ In EUndefined (generateCylinderNormals radius height n)
  /\ ~ In EUndefined (generateTorus majorRadius minorRadius M m)
  /\ ~ In EUndefined (generateTorusNormals majorRadius minorRadius M m).
Proof.
  repeat split.
  - apply (grid_number_defined (sphereGrid radius w h));
      [apply sphereTriangles_incl, length_sphereGrid |].
    unfold sphereGrid. grid_numbers.
  - apply (grid_number_defined (sphereNormalGrid w h));
      [apply sphereTriangles_incl, length_sphereNormalGrid |].
    unfold sphereNormalGrid. grid_numbers.
  - apply (grid_number_defined (cylinderGrid radius height n));
      [apply cylinderTriangles_incl, length_cylinderGrid |].
    unfold cylinderGrid. grid_numbers.
  - apply (grid_number_defined (cylinderNormalGrid n));
      [apply cylinderTriangles_incl, length_cylinderNormalGrid |].
    unfold cylinderNormalGrid. grid_numbers.
  - apply (grid_number_defined (torusGrid majorRadius minorRadius M m));
      [apply torusTriangles_incl, length_torusGrid |].
    unfold torusGrid. grid_numbers.
  - apply (grid_number_defined (torusNormalGrid majorRadius minorRadius M m));
      [apply torusTriangles_incl, length_torusNormalGrid |].
    unfold torusNormalGrid. grid_numbers.
Qed.

End GeometryBounds.
(** ** The request for a shader *)

Module GeneratorFacts.
Import Pipeline Generator NormalizerFacts PipelineFacts.

Section Requests.
Context {F : Type} `{JsNumber F}.
Variable host : Host.
Variable backend : jsstring -> option Response.ShaderResponse.

Abbreviation World := (World (F:=F)).

(** A request is sent for every description that is not blank, with the
    trimmed description; the shown code and the error are cleared
    first. *)
Lemma generateShader_sent (v : ViewState) (w : World) :
  isEmpty (trim (description v)) = false ->
  generateShader host backend v w
  = completeRequest host (backend (trim (description v)))
      {| description := description v; shaderCode := []; isLoading := true |}
      (setError [] w).2.
Proof.
  intros Hd. unfold generateShader, beginRequest. rewrite Hd. reflexivity.
Qed.

Lemma truthy_code (code : option jsstring) (c : jsstring) :
  truthy code = Some c -> code = Some c /\ isEmpty c = false.
Proof.
  destruct code as [[|a s] |]; simpl; intros E; try discriminate.
  injection E as <-. split; reflexivity.
Qed.

Lemma completeRequest_renders (data : Response.ShaderResponse)
    (code : jsstring) (v : ViewState) (w : World) :
  Response.success data = true ->
  truthy (Response.shaderCode data) = Some code ->
  completeRequest host (Some data) v w
  = match renderShader host code w with
    | (Ok _, w') =>
        ({| description := description v; shaderCode := code;
            isLoading := false |}, w')
    | (Throw message, w') =>
        ({| description := description v; shaderCode := code;
            isLoading := false |},
         (setError (renderErrorMessage message) w').2)
    end.
Proof.
  intros Hs Hc. unfold completeRequest. rewrite Hs, Hc. reflexivity.
Qed.

Lemma heading_of_render_error (message : jsstring) :
  errorHeading (renderErrorMessage message)
  = Some (str "Shader Compilation Error:").
Proof.
  unfold errorHeading, renderErrorMessage.
  assert (Hin : includes (str "Shader compilation failed: " ++ message
                          ++ str ". The raw shader code is displayed below.")
                         (str "compilation failed") = true)
    by (apply includes_app_l; vm_compute; reflexivity).
  rewrite Hin. reflexivity.
Qed.

Lemma blank_trim (x : jsstring) : forallb isSpace x = true -> trim x = [].
Proof.
  intros Hx. unfold trim, trimStart.
  rewrite (NormalizerShape.blank_dropWhile x Hx). reflexivity.
Qed.

Lemma extractVertexShader_absent (code : jsstring) :
  includes code vertexMarker = false \/ includes code fragmentMarker = false ->
  extractVertexShader code = Throw markersError.
Proof.
  intros Hno. unfold extractVertexShader.
  rewrite !indexOf_eqb_includes.
  destruct Hno as [-> | ->]; [| rewrite orb_true_r]; reflexivity.
Qed.

(** X21.  A blank description sends no request: whatever the backend, the
    error becomes [Please enter a description], and the description, the
    shown code, the loading flag and the WebGL context stay as they
    were. *)
Theorem blank_description_sends_no_request (v : ViewState) (w : World) :
  forallb isSpace (description v) = true ->
  (generateShader host backend v w).1 = v
  /\ errorState (generateShader host backend v w).2 = descriptionError
  /\ objects (generateShader host backend v w).2 = objects w
  /\ calls (generateShader host backend v w).2 = calls w
  /\ frameRequests (generateShader host backend v w).2 = frameRequests w
  /\ (beginRequest v w).1.1 = None.
Proof.
  intros Hd. unfold generateShader, beginRequest.
  rewrite (blank_trim _ Hd). repeat split.
Qed.

(** X22.  Whatever [renderShader] throws is shown as a compilation
    failure: the error is the message between [Shader compilation
    failed: ] and the note on the raw code, the panel is headed
    [Shader Compilation Error:], the code of the response stays on
    display and the loading flag is cleared. *)
Theorem render_error_is_shown_as_compilation_failure (v : ViewState)
    (w : World) (data : Response.ShaderResponse) (code msg : jsstring) :
  isEmpty (trim (description v)) = false ->
  backend (trim (description v)) = Some data ->
  Response.success data = true ->
  truthy (Response.shaderCode data) = Some code ->
  (renderShader host code (setError [] w).2).1 = Throw msg ->
  shaderCode (generateShader host backend v w).1 = code
  /\ isLoading (generateShader host backend v w).1 = false
  /\ errorState (generateShader host backend v w).2 = renderErrorMessage msg
  /\ errorHeading (errorState (generateShader host backend v w).2)
     = Some (str "Shader Compilation Error:")
  /\ objects (generateShader host backend v w).2
     = objects (renderShader host code (setError [] w).2).2.
Proof.
  intros Hd Hb Hs Hc Ht.
  rewrite (generateShader_sent v w Hd), Hb.
  rewrite (completeRequest_renders data code _ _ Hs Hc).
  destruct (renderShader host code (setError [] w).2) as [[[] | message] w'];
    simpl in Ht; [discriminate |].
  injection Ht as ->. cbn [fst snd shaderCode isLoading].
  unfold setError, modify. cbn [snd errorState objects].
  rewrite heading_of_render_error. repeat split.
Qed.

(** X23.  A bundle without one of its markers is never handed to WebGL,
    and is shown as a compilation failure all the same: the error is the
    markers error inside the compilation-failure text, under the heading
    [Shader Compilation Error:]. *)
Theorem bundle_without_marker_is_shown_as_compilation_failure
    (v : ViewState) (w : World) (data : Response.ShaderResponse)
    (code : jsstring) :
  canvasMounted host = true -> webglSupported host = true ->
  isEmpty (trim (description v)) = false ->
  backend (trim (description v)) = Some data ->
  Response.success data = true ->
  truthy (Response.shaderCode data) = Some code ->
  includes code vertexMarker = false \/ includes code fragmentMarker = false ->
  errorState (generateShader host backend v w).2
  = renderErrorMessage markersError
  /\ errorHeading (errorState (generateShader host backend v w).2)
     = Some (str "Shader Compilation Error:")
  /\ shaderCode (generateShader host backend v w).1 = code
  /\ objects (generateShader host backend v w).2 = objects w
  /\ frameRequests (generateShader host backend v w).2 = frameRequests w.
Proof.
  intros Hcv Hgl Hd Hb Hs Hc Hno.
  rewrite (generateShader_sent v w Hd), Hb.
  rewrite (completeRequest_renders data code _ _ Hs Hc).
  assert (Hm : missingMarker (parseBundle code)).
  { left. unfold parseBundle.
    rewrite (extractVertexShader_absent code Hno). reflexivity. }
  destruct (renderShader_missing_marker host code (setError [] w).2 Hcv Hgl Hm)
    as (Hr & Ho & Hf).
  destruct (renderShader host code (setError [] w).2) as [[[] | message] w'];
    simpl in Hr; [discriminate |].
  injection Hr as ->. cbn [fst snd shaderCode] in *.
  unfold setError, modify in *. cbn [snd errorState objects frameRequests] in *.
  rewrite heading_of_render_error. repeat split; assumption.
Qed.

(** X24.  A response that carries no code renders nothing: when the
    request fails, the backend reports a failure, or the code is missing
    or empty, [renderShader] is not called, so the WebGL context and the
    pending callbacks are as before; no code is shown, the loading flag
    is cleared, and the error is the backend text for a failed request,
    else the error of the response when it has one that is not empty,
    else [Failed to generate shader]. *)
Theorem response_without_code_renders_nothing (v : ViewState) (w : World) :
  isEmpty (trim (description v)) = false ->
  carriesNoCode (backend (trim (description v))) = true ->
  shaderCode (generateShader host backend v w).1 = []
  /\ isLoading (generateShader host backend v w).1 = false
  /\ errorState (generateShader host backend v w).2
     = failureText (backend (trim (description v)))
  /\ isEmpty (errorState (generateShader host backend v w).2) = false
  /\ objects (generateShader host backend v w).2 = objects w
  /\ calls (generateShader host backend v w).2 = calls w
  /\ frameRequests (generateShader host backend v w).2 = frameRequests w
  /\ programRef (generateShader host backend v w).2 = programRef w.
Proof.
  intros Hd Hn. rewrite (generateShader_sent v w Hd).
  destruct (backend (trim (description v))) as [data |];
    [| repeat split].
  unfold carriesNoCode in Hn. unfold completeRequest, failureText.
  destruct data as [success code error]. cbn [Response.success
    Response.shaderCode Response.error] in *.
  destruct success; cbn [negb orb] in Hn.
  - destruct code as [[|c code] |]; cbn [isEmpty] in Hn; try discriminate;
      cbn [truthy]; destruct error as [[|e error] |]; repeat split.
  - destruct error as [[|e error] |]; repeat split.
Qed.

(** X25.  A generated bundle that can be rendered: the code is shown, the
    loading flag and the error are cleared, the error panel is not
    rendered, the program of the new pipeline is in [programRef] and its
    frame callback is registered. *)
Theorem generated_shader_is_rendered (v : ViewState) (w : World)
    (data : Response.ShaderResponse) (code vs fs : jsstring) :
  isEmpty (trim (description v)) = false ->
  backend (trim (description v)) = Some data ->
  Response.success data = true ->
  truthy (Response.shaderCode data) = Some code ->
  wellFormedb w = true ->
  canvasMounted host = true -> webglSupported host = true ->
  extractVertexShader code = Ok vs ->
  extractFragmentShader code = Ok fs ->
  allocatesFive host (nextHandle w) = true ->
  compiles host VERTEX_SHADER vs = true ->
  compiles host FRAGMENT_SHADER (fixShaderIssues fs) = true ->
  links host vs (fixShaderIssues fs) = true ->
  shaderCode (generateShader host backend v w).1 = code
  /\ isLoading (generateShader host backend v w).1 = false
  /\ errorState (generateShader host backend v w).2 = []
  /\ errorHeading (errorState (generateShader host backend v w).2) = None
  /\ programRef (generateShader host backend v w).2
     = Some (S (S (nextHandle w)))
  /\ frameRequests (generateShader host backend v w).2
     = frameRequests w ++ [nextRequest w]
  /\ drawCount (generateShader host backend v w).2 = S (drawCount w).
Proof.
  intros Hd Hb Hs Hc Hwf Hcv Hgl Hvs Hfs Ha Hcs Hcf Hl.
  apply wellFormedb_spec in Hwf.
  rewrite (generateShader_sent v w Hd), Hb.
  rewrite (completeRequest_renders data code _ _ Hs Hc).
  destruct (renderShader_runs host code vs fs (setError [] w).2 Hwf Hcv Hgl
              Hvs Hfs Ha Hcs Hcf Hl) as (cs & -> & Hdraw).
  cbn [fst snd shaderCode isLoading].
  rewrite drawCount_afterRender by exact Hdraw.
  unfold afterRender. cbn [errorState programRef frameRequests].
  repeat split.
Qed.

(** X26.  Without WebGL the generated code is shown and nothing is
    rendered: the error is [WebGL not supported in this browser], under
    the heading [Error:], and no WebGL object or callback is created. *)
Theorem missing_webgl_is_reported (v : ViewState) (w : World)
    (data : Response.ShaderResponse) (code : jsstring) :
  canvasMounted host = true -> webglSupported host = false ->
  isEmpty (trim (description v)) = false ->
  backend (trim (description v)) = Some data ->
  Response.success data = true ->
  truthy (Response.shaderCode data) = Some code ->
  shaderCode (generateShader host backend v w).1 = code
  /\ isLoading (generateShader host backend v w).1 = false
  /\ errorState (generateShader host backend v w).2
     = str "WebGL not supported in this browser"
  /\ errorHeading (errorState (generateShader host backend v w).2)
     = Some (str "Error:")
  /\ objects (generateShader host backend v w).2 = objects w
  /\ frameRequests (generateShader host backend v w).2 = frameRequests w.
Proof.
  intros Hcv Hgl Hd Hb Hs Hc.
  rewrite (generateShader_sent v w Hd), Hb.
  rewrite (completeRequest_renders data code _ _ Hs Hc).
  unfold renderShader. rewrite Hcv, Hgl. cbn [negb].
  repeat split.
Qed.

End Requests.

Lemma blank_description_sends_no_request_witness :
  (generateShader okHost (answers goodBundle) blankView startWorld).1
  = blankView
  /\ errorState
       (generateShader okHost (answers goodBundle) blankView startWorld).2
     = descriptionError
  /\ objects
       (generateShader okHost (answers goodBundle) blankView startWorld).2
     = objects startWorld
  /\ calls
       (generateShader okHost (answers goodBundle) blankView startWorld).2
     = calls startWorld
  /\ frameRequests
       (generateShader okHost (answers goodBundle) blankView startWorld).2
     = frameRequests startWorld
  /\ (beginRequest blankView startWorld).1.1 = None.
Proof.
  apply (blank_description_sends_no_request okHost (answers goodBundle)
           blankView startWorld).
  vm_compute. reflexivity.
Defined.

Lemma render_error_is_shown_as_compilation_failure_witness :
  shaderCode
    (generateShader okHost (answers badFragmentBundle) startView startWorld).1
  = badFragmentBundle
  /\ isLoading
       (generateShader okHost (answers badFragmentBundle) startView
          startWorld).1 = false
  /\ errorState
       (generateShader okHost (answers badFragmentBundle) startView
          startWorld).2
     = renderErrorMessage
         (str "Shader compilation error: ERROR: syntax error")
  /\ errorHeading
       (errorState
          (generateShader okHost (answers badFragmentBundle) startView
             startWorld).2)
     = Some (str "Shader Compilation Error:")
  /\ objects
       (generateShader okHost (answers badFragmentBundle) startView
          startWorld).2
     = objects
         (renderShader okHost badFragmentBundle (setError [] startWorld).2).2.
Proof.
  apply (render_error_is_shown_as_compilation_failure okHost
           (answers badFragmentBundle) startView startWorld
           {| Response.success := true;
              Response.shaderCode := Some badFragmentBundle;
              Response.error := None |}
           badFragmentBundle
           (str "Shader compilation error: ERROR: syntax error"));
    vm_compute; reflexivity.
Defined.

Lemma bundle_without_marker_is_shown_as_compilation_failure_witness :
  errorState
    (generateShader okHost (answers fragmentSource) startView startWorld).2
  = renderErrorMessage markersError
  /\ errorHeading
       (errorState
          (generateShader okHost (answers fragmentSource) startView
             startWorld).2)
     = Some (str "Shader Compilation Error:")
  /\ shaderCode
       (generateShader okHost (answers fragmentSource) startView
          startWorld).1 = fragmentSource
  /\ objects
       (generateShader okHost (answers fragmentSource) startView
          startWorld).2 = objects startWorld
  /\ frameRequests
       (generateShader okHost (answers fragmentSource) startView
          startWorld).2 = frameRequests startWorld.
Proof.
  apply (bundle_without_marker_is_shown_as_compilation_failure okHost
           (answers fragmentSource) startView startWorld
           {| Response.success := true;
              Response.shaderCode := Some fragmentSource;
              Response.error := None |}
           fragmentSource);
    try (vm_compute; reflexivity).
  left. vm_compute. reflexivity.
Defined.

Lemma response_without_code_renders_nothing_witness :
  shaderCode
    (generateShader okHost (refuses (Some (str "rate limited"))) startView
       firstWorld).1 = []
  /\ isLoading
       (generateShader okHost (refuses (Some (str "rate limited"))) startView
          firstWorld).1 = false
  /\ errorState
       (generateShader okHost (refuses (Some (str "rate limited"))) startView
          firstWorld).2
     = failureText (refuses (Some (str "rate limited"))
                            (trim (description startView)))
  /\ isEmpty
       (errorState
          (generateShader okHost (refuses (Some (str "rate limited")))
             startView firstWorld).2) = false
  /\ objects
       (generateShader okHost (refuses (Some (str "rate limited"))) startView
          firstWorld).2 = objects firstWorld
  /\ calls
       (generateShader okHost (refuses (Some (str "rate limited"))) startView
          firstWorld).2 = calls firstWorld
  /\ frameRequests
       (generateShader okHost (refuses (Some (str "rate limited"))) startView
          firstWorld).2 = frameRequests firstWorld
  /\ programRef
       (generateShader okHost (refuses (Some (str "rate limited"))) startView
          firstWorld).2 = programRef firstWorld.
Proof.
  apply (response_without_code_renders_nothing okHost
           (refuses (Some (str "rate limited"))) startView firstWorld);
    vm_compute; reflexivity.
Defined.

Lemma generated_shader_is_rendered_witness :
  shaderCode
    (generateShader okHost (answers goodBundle) startView startWorld).1
  = goodBundle
  /\ isLoading
       (generateShader okHost (answers goodBundle) startView startWorld).1
     = false
  /\ errorState
       (generateShader okHost (answers goodBundle) startView startWorld).2
     = []
  /\ errorHeading
       (errorState
          (generateShader okHost (answers goodBundle) startView startWorld).2)
     = None
  /\ programRef
       (generateShader okHost (answers goodBundle) startView startWorld).2
     = Some (S (S (nextHandle startWorld)))
  /\ frameRequests
       (generateShader okHost (answers goodBundle) startView startWorld).2
     = frameRequests startWorld ++ [nextRequest startWorld]
  /\ drawCount
       (generateShader okHost (answers goodBundle) startView startWorld).2
     = S (drawCount startWorld).
Proof.
  apply (generated_shader_is_rendered okHost (answers goodBundle) startView
           startWorld
           {| Response.success := true;
              Response.shaderCode := Some goodBundle;
              Response.error := None |}
           goodBundle vertexSource fragmentSource);
    vm_compute; reflexivity.
Defined.

Lemma missing_webgl_is_reported_witness :
  shaderCode
    (generateShader noWebglHost (answers goodBundle) startView startWorld).1
  = goodBundle
  /\ isLoading
       (generateShader noWebglHost (answers goodBundle) startView
          startWorld).1 = false
  /\ errorState
       (generateShader noWebglHost (answers goodBundle) startView
          startWorld).2
     = str "WebGL not supported in this browser"
  /\ errorHeading
       (errorState
          (generateShader noWebglHost (answers goodBundle) startView
             startWorld).2)
     = Some (str "Error:")
  /\ objects
       (generateShader noWebglHost (answers goodBundle) startView
          startWorld).2 = objects startWorld
  /\ frameRequests
       (generateShader noWebglHost (answers goodBundle) startView
          startWorld).2 = frameRequests startWorld.
Proof.
  apply (missing_webgl_is_reported noWebglHost (answers goodBundle)
           startView startWorld
           {| Response.success := true;
              Response.shaderCode := Some goodBundle;
              Response.error := None |}
           goodBundle);
    vm_compute; reflexivity.
Defined.

(** A backend error that itself holds the words [compilation failed] is
    headed as a compilation error too: the heading is chosen from the
    text. *)
Example heading_is_chosen_from_the_text :
  errorHeading (str "Upstream compilation failed") 
  = Some (str "Shader Compilation Error:")
  /\ errorHeading backendError = Some (str "Error:")
  /\ errorHeading [] = None.
Proof. repeat split. Qed.

End GeneratorFacts.
